(** * gnn_tracking: truth-cut masks, batch evaluation, loss aggregation and
      the clustering hyper-parameter scanner

    A shallow embedding of
    - [training/tcn_trainer.py]: [TrainingTruthCutConfig] with [is_trivial]
      and [get_masks], and the methods [_apply_mask], [evaluate_model],
      [get_batch_losses] and [train_step] of [TCNTrainer];
    - [postprocessing/clusterscanner.py]: the constructor and
      [_get_sector_to_study] of [ClusterHyperParamScanner].

    Conventions.
    - A Python exception is a value [Raise e] of the type [result];
      statements are sequenced with the bind of that monad.  The methods
      of the trainer also record the calls they make ([traced]).
    - A one-dimensional tensor is a list; the [2 x E] tensor [edge_index]
      is the list of its [E] columns.
    - Integer tensors hold [Z]; the product of two [int64] tensors wraps
      around.  Real-valued tensor entries (momenta, features, network
      outputs) are rationals, the values of [float32] numbers; a Python
      float that is compared with such a tensor is rounded to binary32
      first.  The scalar losses, which the code tests for not-a-number,
      are IEEE-754 binary32 values ([spec_float] with 24 bits of
      precision), Python floats binary64 values.
    - The network, the loss functions, the loss weights and the optimizer
      are fields of the record [TCNTrainer]; the random generator of numpy
      is a stream of numbers ([RandomState]). *)

From Stdlib Require Import ZArith QArith Qabs Qround Qpower Lqa SpecFloat Ascii Sorted Lia.
From stdpp Require Import gmap strings list fin_maps.

Local Open Scope Z_scope.

(** ** Python, numpy and torch primitives *)

Module Py.

Inductive exn : Type :=
| IndexError
| ValueError
| TypeError
| KeyError
| AssertionError
| RuntimeError (msg : string).

Inductive result (A : Type) : Type :=
| Ok (a : A)
| Raise (e : exn).
Arguments Ok {A} a.
Arguments Raise {A} e.

#[export] Instance result_ret : MRet result := fun A a => Ok a.
#[export] Instance result_bind : MBind result := fun A B f m =>
  match m with
  | Ok a => f a
  | Raise e => Raise e
  end.

Definition is_ok {A} (r : result A) : bool :=
  match r with Ok _ => true | Raise _ => false end.

(** [t[i]] for an integer [i]: torch and numpy count a negative index
    from the end and raise [IndexError] outside [-n, n). *)
Definition tensor_get {A} (t : list A) (i : Z) : result A :=
  let n := Z.of_nat (length t) in
  let j := if i <? 0 then n + i else i in
  if (0 <=? j) && (j <? n) then
    match t !! Z.to_nat j with
    | Some a => Ok a
    | None => Raise IndexError
    end
  else Raise IndexError.

(** [t[idx]] for an integer tensor [idx]. *)
Fixpoint index_select {A} (t : list A) (idx : list Z) : result (list A) :=
  match idx with
  | [] => Ok []
  | i :: idx' =>
      a ← tensor_get t i;
      r ← index_select t idx';
      Ok (a :: r)
  end.

(** The entries of [t] at the positions where [mask] is true. *)
Fixpoint select {A} (t : list A) (mask : list bool) : list A :=
  match t, mask with
  | a :: t', b :: mask' => if b then a :: select t' mask' else select t' mask'
  | _, _ => []
  end.

(** [t[mask]] for a boolean tensor [mask], which must have the shape of
    [t]. *)
Definition masked_select {A} (t : list A) (mask : list bool) : result (list A) :=
  if Nat.eqb (length mask) (length t) then Ok (select t mask)
  else Raise IndexError.

(** Writes [vals], in order, to the positions of [t] where [mask] is true. *)
Fixpoint scatter {A} (t : list A) (mask : list bool) (vals : list A) : list A :=
  match t, mask with
  | a :: t', b :: mask' =>
      if b then
        match vals with
        | v :: vals' => v :: scatter t' mask' vals'
        | [] => a :: scatter t' mask' []
        end
      else a :: scatter t' mask' vals
  | _, _ => t
  end.

(** [mask.sum()]: the number of true entries. *)
Fixpoint popcount (mask : list bool) : nat :=
  match mask with
  | [] => 0
  | b :: mask' => ((if b then 1 else 0) + popcount mask')%nat
  end.

(** [t[mask] = vals]: one value for each selected position, or a single
    value for all of them. *)
Definition masked_assign {A} (t : list A) (mask : list bool) (vals : list A)
  : result (list A) :=
  if Nat.eqb (length mask) (length t) then
    if Nat.eqb (length vals) (popcount mask) then Ok (scatter t mask vals)
    else
      match vals with
      | [v] => Ok (scatter t mask (replicate (popcount mask) v))
      | _ => Raise (RuntimeError "shape mismatch")
      end
  else Raise IndexError.

(** [a &= b]: the right-hand side has the shape of [a] or is broadcast
    from a single entry. *)
Definition iand (a b : list bool) : result (list bool) :=
  if Nat.eqb (length b) (length a) then Ok (zip_with andb a b)
  else
    match b with
    | [b0] => Ok ((fun v => v && b0) <$> a)
    | _ => Raise (RuntimeError "shape mismatch")
    end.

(** [a > b] on real-valued entries. *)
Definition Qgtb (a b : Q) : bool := negb (Qle_bool a b).

(** [2^k] for an integer [k]. *)
Definition pow2 (k : Z) : Q := (2 ^ k)%Q.

(** The integer [k] with [2^(k-1) <= x < 2^k], for [0 < x]. *)
Definition mag (x : Q) : Z :=
  let k0 := Z.log2 (Qnum x) - Z.log2 (Z.pos (Qden x)) in
  if Qle_bool (pow2 k0) x then k0 + 1 else k0.

(** Rounding to the nearest integer, a tie to the even one. *)
Definition round_half_even (x : Q) : Z :=
  let f := Qfloor x in
  match (x - inject_Z f ?= 1 # 2)%Q with
  | Lt => f
  | Gt => f + 1
  | Eq => if Z.even f then f else f + 1
  end.

(** The binary32 number nearest to [x]: 24 binary digits, the last of
    them of the weight [2^-149] at least.  A number beyond the largest
    binary32 number becomes infinite in the code; here it becomes a
    number that is larger than every binary32 number as well. *)
Definition round_float32_pos (x : Q) : Q :=
  let e := Z.max (mag x - 24) (-149) in
  (inject_Z (round_half_even (x / pow2 e)) * pow2 e)%Q.

Definition round_float32 (x : Q) : Q :=
  match (x ?= 0)%Q with
  | Eq => 0%Q
  | Gt => round_float32_pos x
  | Lt => (- round_float32_pos (- x))%Q
  end.

(** [t > s] for an entry [t] of a [float32] tensor and a Python float
    [s]: torch converts the scalar to the type of the tensor, so that the
    entry is compared with the binary32 number nearest to [s]. *)
Definition gt_scalar (t s : Q) : bool := Qgtb t (round_float32 s).

(** The default tolerances of [np.isclose]: the binary64 numbers nearest
    to [1e-05] and [1e-08]. *)
Definition rtol : Q := 5902958103587057 # 590295810358705651712.
Definition atol : Q := 3022314549036573 # 302231454903657293676544.

(** [np.isclose(a, b)] for two Python floats: [abs(a - b) <= atol + rtol *
    abs(b)], which binary64 evaluates without rounding when [b] is [0.0],
    as it is in these sources. *)
Definition isclose (a b : Q) : bool :=
  Qle_bool (Qabs (a - b)) (atol + rtol * Qabs b).

End Py.
Import Py.

(** ** The graph batch ([torch_geometric.data.Data]) *)

Record Data : Type := mkData {
  x : list (list Q);
  y : list Q;
  edge_index : list (Z * Z);
  edge_attr : list (list Q);
  pt : list Q;
  particle_id : list Z;
  reconstructable : list Z;
  sector : list Z
}.

(** A batch is well formed when the per-node tensors have one entry per
    node, the per-edge tensors one entry per edge, and every edge joins
    two nodes of the batch. *)
Record wf_data (d : Data) : Prop := {
  wf_pt : length (pt d) = length (x d);
  wf_particle_id : length (particle_id d) = length (x d);
  wf_reconstructable : length (reconstructable d) = length (x d);
  wf_sector : length (sector d) = length (x d);
  wf_y : length (y d) = length (edge_index d);
  wf_edge_attr : length (edge_attr d) = length (edge_index d);
  wf_edges : Forall (fun e => (0 <= e.1 < Z.of_nat (length (x d)))
                             ∧ (0 <= e.2 < Z.of_nat (length (x d)))) (edge_index d)
}.

(** ** [TrainingTruthCutConfig] *)

Record TrainingTruthCutConfig : Type := mkCuts {
  pt_thld : Q;
  without_noise : bool;
  without_non_reconstructable : bool
}.

Definition is_trivial (self : TrainingTruthCutConfig) : bool :=
  isclose (pt_thld self) 0
  && negb (without_noise self)
  && negb (without_non_reconstructable self).

Definition get_masks (self : TrainingTruthCutConfig) (data : Data)
  : result (list bool * list bool) :=
  let node_mask := replicate (length (x data)) true in
  node_mask ←
    (if Qgtb (pt_thld self) 0 then
       let noise_mask := (fun p => 0 <? p) <$> particle_id data in
       cur ← masked_select node_mask noise_mask;
       pts ← masked_select (pt data) noise_mask;
       upd ← iand cur ((fun p => gt_scalar p (pt_thld self)) <$> pts);
       masked_assign node_mask noise_mask upd
     else Ok node_mask);
  node_mask ←
    (if without_noise self
     then iand node_mask ((fun p => 0 <? p) <$> particle_id data)
     else Ok node_mask);
  node_mask ←
    (if without_non_reconstructable self
     then iand node_mask ((fun r => 0 <? r) <$> reconstructable data)
     else Ok node_mask);
  src ← index_select node_mask (fst <$> edge_index data);
  dst ← index_select node_mask (snd <$> edge_index data);
  Ok (node_mask, zip_with andb src dst).

(** ** [TCNTrainer] *)

(** A tensor computed by the network: its shape and its entries in
    row-major order. *)
Record tensor : Type := mkTensor { shape : list nat; entries : list Q }.

(** [t.squeeze()] drops the dimensions of size one. *)
Definition squeeze (t : tensor) : tensor :=
  mkTensor (filter (fun n => n ≠ 1%nat) (shape t)) (entries t).

(** The values of the dictionary that [evaluate_model] returns. *)
Inductive pyobj : Type :=
| PyNone
| Output (t : tensor)
| FloatTensor (l : list Q)
| LongTensor (l : list Z)
| Matrix (rows : list (list Q))
| IndexTensor (cols : list (Z * Z)).

(** Scalars: [float32] entries of a loss tensor and Python floats
    (binary64), both as [spec_float]. *)
Definition f32_add : spec_float → spec_float → spec_float := SFadd 24 128.
Definition f32_mul : spec_float → spec_float → spec_float := SFmul 24 128.
Definition f64_mul : spec_float → spec_float → spec_float := SFmul 53 1024.

(** A Python scalar entering an operation with a [float32] tensor is
    rounded to [float32]. *)
Definition to_float32 (f : spec_float) : spec_float :=
  match f with
  | S754_finite s m e => binary_round 24 128 s m e
  | _ => f
  end.

Definition isnan (f : spec_float) : bool :=
  match f with S754_nan => true | _ => false end.

(** What a loss function returns: a scalar tensor or a mapping of
    scalar tensors. *)
Inductive loss_value : Type :=
| Scalar (v : spec_float)
| Mapping (items : list (string * spec_float)).

(** A Python [dict] with string keys, in insertion order: assigning to a
    key that is present replaces its value in place. *)
Fixpoint dict_set {V} (k : string) (v : V) (d : list (string * V)) : list (string * V) :=
  match d with
  | [] => [(k, v)]
  | (k', v') :: d' => if decide (k = k') then (k, v) :: d' else (k', v') :: dict_set k v d'
  end.

Fixpoint dict_get {V} (k : string) (d : list (string * V)) : option V :=
  match d with
  | [] => None
  | (k', v') :: d' => if decide (k = k') then Some v' else dict_get k d'
  end.

(** [d[k].append(v)] on a [defaultdict(list)]. *)
Definition dict_append {V} (k : string) (v : V) (d : list (string * list V))
  : list (string * list V) :=
  dict_set k (default [] (dict_get k d) ++ [v]) d.

(** The calls that a training or evaluation step makes, in order. *)
Inductive event : Type :=
| EvGetMasks
| EvApplyMask
| EvForward (d : Data)
| EvBatchHooks (epoch : Z) (batch_idx : nat)
| EvOptimizerStep
| EvLossWeightStep
| EvTrainLossAppend (epoch : Z)
| EvTrainHooks.

(** An outcome together with the calls made on the way to it. *)
Record traced (A : Type) : Type := Traced { trace : list event; outcome : result A }.
Arguments Traced {A} trace outcome.
Arguments trace {A} t.
Arguments outcome {A} t.

#[export] Instance traced_ret : MRet traced := fun A a => Traced [] (Ok a).
#[export] Instance traced_bind : MBind traced := fun A B f m =>
  match outcome m with
  | Ok a => Traced (trace m ++ trace (f a)) (outcome (f a))
  | Raise e => Traced (trace m) (Raise e)
  end.

Definition emit (e : event) : traced unit := Traced [e] (Ok ()).
Definition lift {A} (r : result A) : traced A := Traced [] r.

Record TCNTrainer : Type := mkTrainer {
  (** [self.model], as a function of its current parameters *)
  model : list Q → Data → gmap string tensor;
  (** [self.loss_functions], in the order of the dictionary *)
  loss_functions : list (string * (gmap string pyobj → loss_value));
  (** [self._loss_weight_setter[k]], a Python float; the weight classes
      are not part of these sources *)
  loss_weight : string → spec_float;
  (** [zero_grad], [backward] and [optimizer.step] on one batch *)
  optimizer_step : list Q → Data → list Q;
  training_truth_cuts : TrainingTruthCutConfig;
  _epoch : Z
}.

(** [np.arange(n)] *)
Definition np_arange (n : nat) : list Z := Z.of_nat <$> seq 0 n.

(** [dict(items)]: a later item replaces an earlier one with its key. *)
Definition py_dict (items : list (Z * Z)) : gmap Z Z :=
  fold_left (fun m kv => <[kv.1 := kv.2]> m) items ∅.

(** [np.vectorize(m.get)(arr)] followed by [torch.from_numpy].  Without
    [otypes], [np.vectorize] refuses an input of size zero; a key that is
    missing yields [None], which is no entry of an integer tensor. *)
Fixpoint map_get (m : gmap Z Z) (arr : list Z) : result (list Z) :=
  match arr with
  | [] => Ok []
  | a :: arr' =>
      match m !! a with
      | Some v => r ← map_get m arr'; Ok (v :: r)
      | None => Raise TypeError
      end
  end.

Definition np_vectorize_get (m : gmap Z Z) (arr : list Z) : result (list Z) :=
  match arr with
  | [] => Raise ValueError
  | _ => map_get m arr
  end.

(** [np.arange(n)[node_mask]] for the torch tensor [node_mask]: numpy
    takes a tensor with a single entry for an integer index, [True] for
    the index 1 and [False] for the index 0, and a tensor of any other
    length for a boolean mask. *)
Inductive indexed : Type :=
| IndexedScalar (v : Z)
| IndexedArray (l : list Z).

Definition np_getitem_tensor (a : list Z) (node_mask : list bool) : result indexed :=
  match node_mask with
  | [b] => v ← tensor_get a (if b then 1 else 0); Ok (IndexedScalar v)
  | _ => l ← masked_select a node_mask; Ok (IndexedArray l)
  end.

Definition _apply_mask (data : Data) (node_mask edge_mask : list bool) : result Data :=
  old_edge_indices ← np_getitem_tensor (np_arange (length node_mask)) node_mask;
  let new_edge_indices := np_arange (popcount node_mask) in
  match old_edge_indices with
  | IndexedScalar _ => Raise AssertionError
  | IndexedArray old_edge_indices =>
  if negb (Nat.eqb (length old_edge_indices) (length new_edge_indices))
  then Raise AssertionError
  else
    let edge_index_mapping := np_vectorize_get (py_dict (zip old_edge_indices new_edge_indices)) in
    src ← masked_select (fst <$> edge_index data) edge_mask;
    src ← edge_index_mapping src;
    dst ← masked_select (snd <$> edge_index data) edge_mask;
    dst ← edge_index_mapping dst;
    x' ← masked_select (x data) node_mask;
    y' ← masked_select (y data) edge_mask;
    edge_attr' ← masked_select (edge_attr data) edge_mask;
    pt' ← masked_select (pt data) node_mask;
    particle_id' ← masked_select (particle_id data) node_mask;
    reconstructable' ← masked_select (reconstructable data) node_mask;
    sector' ← masked_select (sector data) node_mask;
    Ok (mkData x' y' (zip src dst) edge_attr' pt' particle_id' reconstructable' sector')
  end.

(** The [int64] number that is congruent to [z]: the arithmetic of torch
    on integer tensors wraps around. *)
Definition wrap_int64 (z : Z) : Z := (z + 2 ^ 63) mod 2 ^ 64 - 2 ^ 63.

Definition mul_int64 (a b : Z) : Z := wrap_int64 (a * b).

(** [a * b] on [int64] tensors, with broadcasting from a single entry. *)
Definition mul_long (a b : list Z) : result (list Z) :=
  if Nat.eqb (length a) (length b) then Ok (zip_with mul_int64 a b)
  else
    match a, b with
    | [a0], _ => Ok (mul_int64 a0 <$> b)
    | _, [b0] => Ok ((fun v => mul_int64 v b0) <$> a)
    | _, _ => Raise (RuntimeError "shape mismatch")
    end.

Definition of_option (o : option pyobj) : pyobj := default PyNone o.

Definition squeeze_if_defined (out : gmap string tensor) (key : string) : pyobj :=
  of_option (Output ∘ squeeze <$> out !! key).

Definition get_if_defined (out : gmap string tensor) (key : string) : pyobj :=
  of_option (Output <$> out !! key).

Definition evaluate_model (self : TCNTrainer) (θ : list Q) (data : Data)
    (mask_pids_reco apply_truth_cuts : bool) : traced (gmap string pyobj) :=
  data ←
    (if apply_truth_cuts then
       _ ← emit EvGetMasks;
       masks ← lift (get_masks (training_truth_cuts self) data);
       _ ← emit EvApplyMask;
       lift (_apply_mask data masks.1 masks.2)
     else mret data);
  _ ← emit (EvForward data);
  let out := model self θ data in
  pid_field ←
    lift (if mask_pids_reco
          then mul_long (particle_id data) (reconstructable data)
          else Ok (particle_id data));
  mret (<["w" := squeeze_if_defined out "W"]>
       (<["x" := get_if_defined out "H"]>
       (<["beta" := squeeze_if_defined out "B"]>
       (<["y" := FloatTensor (y data)]>
       (<["particle_id" := LongTensor pid_field]>
       (<["track_params" := FloatTensor (pt data)]>
       (<["pt" := FloatTensor (pt data)]>
       (<["reconstructable" := LongTensor (reconstructable data)]>
       (<["pred" := get_if_defined out "P"]>
       (<["edge_index" := IndexTensor (edge_index data)]>
       (<["sector" := LongTensor (sector data)]>
       (<["node_features" := Matrix (x data)]> ∅)))))))))))).

(** One pass of the loop over [self.loss_functions]. *)
Definition store_loss (key : string) (loss : loss_value)
    (individual_losses : list (string * spec_float)) : list (string * spec_float) :=
  match loss with
  | Mapping items =>
      fold_left (fun d kv => dict_set (key +:+ "_" +:+ kv.1) kv.2 d) items individual_losses
  | Scalar v => dict_set key v individual_losses
  end.

(** The accumulator of Python's [sum]: it starts from the integer [0]
    and is a tensor from the first addition on. *)
Inductive pynum : Type :=
| PyInt (z : Z)
| Float32 (f : spec_float).

Definition py_add (acc : pynum) (t : spec_float) : pynum :=
  match acc with
  | PyInt z => Float32 (f32_add (binary_normalize 24 128 z 0 false) t)
  | Float32 a => Float32 (f32_add a t)
  end.

Definition py_sum (terms : list spec_float) : pynum := fold_left py_add terms (PyInt 0).

Definition get_batch_losses (self : TCNTrainer) (model_output : gmap string pyobj)
  : result (spec_float * list (string * spec_float)) :=
  let individual_losses :=
    fold_left (fun d kf => store_loss kf.1 (kf.2 model_output) d) (loss_functions self) [] in
  let total :=
    py_sum ((fun kv => f32_mul (to_float32 (loss_weight self kv.1)) kv.2)
              <$> individual_losses) in
  match total with
  | PyInt _ => Raise TypeError
  | Float32 t =>
      if isnan t then Raise (RuntimeError "NaN loss encountered in test step")
      else Ok (t, individual_losses)
  end.

(** The mutable state of [train_step]: the parameters of the network
    and the table [_losses]. *)
Record train_state : Type := mkTrainState {
  params : list Q;
  _losses : list (string * list spec_float)
}.

(** [max_batches and batch_idx > max_batches] *)
Definition past_max_batches (max_batches : option Z) (batch_idx : nat) : bool :=
  match max_batches with
  | None => false
  | Some n => negb (n =? 0) && (n <? Z.of_nat batch_idx)
  end.

Definition record_losses (self : TCNTrainer) (batch_loss : spec_float)
    (batch_losses : list (string * spec_float)) (_losses : list (string * list spec_float))
  : list (string * list spec_float) :=
  fold_left
    (fun d kv =>
       dict_append (kv.1 +:+ "_weighted") (f64_mul kv.2 (loss_weight self kv.1))
         (dict_append kv.1 kv.2 d))
    batch_losses (dict_append "total" batch_loss _losses).

(** The loop of [train_step] over the batches of the training loader. *)
Fixpoint train_loop (self : TCNTrainer) (max_batches : option Z) (batch_idx : nat)
    (loader : list Data) (st : train_state) : traced train_state :=
  match loader with
  | [] => mret st
  | data :: loader' =>
      if past_max_batches max_batches batch_idx then mret st
      else
        model_output ← evaluate_model self (params st) data true true;
        _ ← emit (EvBatchHooks (_epoch self) batch_idx);
        losses ← lift (get_batch_losses self model_output);
        _ ← emit EvOptimizerStep;
        train_loop self max_batches (S batch_idx) loader'
          (mkTrainState (optimizer_step self (params st) data)
             (record_losses self losses.1 losses.2 (_losses st)))
  end.

(** [train_step]: the loop, then the step of the loss weights, the new
    row of [train_loss] and the train hooks.  The dictionary of the means
    (one [np.nanmean] for each key of the table [_losses]) that the code
    hands to them and returns is stood for by the table it is computed
    from.  The loss weight setter and the hooks are given to the trainer
    from outside; their calls are events of the trace and are taken to
    return. *)
Definition train_step (self : TCNTrainer) (max_batches : option Z)
    (train_loader : list Data) (θ : list Q) : traced train_state :=
  st ← train_loop self max_batches 0 train_loader (mkTrainState θ []);
  _ ← emit EvLossWeightStep;
  _ ← emit (EvTrainLossAppend (_epoch self));
  _ ← emit EvTrainHooks;
  mret st.

(** ** [ClusterHyperParamScanner] *)

(** An integer [np.ndarray]: its shape and its entries in row-major
    order. *)
Record ndarray : Type := mkArray { dims : list nat; flat : list Z }.

(** A one-dimensional array. *)
Definition array1 (l : list Z) : ndarray := mkArray [length l] l.

(** [len(a)]: the first dimension; an array without dimensions has no
    length. *)
Definition np_len (a : ndarray) : result nat :=
  match dims a with
  | [] => Raise TypeError
  | n :: _ => Ok n
  end.

(** The largest number of dimensions of an array ([NPY_MAXDIMS]). *)
Definition NPY_MAXDIMS : nat := 32.

(** [np.ones(shape, dtype=int)] for a sequence [shape] of integers: an
    array with these dimensions, filled with ones. *)
Definition np_ones (shape : list Z) : result ndarray :=
  if negb (forallb (fun n => 0 <=? n) shape) then Raise ValueError
  else if (NPY_MAXDIMS <? length shape)%nat then Raise ValueError
  else
    let dims := Z.to_nat <$> shape in
    Ok (mkArray dims (replicate (foldr Nat.mul 1%nat dims) 1)).

(** [np.unique(a).tolist()]: the sorted distinct entries. *)
Fixpoint insert_unique (v : Z) (l : list Z) : list Z :=
  match l with
  | [] => [v]
  | h :: l' =>
      if v <? h then v :: l
      else if v =? h then l
      else h :: insert_unique v l'
  end.

Definition np_unique (a : ndarray) : list Z := foldr insert_unique [] (flat a).

(** [l.remove(v)] inside [try ... except ValueError: pass]: the first
    occurrence of [v] goes, a list without [v] stays as it is. *)
Fixpoint remove_if_present (v : Z) (l : list Z) : list Z :=
  match l with
  | [] => []
  | h :: l' => if v =? h then l' else h :: remove_if_present v l'
  end.

(** The global generator of [np.random]: the numbers it is going to
    draw, and how many of them have been drawn. *)
Record RandomState : Type := mkRandom { draws : nat → nat; cursor : nat }.

(** [np.random.choice(l).item()] *)
Definition np_random_choice (l : list Z) (rng : RandomState) : result (Z * RandomState) :=
  match l !! (draws rng (cursor rng) mod length l)%nat with
  | Some v => Ok (v, mkRandom (draws rng) (S (cursor rng)))
  | None => Raise ValueError
  end.

(** What a metric returns. *)
Inductive metric_value : Type :=
| MetricFloat (v : Q)
| MetricDict (items : list (string * Q)).

Record ClusterHyperParamScanner : Type := mkScanner {
  graphs : list (list (list Q));
  truth : list (list Z);
  metrics : list (string * (list Z → list Z → metric_value));
  sectors : list ndarray;
  _cheap_metric : string;
  _expensive_metric : string;
  _graph_to_sector : gmap Z Z;
  pruning_grace_period : nat
}.

(** ["." in k] *)
Fixpoint contains_dot (k : string) : bool :=
  match k with
  | EmptyString => false
  | String c k' => if Ascii.eqb c "."%char then true else contains_dot k'
  end.

Fixpoint lens (arrays : list ndarray) : result (list nat) :=
  match arrays with
  | [] => Ok []
  | a :: arrays' => n ← np_len a; r ← lens arrays'; Ok (n :: r)
  end.

Fixpoint ones_like_each (truth : list (list Z)) : result (list ndarray) :=
  match truth with
  | [] => Ok []
  | t :: truth' => a ← np_ones t; r ← ones_like_each truth'; Ok (a :: r)
  end.

(** [ClusterHyperParamScanner.__init__]; [sectors] is [None] or a list
    of arrays. *)
Definition __init__ (graphs : list (list (list Q))) (truth : list (list Z))
    (guide : string) (metrics : list (string * (list Z → list Z → metric_value)))
    (sectors : option (list ndarray)) (guide_proxy : string)
  : result ClusterHyperParamScanner :=
  if negb (bool_decide (length <$> graphs = length <$> truth)) then Raise AssertionError
  else if negb (0 <? length graphs)%nat then Raise AssertionError
  else if existsb (fun m => contains_dot m.1) metrics then Raise ValueError
  else
    sectors ←
      match sectors with
      | None => ones_like_each truth
      | Some sectors =>
          ls ← lens sectors;
          if negb (bool_decide (ls = length <$> truth)) then Raise AssertionError
          else Ok sectors
      end;
    Ok (mkScanner graphs truth metrics sectors guide_proxy guide ∅ 20).

(** [l[i]] on a Python list. *)
Definition list_get {A} (l : list A) (i : Z) : result A := tensor_get l i.

(** [_get_sector_to_study]: the sector, the scanner with its cache, and
    the generator after the call. *)
Definition _get_sector_to_study (self : ClusterHyperParamScanner) (rng : RandomState)
    (i_graph : Z) : result (Z * ClusterHyperParamScanner * RandomState) :=
  match _graph_to_sector self !! i_graph with
  | Some s => Ok (s, self, rng)
  | None =>
      a ← list_get (sectors self) i_graph;
      let available := remove_if_present (-1) (np_unique a) in
      choice ← np_random_choice available rng;
      Ok (choice.1,
          mkScanner (graphs self) (truth self) (metrics self) (sectors self)
            (_cheap_metric self) (_expensive_metric self)
            (<[i_graph := choice.1]> (_graph_to_sector self)) (pruning_grace_period self),
          choice.2)
  end.

(** ** Vocabulary of the statements *)

(** Whether a node with the given particle id, momentum and
    reconstructability flag passes each of the three cuts. *)
Definition passes_pt_cut (self : TrainingTruthCutConfig) (pid : Z) (p : Q) : bool :=
  if Qgtb (pt_thld self) 0 then (if 0 <? pid then gt_scalar p (pt_thld self) else true)
  else true.

Definition passes_noise_cut (self : TrainingTruthCutConfig) (pid : Z) : bool :=
  if without_noise self then 0 <? pid else true.

Definition passes_reconstructable_cut (self : TrainingTruthCutConfig) (r : Z) : bool :=
  if without_non_reconstructable self then 0 <? r else true.

(** The new index of node [i]: the number of surviving nodes before it. *)
Definition rank (node_mask : list bool) (i : nat) : nat := popcount (take i node_mask).

(** The dictionary behind [edge_index_mapping] in [_apply_mask]. *)
Definition edge_index_mapping (node_mask : list bool) : gmap Z Z :=
  py_dict (zip (select (np_arange (length node_mask)) node_mask)
               (np_arange (popcount node_mask))).

(** The dictionary built from the surviving old indices, starting from
    offsets [a] (old) and [b] (new) on top of a dictionary [m0]. *)
Definition mapping_from (nm : list bool) (a b : nat) (m0 : gmap Z Z) : gmap Z Z :=
  fold_left (fun m kv => <[kv.1 := kv.2]> m)
    (zip (select (Z.of_nat <$> seq a (length nm)) nm) (Z.of_nat <$> seq b (popcount nm))) m0.

(** The batch indices with which the batch hooks were called. *)
Fixpoint hooked (tr : list event) : list nat :=
  match tr with
  | [] => []
  | EvBatchHooks _ batch_idx :: tr' => batch_idx :: hooked tr'
  | _ :: tr' => hooked tr'
  end.

(** How many of [len] batches, counted from index [batch_idx], the loop
    of [train_step] reaches before it breaks. *)
Fixpoint within (max_batches : option Z) (batch_idx len : nat) : nat :=
  match len with
  | O => O
  | S len' =>
      if past_max_batches max_batches batch_idx then O
      else S (within max_batches (S batch_idx) len')
  end.

(** Whether the body of the training loop runs through on a batch, for
    parameters [θ] of the network. *)
Definition batch_ok (self : TCNTrainer) (θ : list Q) (data : Data) : bool :=
  match outcome (evaluate_model self θ data true true) with
  | Ok model_output => is_ok (get_batch_losses self model_output)
  | Raise _ => false
  end.

(** The weighted sum of the entries of a loss record, from left to
    right. *)
Definition weighted_terms (self : TCNTrainer) (individual_losses : list (string * spec_float))
  : list spec_float :=
  (fun kv => f32_mul (to_float32 (loss_weight self kv.1)) kv.2) <$> individual_losses.

(** The loss record that [get_batch_losses] builds. *)
Definition individual_losses_of (self : TCNTrainer) (model_output : gmap string pyobj)
  : list (string * spec_float) :=
  fold_left (fun d kf => store_loss kf.1 (kf.2 model_output) d) (loss_functions self) [].

(** The keys that [store_loss] writes for one loss function. *)
Definition keys_written (key : string) (loss : loss_value) : list string :=
  match loss with
  | Mapping items => (fun kv => key +:+ "_" +:+ kv.1) <$> items
  | Scalar _ => [key]
  end.

(** The entries that [store_loss] writes for one loss function. *)
Definition entries_written (key : string) (loss : loss_value) : list (string * spec_float) :=
  match loss with
  | Mapping items => (fun kv => (key +:+ "_" +:+ kv.1, kv.2)) <$> items
  | Scalar v => [(key, v)]
  end.

Definition f32_zero : spec_float := S754_zero false.

(** The weighted total of a loss record that is not empty. *)
Definition weighted_total (self : TCNTrainer) (individual_losses : list (string * spec_float))
  : spec_float :=
  fold_left f32_add (weighted_terms self individual_losses) f32_zero.

Definition pynum_isnan (t : pynum) : bool :=
  match t with
  | Float32 f => isnan f
  | PyInt _ => false
  end.

(** [later self self']: the scanner [self'] comes from [self] by calls
    of [_get_sector_to_study], for any graphs and any state of the random
    generator (nothing else writes the cache or the sectors). *)
Inductive later : ClusterHyperParamScanner → ClusterHyperParamScanner → Prop :=
| later_refl self : later self self
| later_call self rng i_graph s self' rng' self'' :
    _get_sector_to_study self rng i_graph = Ok (s, self', rng') →
    later self' self'' →
    later self self''.

(** No sector in the cache is the background sector. *)
Definition cache_ok (self : ClusterHyperParamScanner) : Prop :=
  ∀ i s, _graph_to_sector self !! i = Some s → s ≠ -1.

(** ** Concrete inputs *)

(** Three hits: a particle above the threshold, one below it, and a
    noise hit; three edges. *)
Definition batch0 : Data :=
  mkData [[0%Q]; [1%Q]; [2%Q]] [1%Q; 0%Q; 0%Q] [(0, 1); (1, 2); (0, 2)]
    [[0%Q]; [0%Q]; [0%Q]] [2%Q; (1 # 2)%Q; 0%Q] [7; 8; 0] [1; 1; 0] [0; 0; -1].

Definition cuts0 : TrainingTruthCutConfig := mkCuts (9 # 10)%Q false false.

Definition no_cuts : TrainingTruthCutConfig := mkCuts 0%Q false false.

(** [batch0] after the cuts [cuts0]: the hits 0 and 2 survive as 0 and
    1, and the edge between them is the only one left. *)
Definition masked_batch0 : Data :=
  mkData [[0%Q]; [2%Q]] [0%Q] [(0, 1)] [[0%Q]] [2%Q; 0%Q] [7; 0] [1; 0] [0; -1].

(** The scalars [1.0] and [0.5], as [float32] and as Python floats. *)
Definition f32_one : spec_float := S754_finite false 8388608 (-23).
Definition f32_half : spec_float := S754_finite false 8388608 (-24).
Definition f64_one : spec_float := S754_finite false 4503599627370496 (-52).

(** A trainer without truth cuts whose network computes only the edge
    weights, with a scalar loss and a loss made of two parts. *)
Definition trainer0 : TCNTrainer :=
  mkTrainer
    (fun _ data => {[ "W" := mkTensor [length (edge_index data); 1%nat]
                                (replicate (length (edge_index data)) (1 # 2)%Q) ]})
    [("edge", fun _ => Scalar f32_half);
     ("potential", fun _ => Mapping [("attractive", f32_one); ("repulsive", f32_half)])]
    (fun _ => f64_one)
    (fun θ _ => θ)
    no_cuts
    1.

(** The same trainer with the cuts [cuts0]. *)
Definition trainer1 : TCNTrainer :=
  mkTrainer (model trainer0) (loss_functions trainer0) (loss_weight trainer0)
    (optimizer_step trainer0) cuts0 1.

(** A trainer without loss functions. *)
Definition trainer_no_loss : TCNTrainer :=
  mkTrainer (model trainer0) [] (loss_weight trainer0) (optimizer_step trainer0) no_cuts 1.

Definition loader0 : list Data := [batch0; batch0; batch0; batch0].

(** A trainer of which the second loss function returns not-a-number. *)
Definition trainer_nan : TCNTrainer :=
  mkTrainer (model trainer0)
    [("edge", fun _ => Scalar f32_half); ("potential", fun _ => Scalar S754_nan)]
    (loss_weight trainer0) (optimizer_step trainer0) no_cuts 1.

(** A graph with three hits of the particles 1, 2 and 2, and one with a
    noise hit and two hits of the particle 5. *)
Definition graph0 : list (list Q) := [[0%Q; 0%Q]; [1%Q; 0%Q]; [1%Q; 1%Q]].
Definition truth0 : list Z := [1; 2; 2].
Definition truth1 : list Z := [0; 5; 5].

(** A scanner over two graphs with the sectors given, and a generator. *)
Definition scanner0 : ClusterHyperParamScanner :=
  mkScanner [graph0; graph0] [truth0; truth1] []
    [array1 [2; -1; 2]; array1 [-1; 4; 3]] "" "v_measure" ∅ 20.

Definition random0 : RandomState := mkRandom (fun n => (3 * n + 1)%nat) 0.

(** [scanner0] after the call for the graph 1 and then for the graph 0. *)
Definition scanner0_1 : ClusterHyperParamScanner :=
  mkScanner [graph0; graph0] [truth0; truth1] []
    [array1 [2; -1; 2]; array1 [-1; 4; 3]] "" "v_measure" {[ 1 := 4 ]} 20.

Definition scanner0_2 : ClusterHyperParamScanner :=
  mkScanner [graph0; graph0] [truth0; truth1] []
    [array1 [2; -1; 2]; array1 [-1; 4; 3]] "" "v_measure" (<[ 0 := 2 ]> {[ 1 := 4 ]}) 20.

(** A trainer of which the first loss function returns not-a-number
    under the key that the second one writes as well. *)
Definition trainer_collide : TCNTrainer :=
  mkTrainer (model trainer0)
    [("a_b", fun _ => Scalar S754_nan); ("a", fun _ => Mapping [("b", f32_half)])]
    (loss_weight trainer0) (optimizer_step trainer0) no_cuts 1.

(** ** Further methods of [TCNTrainer] *)

(** [_edge_pt_mask]: the edges of which an end point has a momentum
    above [pt_min]. *)
Definition _edge_pt_mask (edge_index : list (Z * Z)) (pt : list Q) (pt_min : Q)
  : result (list bool) :=
  pt_a ← index_select pt (fst <$> edge_index);
  pt_b ← index_select pt (snd <$> edge_index);
  Ok (zip_with orb ((fun p => gt_scalar p pt_min) <$> pt_a)
        ((fun p => gt_scalar p pt_min) <$> pt_b)).

(** ** Further methods of [ClusterHyperParamScanner] *)

(** [s.split(".")]: the pieces of [s] between its dots. *)
Fixpoint split_dot (s : string) : list string :=
  match s with
  | EmptyString => [EmptyString]
  | String c s' =>
      if Ascii.eqb c "."%char then EmptyString :: split_dot s'
      else
        match split_dot s' with
        | piece :: pieces => String c piece :: pieces
        | [] => [String c EmptyString]
        end
  end.

(** [r[subkey]] for the result [r] of a metric: a mapping is looked up,
    a float cannot be subscripted ([TypeError] for a Python float). *)
Definition metric_getitem (r : metric_value) (subkey : string) : result metric_value :=
  match r with
  | MetricDict items =>
      match dict_get subkey items with
      | Some v => Ok (MetricFloat v)
      | None => Raise KeyError
      end
  | MetricFloat _ => Raise TypeError
  end.

(** [_get_explicit_metric]: [metric, subkey = name.split(".")] needs
    exactly two pieces. *)
Definition _get_explicit_metric (self : ClusterHyperParamScanner) (name : string)
    (predicted truth : list Z) : result metric_value :=
  if contains_dot name then
    match split_dot name with
    | [metric; subkey] =>
        match dict_get metric (metrics self) with
        | Some f => metric_getitem (f truth predicted) subkey
        | None => Raise KeyError
        end
    | _ => Raise ValueError
    end
  else
    match dict_get name (metrics self) with
    | Some f => Ok (f truth predicted)
    | None => Raise KeyError
    end.

(** The keyword arguments of the clustering algorithm. *)
Definition cluster_params : Type := list (string * Q).

(** What [__evaluate] uses of the [optuna.Study]: the parameters of its
    best trial, if a trial has completed. *)
Record Study : Type := mkStudy { best_trial_params : option cluster_params }.

(** [study.best_params] *)
Definition best_params (study : Study) : result cluster_params :=
  match best_trial_params study with
  | Some p => Ok p
  | None => Raise ValueError
  end.

(** [graph[sector_mask]] and then [truth[sector_mask]] for
    [sector_mask = sectors == sector].  A one-dimensional mask selects
    rows of the graph and entries of the truth, and must have their
    length.  A mask with more dimensions is refused by the graph, or, if it
    has the two dimensions of the graph, by the truth.  A mask without
    dimensions adds an axis to the graph and the truth instead; an array
    with three dimensions is no graph as modelled here, and such a call is
    not covered ([None]). *)
Definition take_sector (graph : list (list Q)) (truth : list Z) (sectors : ndarray)
    (sector : Z) : option (result (list (list Q) * list Z)) :=
  let sector_mask := (fun s => s =? sector) <$> flat sectors in
  match dims sectors with
  | [] => None
  | [m] =>
      if negb (m =? length graph)%nat then Some (Raise IndexError)
      else if negb (m =? length truth)%nat then Some (Raise IndexError)
      else Some (Ok (select graph sector_mask, select truth sector_mask))
  | _ => Some (Raise IndexError)
  end.

(** The body of the loop over the metrics: a float is appended under the
    name of the metric, the entries of a mapping under [name.k]. *)
Definition record_metric (sector_truth labels : list Z)
    (metric_values : list (string * list Q))
    (m : string * (list Z → list Z → metric_value)) : list (string * list Q) :=
  match m.2 sector_truth labels with
  | MetricFloat r => dict_append m.1 r metric_values
  | MetricDict items =>
      fold_left (fun mv kv => dict_append (m.1 +:+ "." +:+ kv.1) kv.2 mv) items metric_values
  end.

(** The loop over the sectors of one graph. *)
Fixpoint evaluate_sectors (algorithm : list (list Q) → list Z)
    (metrics : list (string * (list Z → list Z → metric_value)))
    (graph : list (list Q)) (truth : list Z) (sectors : ndarray)
    (available_sectors : list Z) (metric_values : list (string * list Q))
  : option (result (list (string * list Q))) :=
  match available_sectors with
  | [] => Some (Ok metric_values)
  | sector :: available_sectors' =>
      match take_sector graph truth sectors sector with
      | Some (Ok (sector_graph, sector_truth)) =>
          let labels := algorithm sector_graph in
          evaluate_sectors algorithm metrics graph truth sectors available_sectors'
            (fold_left (record_metric sector_truth labels) metrics metric_values)
      | Some (Raise e) => Some (Raise e)
      | None => None
      end
  end.

(** The loop over [zip(self.graphs, self.truth, self.sectors)]. *)
Fixpoint evaluate_graphs (algorithm : list (list Q) → list Z)
    (metrics : list (string * (list Z → list Z → metric_value)))
    (zipped : list (list (list Q) * list Z * ndarray))
    (metric_values : list (string * list Q))
  : option (result (list (string * list Q))) :=
  match zipped with
  | [] => Some (Ok metric_values)
  | (graph, truth, sectors) :: zipped' =>
      let available_sectors := remove_if_present (-1) (np_unique sectors) in
      match evaluate_sectors algorithm metrics graph truth sectors available_sectors
              metric_values with
      | Some (Ok metric_values') => evaluate_graphs algorithm metrics zipped' metric_values'
      | other => other
      end
  end.

(** [np.nanmean(v).item()] on values that are rationals: none of them is
    not-a-number, and the mean is the exact one, where numpy rounds the
    sum and the quotient to binary64. *)
Definition np_nanmean (v : list Q) : Q :=
  (fold_right Qplus 0 v / inject_Z (Z.of_nat (length v)))%Q.

Definition zip3 (self : ClusterHyperParamScanner)
  : list (list (list Q) * list Z * ndarray) :=
  zip (zip (graphs self) (truth self)) (sectors self).

(** [__evaluate]; the clustering algorithm and the study are attributes
    of the scanner in the source. *)
Definition __evaluate (self : ClusterHyperParamScanner)
    (algorithm : cluster_params → list (list Q) → list Z) (_study : option Study)
  : option (result (list (string * Q))) :=
  match _study with
  | None => Some (Raise AssertionError)
  | Some study =>
      match best_params study with
      | Raise e => Some (Raise e)
      | Ok params =>
          match evaluate_graphs (algorithm params) (metrics self) (zip3 self) [] with
          | Some (Ok metric_values) =>
              Some (Ok ((fun kv => (kv.1, np_nanmean kv.2))
                          <$> List.filter (fun kv => negb (Nat.eqb (length kv.2) 0))
                                metric_values))
          | Some (Raise e) => Some (Raise e)
          | None => None
          end
      end
  end.

(** ** Further vocabulary *)

(** The tensors of the nodes have one entry per node. *)
Definition nodes_consistent (d : Data) : Prop :=
  length (pt d) = length (x d)
  ∧ length (particle_id d) = length (x d)
  ∧ length (reconstructable d) = length (x d).

(** Both end points of an edge are indices that a tensor with [n]
    entries accepts. *)
Definition edge_in_bounds (n : nat) (e : Z * Z) : Prop :=
  (- Z.of_nat n <= e.1 < Z.of_nat n) ∧ (- Z.of_nat n <= e.2 < Z.of_nat n).

(** How often an event occurs in a trace. *)
Fixpoint count_event (p : event → bool) (tr : list event) : nat :=
  match tr with
  | [] => 0
  | e :: tr' => ((if p e then 1 else 0) + count_event p tr')%nat
  end.

Definition is_forward (e : event) : bool :=
  match e with EvForward _ => true | _ => false end.

Definition is_optimizer_step (e : event) : bool :=
  match e with EvOptimizerStep => true | _ => false end.

(** The node with the index [key] is kept by the node mask. *)
Definition survives (node_mask : list bool) (key : Z) : Prop :=
  ∃ i : nat, key = Z.of_nat i ∧ node_mask !! i = Some true.

(** The sector array is one-dimensional with an entry for each hit of the
    graph and of the truth. *)
Definition sectors_fit (b : list (list Q) * list Z * ndarray) : Prop :=
  dims b.2 = [length b.1.1] ∧ length (flat b.2) = length b.1.1
  ∧ length b.1.2 = length b.1.1.

(** The pairs of truth and predicted labels that the metrics are
    evaluated on: one for each graph and each of its sectors other than
    the background sector [-1]. *)
Definition sector_samples (algorithm : list (list Q) → list Z)
    (zipped : list (list (list Q) * list Z * ndarray)) : list (list Z * list Z) :=
  b ← zipped;
  sector ← remove_if_present (-1) (np_unique b.2);
  let sector_mask := (fun s => s =? sector) <$> flat b.2 in
  [(select b.1.2 sector_mask, algorithm (select b.1.1 sector_mask))].

(** Two arrays with an entry per hit agree on the hits outside of the
    background sector. *)
Definition agree_outside_background {A} (sectors : ndarray) (t1 t2 : list A) : Prop :=
  length t1 = length t2
  ∧ ∀ (j : nat) (s : Z), flat sectors !! j = Some s → s ≠ -1 → t1 !! j = t2 !! j.

(** Two scanners with the same metrics and sectors, whose graphs and
    truth labels differ at most on hits of the background sector. *)
Definition same_outside_background (self1 self2 : ClusterHyperParamScanner) : Prop :=
  metrics self1 = metrics self2
  ∧ Forall2 (fun b1 b2 =>
               b1.2 = b2.2
               ∧ agree_outside_background b1.2 b1.1.1 b2.1.1
               ∧ agree_outside_background b1.2 b1.1.2 b2.1.2)
      (zip3 self1) (zip3 self2).

(** [key] is the name of the metric or [name.k] for some [k]. *)
Definition key_of_metric (key name : string) : Prop :=
  key = name ∨ ∃ k : string, key = name +:+ "." +:+ k.

(** What one pair of truth and predicted labels adds to the values of
    the metrics. *)
Definition record_sample (metrics : list (string * (list Z → list Z → metric_value)))
    (metric_values : list (string * list Q)) (sample : list Z * list Z)
  : list (string * list Q) :=
  fold_left (record_metric sample.1 sample.2) metrics metric_values.

(** The value of a metric that returns a float. *)
Definition float_value (f : list Z → list Z → metric_value) (sample : list Z * list Z) : Q :=
  match f sample.1 sample.2 with
  | MetricFloat v => v
  | MetricDict _ => 0
  end.

Definition float_valued (f : list Z → list Z → metric_value) : Prop :=
  ∀ t l, ∃ v, f t l = MetricFloat v.

(** The second configuration cuts at least as hard as the first one. *)
Definition stricter (c1 c2 : TrainingTruthCutConfig) : Prop :=
  (pt_thld c1 <= pt_thld c2)%Q
  ∧ (without_noise c1 = true → without_noise c2 = true)
  ∧ (without_non_reconstructable c1 = true → without_non_reconstructable c2 = true).

(** [data'] is what the truth cuts of the trainer make of [data]. *)
Definition cut_of (self : TCNTrainer) (data data' : Data) : Prop :=
  ∃ nm em,
    get_masks (training_truth_cuts self) data = Ok (nm, em)
    ∧ _apply_mask data nm em = Ok data'.

(** The calls of the body of the training loop that runs through on the
    batch with the index [batch_idx], of which the cuts leave [data'];
    the calls of a run of the loop through several batches; and the calls
    that follow the loop. *)
Definition body_events (self : TCNTrainer) (batch_idx : nat) (data' : Data) : list event :=
  [EvGetMasks; EvApplyMask; EvForward data'; EvBatchHooks (_epoch self) batch_idx;
   EvOptimizerStep].

Fixpoint loop_events (self : TCNTrainer) (batch_idx : nat) (cut_batches : list Data)
  : list event :=
  match cut_batches with
  | [] => []
  | data' :: rest => body_events self batch_idx data' ++ loop_events self (S batch_idx) rest
  end.

Definition after_loop_events (self : TCNTrainer) : list event :=
  [EvLossWeightStep; EvTrainLossAppend (_epoch self); EvTrainHooks].


(** ** More concrete inputs *)

(** One hit of a particle at rest, without edges. *)
Definition batch_at_rest : Data := mkData [[0%Q]] [] [] [] [0%Q] [3] [1] [0].

(** A threshold within the tolerance of [np.isclose]. *)
Definition tiny_cuts : TrainingTruthCutConfig := mkCuts (1 # 1000000000)%Q false false.

(** [batch0] with the last edge running to the node [-1], which is the
    node 2, and with an edge that leaves the batch. *)
Definition batch_wrapped : Data :=
  mkData (x batch0) (y batch0) [(0, 1); (1, 2); (0, -1)] (edge_attr batch0) (pt batch0)
    (particle_id batch0) (reconstructable batch0) (sector batch0).

Definition batch_dangling : Data :=
  mkData (x batch0) (y batch0) [(0, 1); (1, 2); (0, 3)] (edge_attr batch0) (pt batch0)
    (particle_id batch0) (reconstructable batch0) (sector batch0).

(** All three cuts at once. *)
Definition all_cuts : TrainingTruthCutConfig := mkCuts (9 # 10)%Q true true.

(** An edge mask that keeps none of three edges. *)
Definition no_edge_mask : list bool := [false; false; false].

(** [batch0] with the second particle not reconstructable. *)
Definition batch_nonreco : Data :=
  mkData (x batch0) (y batch0) (edge_index batch0) (edge_attr batch0) (pt batch0)
    (particle_id batch0) [1; 0; 0] (sector batch0).

(** A trainer whose optimizer notes the number of edges of each batch
    it is stepped on. *)
Definition trainer_log : TCNTrainer :=
  mkTrainer (model trainer0) (loss_functions trainer0) (loss_weight trainer0)
    (fun θ data => inject_Z (Z.of_nat (length (edge_index data))) :: θ) no_cuts 1.

Definition loader1 : list Data := [batch0; masked_batch0; batch0].

(** A graph all of whose hits are in the background sector. *)
Definition scanner_background : ClusterHyperParamScanner :=
  mkScanner [graph0] [truth0] [] [array1 [-1; -1; -1]] "" "v_measure" ∅ 20.

(** A scanner with a metric that returns a float and one that returns a
    mapping. *)
Definition scanner_metrics : ClusterHyperParamScanner :=
  mkScanner [graph0] [truth0]
    [("purity", fun _ _ => MetricFloat (1 # 2));
     ("trk", fun _ _ => MetricDict [("double_majority", (3 # 4)%Q); ("lhc", (1 # 4)%Q)])]
    [array1 [2; -1; 2]] "purity" "trk.double_majority" ∅ 20.

(** A clustering algorithm that puts all hits into one cluster, a metric
    that counts the hits it is given, and a study with a best trial. *)
Definition one_cluster : cluster_params → list (list Q) → list Z :=
  fun _ graph => (fun _ => 0) <$> graph.

Definition n_hits : list Z → list Z → metric_value :=
  fun _ predicted => MetricFloat (inject_Z (Z.of_nat (length predicted))).

Definition study0 : Study := mkStudy (Some [("eps", (1 # 2)%Q)]).

Definition scanner_eval : ClusterHyperParamScanner :=
  mkScanner [graph0; graph0] [truth0; truth1]
    [("n_hits", n_hits);
     ("trk", fun _ _ => MetricDict [("double_majority", (3 # 4)%Q); ("lhc", (1 # 4)%Q)])]
    [array1 [2; -1; 2]; array1 [-1; 4; 3]] "" "n_hits" ∅ 20.

(** [scanner_eval] with other hits in the background sector. *)
Definition scanner_eval_moved : ClusterHyperParamScanner :=
  mkScanner [[[0%Q; 0%Q]; [7%Q; 7%Q]; [1%Q; 1%Q]]; [[5%Q; 5%Q]; [1%Q; 0%Q]; [1%Q; 1%Q]]]
    [[1; 9; 2]; [8; 5; 5]]
    (metrics scanner_eval) (sectors scanner_eval) "" "n_hits" ∅ 20.

(** The Python float [0.1], the binary32 number nearest to it, and a hit
    of a particle with this momentum. *)
Definition double_tenth : Q := 3602879701896397 # 36028797018963968.
Definition float32_tenth : Q := 13421773 # 134217728.

Definition cuts_tenth : TrainingTruthCutConfig := mkCuts double_tenth false false.

Definition batch_tenth : Data :=
  mkData [[0%Q]; [1%Q]] [] [] [] [float32_tenth; 2%Q] [1; 2] [1; 1] [0; 0].

(** A single hit with an edge to itself. *)
Definition batch_self_loop : Data :=
  mkData [[0%Q]] [1%Q] [(0, 0)] [[0%Q]] [2%Q] [7] [1] [0].

(** Two hits without an edge. *)
Definition batch_no_edges : Data :=
  mkData [[0%Q]; [1%Q]] [] [] [] [2%Q; 1%Q] [7; 8] [1; 1] [0; 0].

(** A hit of a particle with an id that fills 62 bits, and a flag 2. *)
Definition batch_large_id : Data :=
  mkData [[0%Q]] [] [] [] [2%Q] [2 ^ 62] [2] [0].

(** ** Rounding to binary32 *)

Lemma pow2_pos (k : Z) : (0 < pow2 k)%Q.
Proof. by apply Qpower_0_lt. Qed.

Lemma pow2_le (k1 k2 : Z) : k1 <= k2 → (pow2 k1 <= pow2 k2)%Q.
Proof. intros H. by apply Qpower_le_compat_l. Qed.

Lemma pow2_add (a b : Z) : (pow2 (a + b) == pow2 a * pow2 b)%Q.
Proof. by apply Qpower_plus. Qed.

Lemma pow2_Z (k : Z) : 0 <= k → (pow2 k == inject_Z (2 ^ k))%Q.
Proof. intros H. unfold pow2. by rewrite Zpower_Qpower. Qed.

Lemma mag_spec (x : Q) : (0 < x)%Q → (pow2 (mag x - 1) <= x)%Q ∧ (x < pow2 (mag x))%Q.
Proof.
  destruct x as [n d]. intros Hx. assert (0 < n) as Hn by (unfold Qlt in Hx; simpl in Hx; lia).
  unfold mag. cbn [Qnum Qden].
  set (ln := Z.log2 n). set (ld := Z.log2 (Z.pos d)). set (k0 := ln - ld).
  pose proof (Z.log2_spec n Hn) as [Hn1 Hn2]. fold ln in Hn1, Hn2.
  pose proof (Z.log2_spec (Z.pos d) ltac:(lia)) as [Hd1 Hd2]. fold ld in Hd1, Hd2.
  pose proof (Z.log2_nonneg n) as Hln. fold ln in Hln.
  pose proof (Z.log2_nonneg (Z.pos d)) as Hld. fold ld in Hld.
  assert (pow2 ln <= inject_Z n)%Q as HN1.
  { rewrite pow2_Z by done. by rewrite <- Zle_Qle. }
  assert (inject_Z n < pow2 (ln + 1))%Q as HN2.
  { rewrite pow2_Z by lia. by rewrite <- Zlt_Qlt. }
  assert (pow2 ld <= inject_Z (Z.pos d))%Q as HD1.
  { rewrite pow2_Z by done. by rewrite <- Zle_Qle. }
  assert (inject_Z (Z.pos d) < pow2 (ld + 1))%Q as HD2.
  { rewrite pow2_Z by lia. by rewrite <- Zlt_Qlt. }
  assert (0 < inject_Z (Z.pos d))%Q as HD by (by rewrite <- (Zlt_Qlt 0)).
  assert (pow2 (k0 - 1) <= n # d)%Q as HA.
  { rewrite (Qmake_Qdiv n d). apply Qle_shift_div_l; [done|].
    pose proof (pow2_pos (k0 - 1)) as Hp.
    pose proof (pow2_add (k0 - 1) (ld + 1)) as Hadd.
    replace (k0 - 1 + (ld + 1)) with ln in Hadd by (unfold k0; lia).
    nra. }
  assert (n # d < pow2 (k0 + 1))%Q as HB.
  { rewrite (Qmake_Qdiv n d). apply Qlt_shift_div_r; [done|].
    pose proof (pow2_pos (k0 + 1)) as Hp.
    pose proof (pow2_add (k0 + 1) ld) as Hadd.
    replace (k0 + 1 + ld) with (ln + 1) in Hadd by (unfold k0; lia).
    nra. }
  destruct (Qle_bool (pow2 k0) (n # d)) eqn:Hle.
  - apply Qle_bool_iff in Hle. replace (k0 + 1 - 1) with k0 by lia. done.
  - split; [done|]. apply Qnot_le_lt. intros H. apply Qle_bool_iff in H. congruence.
Qed.

Lemma mag_le (x y : Q) : (0 < x)%Q → (x <= y)%Q → mag x <= mag y.
Proof.
  intros Hx Hxy. assert (0 < y)%Q as Hy by lra.
  destruct (mag_spec x Hx) as [Hx1 _]. destruct (mag_spec y Hy) as [_ Hy2].
  destruct (Z_le_gt_dec (mag x) (mag y)) as [?|Hgt]; [done|].
  pose proof (pow2_le (mag y) (mag x - 1) ltac:(lia)). lra.
Qed.

Lemma round_half_even_bounds (x : Q) :
  Qfloor x <= round_half_even x <= Qfloor x + 1.
Proof.
  unfold round_half_even. destruct (_ ?= _)%Q; [destruct (Z.even _)| |]; lia.
Qed.

Lemma round_half_even_mono (a b : Q) :
  (a <= b)%Q → round_half_even a <= round_half_even b.
Proof.
  intros Hab. pose proof (Qfloor_resp_le a b Hab) as Hf.
  destruct (Z_lt_le_dec (Qfloor a) (Qfloor b)) as [Hlt|Hge].
  { pose proof (round_half_even_bounds a). pose proof (round_half_even_bounds b). lia. }
  assert (Qfloor a = Qfloor b) as Heq by lia.
  unfold round_half_even. rewrite Heq.
  destruct (Qcompare_spec (a - inject_Z (Qfloor b)) (1 # 2)) as [Ha|Ha|Ha];
    destruct (Qcompare_spec (b - inject_Z (Qfloor b)) (1 # 2)) as [Hb|Hb|Hb];
    try destruct (Z.even (Qfloor b)); try lia; lra.
Qed.

Lemma round_half_even_Z (m : Z) : round_half_even (inject_Z m) = m.
Proof.
  unfold round_half_even. rewrite Qfloor_Z.
  destruct (Qcompare_spec (inject_Z m - inject_Z m) (1 # 2)) as [H|H|H]; [lra|done|lra].
Qed.

Lemma round_float32_pos_mono (x y : Q) :
  (0 < x)%Q → (x <= y)%Q → (round_float32_pos x <= round_float32_pos y)%Q.
Proof.
  intros Hx Hxy. assert (0 < y)%Q as Hy by lra.
  pose proof (mag_le x y Hx Hxy) as Hmag.
  destruct (mag_spec x Hx) as [_ Hx2]. destruct (mag_spec y Hy) as [Hy1 _].
  unfold round_float32_pos.
  set (ex := Z.max (mag x - 24) (-149)). set (ey := Z.max (mag y - 24) (-149)).
  pose proof (pow2_pos ex) as Hpx. pose proof (pow2_pos ey) as Hpy.
  destruct (Z_lt_le_dec ex ey) as [Hlt|Hge].
  - (* the power [2^(mag x)] lies between the two rounded numbers *)
    assert (ey = mag y - 24) as Hey by lia.
    assert (mag x <= mag y - 1) as Hm by lia.
    apply (Qle_trans _ (pow2 (mag x))).
    + destruct (Z_le_gt_dec 0 (mag x - ex)) as [Hk|Hk].
      * assert (round_half_even (x / pow2 ex) <= 2 ^ (mag x - ex)) as Hr.
        { rewrite <- (round_half_even_Z (2 ^ (mag x - ex))). apply round_half_even_mono.
          rewrite <- pow2_Z by done. apply Qle_shift_div_r; [done|].
          rewrite <- pow2_add. replace (mag x - ex + ex) with (mag x) by lia. lra. }
        rewrite Zle_Qle in Hr. rewrite <- pow2_Z in Hr by done.
        pose proof (pow2_add (mag x - ex) ex) as Hadd.
        replace (mag x - ex + ex) with (mag x) in Hadd by lia. nra.
      * assert (round_half_even (x / pow2 ex) <= 0) as Hr.
        { change 0 with (round_half_even (1 # 2)). apply round_half_even_mono.
          apply Qle_shift_div_r; [done|].
          pose proof (pow2_le (mag x) (ex - 1) ltac:(lia)) as Hle.
          pose proof (pow2_add (ex - 1) 1) as Hadd.
          replace (ex - 1 + 1) with ex in Hadd by lia.
          change (pow2 1) with 2%Q in Hadd. rewrite Hadd.
          set (A := pow2 (mag x)) in *. set (B := pow2 (ex - 1)) in *. clearbody A B. lra. }
        rewrite Zle_Qle in Hr. change (inject_Z 0) with 0%Q in Hr.
        pose proof (pow2_pos (mag x)). nra.
    + assert (2 ^ 23 <= round_half_even (y / pow2 ey)) as Hr.
      { rewrite <- (round_half_even_Z (2 ^ 23)). apply round_half_even_mono.
        rewrite <- pow2_Z by done. apply Qle_shift_div_l; [done|].
        rewrite <- pow2_add. replace (23 + ey) with (mag y - 1) by lia. done. }
      rewrite Zle_Qle in Hr. rewrite <- pow2_Z in Hr by done.
      pose proof (pow2_add 23 ey) as Hadd.
      replace (23 + ey) with (mag y - 1) in Hadd by lia.
      pose proof (pow2_le (mag x) (mag y - 1) Hm). nra.
  - assert (ex = ey) as Heq by lia. rewrite Heq.
    apply Qmult_le_compat_r; [|lra]. rewrite <- Zle_Qle. apply round_half_even_mono.
    apply Qle_shift_div_l; [done|].
    assert (x / pow2 ey * pow2 ey == x)%Q as -> by (field; lra). done.
Qed.

Lemma round_float32_nonneg (x : Q) : (0 < x)%Q → (0 <= round_float32_pos x)%Q.
Proof.
  intros Hx. unfold round_float32_pos.
  set (e := Z.max (mag x - 24) (-149)). pose proof (pow2_pos e) as Hp.
  assert (0 <= round_half_even (x / pow2 e)) as Hr.
  { rewrite <- (round_half_even_Z 0). apply round_half_even_mono.
    apply Qle_shift_div_l; [done|]. change (inject_Z 0) with 0%Q. lra. }
  rewrite Zle_Qle in Hr. change (inject_Z 0) with 0%Q in Hr. nra.
Qed.

Lemma round_float32_mono (x y : Q) : (x <= y)%Q → (round_float32 x <= round_float32 y)%Q.
Proof.
  intros Hxy. unfold round_float32.
  destruct (Qcompare_spec x 0) as [Hx|Hx|Hx]; destruct (Qcompare_spec y 0) as [Hy|Hy|Hy];
    try lra.
  - by apply round_float32_nonneg.
  - pose proof (round_float32_nonneg (- x) ltac:(lra)). lra.
  - pose proof (round_float32_pos_mono (- y) (- x) ltac:(lra) ltac:(lra)). lra.
  - pose proof (round_float32_nonneg (- x) ltac:(lra)).
    pose proof (round_float32_nonneg y Hy). lra.
  - by apply round_float32_pos_mono.
Qed.
(** ** Facts about the primitives *)

Section PrimitiveFacts.
Context {A : Type}.
Implicit Types (t : list A) (mask : list bool) (idx : list Z).

Lemma tensor_get_in_range t i :
  0 <= i < Z.of_nat (length t) →
  tensor_get t i = match t !! Z.to_nat i with Some a => Ok a | None => Raise IndexError end.
Proof.
  intros Hi. unfold tensor_get.
  destruct (Z.ltb_spec i 0) as [?|_]; [lia|].
  destruct (Z.leb_spec 0 i); [|lia]. destruct (Z.ltb_spec i (Z.of_nat (length t))); [|lia].
  reflexivity.
Qed.

Lemma tensor_get_nat t (i : nat) a :
  t !! i = Some a → tensor_get t (Z.of_nat i) = Ok a.
Proof.
  intros Ha. pose proof (lookup_lt_Some _ _ _ Ha).
  rewrite tensor_get_in_range by lia. by rewrite Nat2Z.id, Ha.
Qed.

Lemma tensor_get_total t i :
  - Z.of_nat (length t) <= i < Z.of_nat (length t) → ∃ a, tensor_get t i = Ok a.
Proof.
  intros Hi. unfold tensor_get.
  set (j := if i <? 0 then Z.of_nat (length t) + i else i).
  assert (0 <= j < Z.of_nat (length t)) as Hj.
  { subst j. destruct (Z.ltb_spec i 0); lia. }
  destruct (Z.leb_spec 0 j); [|lia]. destruct (Z.ltb_spec j (Z.of_nat (length t))); [|lia].
  simpl. destruct (lookup_lt_is_Some_2 t (Z.to_nat j)) as [a ->]; [lia|]. eauto.
Qed.

Lemma index_select_spec t idx r :
  index_select t idx = Ok r →
  length r = length idx
  ∧ ∀ k i, idx !! k = Some i → ∃ a, tensor_get t i = Ok a ∧ r !! k = Some a.
Proof.
  revert r. induction idx as [|i idx IH]; intros r; simpl.
  - intros [= <-]. split; [done|]. intros k i; by rewrite lookup_nil.
  - destruct (tensor_get t i) as [a|] eqn:Ha; simpl; [|done].
    destruct (index_select t idx) as [r'|] eqn:Hr; simpl; [|done].
    intros [= <-]. destruct (IH r' eq_refl) as [Hlen Hk]. split; [simpl; lia|].
    intros [|k] j; simpl.
    + intros [= <-]. eauto.
    + apply Hk.
Qed.

Lemma index_select_total t idx :
  Forall (fun i => - Z.of_nat (length t) <= i < Z.of_nat (length t)) idx →
  ∃ r, index_select t idx = Ok r.
Proof.
  induction 1 as [|i idx Hi _ [r Hr]]; simpl; [eauto|].
  destruct (tensor_get_total t i Hi) as [a ->]. rewrite Hr. simpl. eauto.
Qed.

Lemma length_select t mask :
  length mask = length t → length (select t mask) = popcount mask.
Proof.
  revert mask. induction t as [|a t IH]; intros [|b mask]; simpl; try done.
  intros [= Hl]. destruct b; simpl; by rewrite IH.
Qed.

Lemma length_scatter t mask vals : length (scatter t mask vals) = length t.
Proof.
  revert mask vals. induction t as [|a t IH]; intros [|b mask] vals; simpl; try done.
  destruct b; [destruct vals|]; simpl; by rewrite IH.
Qed.
End PrimitiveFacts.

(** Updating the selected entries of a mask in place: entry [i] changes
    only where the selecting mask holds. *)
Lemma scatter_select_and (t mask : list bool) (ps : list Q) (g : Q → bool) :
  length mask = length t → length ps = length t →
  ∀ (i : nat) (a b : bool) (p : Q), t !! i = Some a → mask !! i = Some b → ps !! i = Some p →
    scatter t mask (zip_with andb (select t mask) (g <$> select ps mask)) !! i
    = Some (if b then a && g p else a).
Proof.
  revert mask ps. induction t as [|a0 t IH]; intros [|b0 mask] [|p0 ps]; simpl; try done.
  intros [= Hm] [= Hp] i a b p.
  destruct b0; simpl.
  - destruct i as [|i]; simpl.
    + by intros [= <-] [= <-] [= <-].
    + by apply IH.
  - destruct i as [|i]; simpl.
    + by intros [= <-] [= <-] [= <-].
    + by apply IH.
Qed.

Lemma bind_Ok {A B} (m : result A) (f : A → result B) (r : B) :
  m ≫= f = Ok r ↔ ∃ a, m = Ok a ∧ f a = Ok r.
Proof.
  destruct m as [a|e]; simpl; split.
  - eauto.
  - by intros (a' & [= <-] & ?).
  - done.
  - by intros (a' & ? & _).
Qed.

Ltac bind_inv H :=
  let a := fresh "v" in
  let Ha := fresh "Hv" in
  apply bind_Ok in H as (a & Ha & H).

Lemma Qgtb_lt (a b : Q) : Qgtb a b = true ↔ (b < a)%Q.
Proof.
  unfold Qgtb. rewrite negb_true_iff, <- not_true_iff_false, Qle_bool_iff.
  split; [apply Qnot_le_lt | apply Qlt_not_le].
Qed.

Lemma Qgtb_le (a b : Q) : Qgtb a b = false ↔ (a <= b)%Q.
Proof. unfold Qgtb. by rewrite negb_false_iff, Qle_bool_iff. Qed.

(** ** The masks of [get_masks] *)

Lemma gt_scalar_lt (p s : Q) : gt_scalar p s = true ↔ (round_float32 s < p)%Q.
Proof. apply Qgtb_lt. Qed.

Lemma gt_scalar_le (p s : Q) : gt_scalar p s = false ↔ (p <= round_float32 s)%Q.
Proof. apply Qgtb_le. Qed.

Section GetMasks.
Variable self : TrainingTruthCutConfig.


Lemma get_masks_edges data nm em :
  get_masks self data = Ok (nm, em) →
  ∃ src dst,
    index_select nm (fst <$> edge_index data) = Ok src
    ∧ index_select nm (snd <$> edge_index data) = Ok dst
    ∧ em = zip_with andb src dst.
Proof.
  unfold get_masks. intros H.
  bind_inv H. bind_inv H. bind_inv H. bind_inv H. bind_inv H.
  injection H as <- <-. eauto.
Qed.

Lemma iand_same_length (a b : list bool) :
  length b = length a → iand a b = Ok (zip_with andb a b).
Proof. intros Hl. unfold iand. by rewrite Hl, Nat.eqb_refl. Qed.

Lemma lookup_zip_with_and (a b : list bool) (i : nat) (u v : bool) :
  a !! i = Some u → b !! i = Some v → zip_with andb a b !! i = Some (u && v).
Proof. intros Ha Hb. by rewrite lookup_zip_with, Ha; simpl; rewrite Hb. Qed.

(** On a well-formed batch the three cuts run through, and entry [i]
    of the node mask is the conjunction of the three tests on node [i]. *)
Lemma get_masks_nodes data :
  wf_data data →
  ∃ nm,
    length nm = length (x data)
    ∧ (get_masks self data =
         src ← index_select nm (fst <$> edge_index data);
         dst ← index_select nm (snd <$> edge_index data);
         Ok (nm, zip_with andb src dst))
    ∧ ∀ (i : nat) pid p r,
        particle_id data !! i = Some pid → pt data !! i = Some p →
        reconstructable data !! i = Some r →
        nm !! i = Some (passes_pt_cut self pid p && passes_noise_cut self pid
                        && passes_reconstructable_cut self r).
Proof.
  intros [Hpt Hpid Hreco _ _ _ _]. unfold get_masks.
  set (n := length (x data)) in *.
  set (noise := (fun p => 0 <? p) <$> particle_id data).
  assert (length noise = n) as Hnoise by (subst noise; by rewrite length_fmap).
  (* the momentum cut *)
  assert (∃ nm1, (if Qgtb (pt_thld self) 0 then
                    cur ← masked_select (replicate n true) noise;
                    pts ← masked_select (pt data) noise;
                    upd ← iand cur ((fun p => gt_scalar p (pt_thld self)) <$> pts);
                    masked_assign (replicate n true) noise upd
                  else Ok (replicate n true)) = Ok nm1
                 ∧ length nm1 = n
                 ∧ ∀ (i : nat) pid p, particle_id data !! i = Some pid →
                     pt data !! i = Some p → nm1 !! i = Some (passes_pt_cut self pid p))
    as (nm1 & -> & Hl1 & Hnm1).
  { unfold passes_pt_cut. destruct (Qgtb (pt_thld self) 0).
    - unfold masked_select, masked_assign.
      rewrite length_replicate, Hnoise, Hpt, Nat.eqb_refl. simpl.
      rewrite iand_same_length
        by (rewrite length_fmap, !length_select; rewrite ?length_replicate; congruence).
      simpl. rewrite length_zip_with, length_fmap, !length_select
        by (rewrite ?length_replicate; congruence).
      rewrite Nat.min_id, Nat.eqb_refl. eexists; split; [done|].
      split; [by rewrite length_scatter, length_replicate|].
      intros i pid p Hi Hp.
      assert (length noise = length (replicate n true)) as E1
        by (by rewrite length_replicate).
      assert (length (pt data) = length (replicate n true)) as E2
        by (by rewrite length_replicate).
      rewrite (scatter_select_and (replicate n true) noise (pt data) _ E1 E2
                 i true (0 <? pid) p).
      + done.
      + apply lookup_replicate_2. apply lookup_lt_Some in Hi. lia.
      + subst noise. by rewrite list_lookup_fmap, Hi.
      + done.
    - eexists; split; [done|]. split; [by rewrite length_replicate|].
      intros i pid p Hi _. apply lookup_replicate_2. apply lookup_lt_Some in Hi. lia. }
  simpl.
  (* the noise cut *)
  assert (∃ nm2, (if without_noise self then iand nm1 noise else Ok nm1) = Ok nm2
                 ∧ length nm2 = n
                 ∧ ∀ (i : nat) pid p, particle_id data !! i = Some pid →
                     pt data !! i = Some p →
                     nm2 !! i = Some (passes_pt_cut self pid p && passes_noise_cut self pid))
    as (nm2 & -> & Hl2 & Hnm2).
  { unfold passes_noise_cut. destruct (without_noise self).
    - rewrite iand_same_length by congruence. eexists; split; [done|].
      split; [rewrite length_zip_with; lia|].
      intros i pid p Hi Hp. apply lookup_zip_with_and; [eauto|].
      subst noise. by rewrite list_lookup_fmap, Hi.
    - exists nm1. split; [done|]. split; [done|].
      intros i pid p Hi Hp. rewrite andb_true_r. eauto. }
  simpl.
  (* the reconstructability cut *)
  set (reco := (fun r => 0 <? r) <$> reconstructable data).
  assert (length reco = n) as Hlr by (subst reco; by rewrite length_fmap).
  assert (∃ nm3, (if without_non_reconstructable self then iand nm2 reco else Ok nm2) = Ok nm3
                 ∧ length nm3 = n
                 ∧ ∀ (i : nat) pid p r, particle_id data !! i = Some pid →
                     pt data !! i = Some p → reconstructable data !! i = Some r →
                     nm3 !! i = Some (passes_pt_cut self pid p && passes_noise_cut self pid
                                      && passes_reconstructable_cut self r))
    as (nm3 & -> & Hl3 & Hnm3).
  { unfold passes_reconstructable_cut. destruct (without_non_reconstructable self).
    - rewrite iand_same_length by congruence. eexists; split; [done|].
      split; [rewrite length_zip_with; lia|].
      intros i pid p r Hi Hp Hr. apply lookup_zip_with_and; [eauto|].
      subst reco. by rewrite list_lookup_fmap, Hr.
    - exists nm2. split; [done|]. split; [done|].
      intros i pid p r Hi Hp Hr. rewrite andb_true_r. eauto. }
  simpl. exists nm3. done.
Qed.

Lemma get_masks_total data :
  wf_data data → ∃ nm em, get_masks self data = Ok (nm, em).
Proof.
  intros Hwf. destruct (get_masks_nodes data Hwf) as (nm & Hlen & -> & _).
  destruct Hwf as [_ _ _ _ _ _ Hedges].
  destruct (index_select_total nm (fst <$> edge_index data)) as [src ->].
  { rewrite Hlen. apply Forall_fmap. eapply Forall_impl; [exact Hedges|].
    simpl. intros [s d] [? ?]; simpl in *. lia. }
  destruct (index_select_total nm (snd <$> edge_index data)) as [dst ->].
  { rewrite Hlen. apply Forall_fmap. eapply Forall_impl; [exact Hedges|].
    simpl. intros [s d] [? ?]; simpl in *. lia. }
  simpl. eauto.
Qed.

Lemma get_masks_edge_spec data nm em :
  get_masks self data = Ok (nm, em) →
  length em = length (edge_index data)
  ∧ ∀ (e : nat) (s d : Z), edge_index data !! e = Some (s, d) →
      ∃ bs bd : bool,
        tensor_get nm s = Ok bs ∧ tensor_get nm d = Ok bd
        ∧ em !! e = Some (bs && bd).
Proof.
  intros H. destruct (get_masks_edges data nm em H) as (src & dst & Hs & Hd & ->).
  apply index_select_spec in Hs as [Hls Hs]. apply index_select_spec in Hd as [Hld Hd].
  rewrite length_fmap in Hls, Hld. split.
  - rewrite length_zip_with. lia.
  - intros e s d He.
    destruct (Hs e s) as (bs & Hbs & Hse); [by rewrite list_lookup_fmap, He|].
    destruct (Hd e d) as (bd & Hbd & Hde); [by rewrite list_lookup_fmap, He|].
    exists bs, bd. split; [done|]. split; [done|].
    by apply lookup_zip_with_and.
Qed.

Lemma get_masks_node_mask_length data nm em :
  wf_data data → get_masks self data = Ok (nm, em) → length nm = length (x data).
Proof.
  intros Hwf Hget. destruct (get_masks_nodes data Hwf) as (nm' & Hlen & Heq & _).
  rewrite Heq in Hget. bind_inv Hget. bind_inv Hget. by injection Hget as <- _.
Qed.
End GetMasks.

(** ** Re-indexing of the surviving nodes *)

Lemma rank_0 (nm : list bool) : rank nm 0 = 0%nat.
Proof. unfold rank. by rewrite take_0. Qed.

Lemma rank_S (b : bool) (nm : list bool) (i : nat) :
  rank (b :: nm) (S i) = ((if b then 1 else 0) + rank nm i)%nat.
Proof. reflexivity. Qed.

Lemma rank_le_popcount (nm : list bool) (i : nat) : (rank nm i ≤ popcount nm)%nat.
Proof.
  revert i. induction nm as [|b nm IH]; intros [|i]; unfold rank in *; simpl; try lia.
  specialize (IH i). lia.
Qed.

Lemma rank_lt_popcount (nm : list bool) (i : nat) :
  nm !! i = Some true → (rank nm i < popcount nm)%nat.
Proof.
  revert i. induction nm as [|b nm IH]; intros [|i]; simpl; try done.
  - intros [= ->]. rewrite rank_0. simpl. lia.
  - intros Hi. rewrite rank_S. specialize (IH i Hi). lia.
Qed.

Lemma rank_step (nm : list bool) (i : nat) :
  nm !! i = Some true → rank nm (S i) = S (rank nm i).
Proof.
  revert i. induction nm as [|b nm IH]; intros [|i]; simpl; try done.
  - by intros [= ->].
  - intros Hi. rewrite (rank_S b nm (S i)), (rank_S b nm i), (IH i Hi). lia.
Qed.

Lemma rank_mono (nm : list bool) (i j : nat) : (i ≤ j)%nat → (rank nm i ≤ rank nm j)%nat.
Proof.
  revert i j. induction nm as [|b nm IH]; intros i j Hij.
  - unfold rank. by rewrite !take_nil.
  - destruct i as [|i]; [rewrite rank_0; lia|].
    destruct j as [|j]; [lia|]. rewrite !rank_S. specialize (IH i j). lia.
Qed.

Lemma rank_strict_mono (nm : list bool) (i j : nat) :
  nm !! i = Some true → (i < j)%nat → (rank nm i < rank nm j)%nat.
Proof.
  intros Hi Hij. pose proof (rank_step nm i Hi). pose proof (rank_mono nm (S i) j). lia.
Qed.

Lemma rank_inj (nm : list bool) (i j : nat) :
  nm !! i = Some true → nm !! j = Some true → rank nm i = rank nm j → i = j.
Proof.
  intros Hi Hj Heq. destruct (Nat.lt_trichotomy i j) as [H|[H|H]]; [|done|].
  - pose proof (rank_strict_mono nm i j Hi H). lia.
  - pose proof (rank_strict_mono nm j i Hj H). lia.
Qed.

Lemma rank_onto (nm : list bool) (j : nat) :
  (j < popcount nm)%nat → ∃ i : nat, nm !! i = Some true ∧ rank nm i = j.
Proof.
  revert j. induction nm as [|b nm IH]; intros j; simpl; [lia|].
  destruct b; simpl.
  - destruct j as [|j].
    + intros _. exists 0%nat. by rewrite rank_0.
    + intros Hj. destruct (IH j) as (i & Hi & Hr); [lia|].
      exists (S i). rewrite rank_S, Hr. done.
  - intros Hj. destruct (IH j Hj) as (i & Hi & Hr).
    exists (S i). rewrite rank_S, Hr. done.
Qed.

Lemma rank_replicate_true (n i : nat) : (i ≤ n)%nat → rank (replicate n true) i = i.
Proof.
  revert i. induction n as [|n IH]; intros [|i] Hi; try (by rewrite rank_0); [lia|].
  simpl. rewrite rank_S, IH by lia. done.
Qed.

Lemma popcount_replicate_true (n : nat) : popcount (replicate n true) = n.
Proof. induction n as [|n IH]; simpl; [done|]. by rewrite IH. Qed.

Lemma select_replicate_true {A} (l : list A) : select l (replicate (length l) true) = l.
Proof. induction l as [|a l IH]; simpl; [done|]. by rewrite IH. Qed.

Lemma mapping_from_cons_true nm a b m0 :
  mapping_from (true :: nm) a b m0
  = mapping_from nm (S a) (S b) (<[Z.of_nat a := Z.of_nat b]> m0).
Proof. reflexivity. Qed.

Lemma mapping_from_cons_false nm a b m0 :
  mapping_from (false :: nm) a b m0 = mapping_from nm (S a) b m0.
Proof. reflexivity. Qed.

Lemma mapping_from_other nm a b m0 (key : Z) :
  (∀ i : nat, nm !! i = Some true → key ≠ Z.of_nat (a + i)) →
  mapping_from nm a b m0 !! key = m0 !! key.
Proof.
  revert a b m0. induction nm as [|v nm IH]; intros a b m0 Hkey; [done|].
  destruct v.
  - rewrite mapping_from_cons_true, IH.
    + apply lookup_insert_ne. specialize (Hkey 0%nat eq_refl). rewrite Nat.add_0_r in Hkey. done.
    + intros i Hi. specialize (Hkey (S i) Hi). by rewrite Nat.add_succ_r in Hkey.
  - rewrite mapping_from_cons_false, IH; [done|].
    intros i Hi. specialize (Hkey (S i) Hi). by rewrite Nat.add_succ_r in Hkey.
Qed.

Lemma mapping_from_survivor nm a b m0 (i : nat) :
  nm !! i = Some true →
  mapping_from nm a b m0 !! Z.of_nat (a + i) = Some (Z.of_nat (b + rank nm i)).
Proof.
  revert a b m0 i. induction nm as [|v nm IH]; intros a b m0 i Hi; [done|].
  destruct i as [|i]; simpl in Hi.
  - injection Hi as ->. rewrite mapping_from_cons_true, mapping_from_other.
    + rewrite rank_0, !Nat.add_0_r. apply lookup_insert_eq.
    + intros j _. lia.
  - destruct v.
    + rewrite mapping_from_cons_true, rank_S.
      replace (a + S i)%nat with (S a + i)%nat by lia.
      rewrite (IH (S a) (S b) _ i Hi). do 2 f_equal. lia.
    + rewrite mapping_from_cons_false, rank_S.
      replace (a + S i)%nat with (S a + i)%nat by lia.
      rewrite (IH (S a) b _ i Hi). do 2 f_equal.
Qed.

Lemma edge_index_mapping_unfold nm : edge_index_mapping nm = mapping_from nm 0 0 ∅.
Proof. reflexivity. Qed.

(** The mapping sends exactly the surviving nodes to their ranks. *)
Lemma edge_index_mapping_lookup (nm : list bool) (key v : Z) :
  edge_index_mapping nm !! key = Some v
  ↔ ∃ i : nat, key = Z.of_nat i ∧ nm !! i = Some true ∧ v = Z.of_nat (rank nm i).
Proof.
  rewrite edge_index_mapping_unfold. split.
  - intros Hkey.
    assert ((∃ i : nat, key = Z.of_nat i ∧ nm !! i = Some true)
            ∨ ∀ i : nat, nm !! i = Some true → key ≠ Z.of_nat (0 + i)) as [(i & -> & Hi)|Hno].
    { destruct (decide (0 <= key)) as [Hpos|Hneg]; [|right; intros i _; simpl; lia].
      destruct (nm !! Z.to_nat key) as [[|]|] eqn:Hk.
      - left. exists (Z.to_nat key). split; [lia|done].
      - right. intros i Hi ->. simpl in Hk. rewrite Nat2Z.id in Hk. congruence.
      - right. intros i Hi ->. simpl in Hk. rewrite Nat2Z.id in Hk. congruence. }
    + exists i. split; [done|]. split; [done|].
      pose proof (mapping_from_survivor nm 0 0 ∅ i Hi) as H. simpl in H.
      rewrite H in Hkey. by injection Hkey.
    + rewrite mapping_from_other in Hkey; [by rewrite lookup_empty in Hkey|done].
  - intros (i & -> & Hi & ->). exact (mapping_from_survivor nm 0 0 ∅ i Hi).
Qed.

Lemma map_get_spec (m : gmap Z Z) (arr r : list Z) :
  map_get m arr = Ok r ↔ Forall2 (fun a v => m !! a = Some v) arr r.
Proof.
  revert r. induction arr as [|a arr IH]; intros r; simpl.
  - split; [intros [= <-]; constructor | by intros ->%Forall2_nil_inv_l].
  - destruct (m !! a) as [v|] eqn:Ha.
    + rewrite bind_Ok. split.
      * intros (r' & Hr' & [= <-]). constructor; [done|]. by apply IH.
      * intros (v' & r' & Hv & Hr' & ->)%Forall2_cons_inv_l.
        exists r'. split; [by apply IH|]. congruence.
    + split; [done|]. intros (v' & r' & Hv & _)%Forall2_cons_inv_l. congruence.
Qed.

(** ** [_apply_mask] *)

Lemma select_fmap {A B} (f : A → B) (l : list A) (mask : list bool) :
  select (f <$> l) mask = f <$> select l mask.
Proof.
  revert mask. induction l as [|a l IH]; intros [|b mask]; simpl; try done.
  destruct b; simpl; by rewrite IH.
Qed.

Lemma select_Forall {A} (P : A → Prop) (l : list A) (mask : list bool) :
  (∀ (i : nat) a, l !! i = Some a → mask !! i = Some true → P a) →
  Forall P (select l mask).
Proof.
  revert mask. induction l as [|a l IH]; intros [|b mask] H; simpl; try constructor.
  destruct b.
  - constructor; [by apply (H 0%nat)|]. apply IH. intros i a'. apply (H (S i)).
  - apply IH. intros i a'. apply (H (S i)).
Qed.

Lemma length_np_arange (n : nat) : length (np_arange n) = n.
Proof. unfold np_arange. by rewrite length_fmap, length_seq. Qed.

Lemma masked_select_Ok {A} (t : list A) (mask : list bool) :
  length mask = length t → masked_select t mask = Ok (select t mask).
Proof. intros Hl. unfold masked_select. by rewrite Hl, Nat.eqb_refl. Qed.

Lemma masked_select_inv {A} (t : list A) (mask : list bool) (r : list A) :
  masked_select t mask = Ok r → length mask = length t ∧ r = select t mask.
Proof.
  unfold masked_select. destruct (Nat.eqb_spec (length mask) (length t)); [|done].
  by intros [= <-].
Qed.

Lemma np_vectorize_get_inv (m : gmap Z Z) (arr r : list Z) :
  np_vectorize_get m arr = Ok r → arr ≠ [] ∧ map_get m arr = Ok r.
Proof. destruct arr; [done|]. done. Qed.

Lemma np_vectorize_get_nonempty (m : gmap Z Z) (arr : list Z) :
  arr ≠ [] → np_vectorize_get m arr = map_get m arr.
Proof. by destruct arr. Qed.

Lemma map_get_total (m : gmap Z Z) (arr : list Z) :
  Forall (fun a => is_Some (m !! a)) arr → ∃ r, map_get m arr = Ok r.
Proof.
  induction 1 as [|a arr [v Hv] _ [r Hr]]; simpl; [eauto|].
  rewrite Hv, Hr. simpl. eauto.
Qed.

Lemma Forall2_zip_endpoints (m : gmap Z Z) (sel : list (Z * Z)) (src dst : list Z) :
  Forall2 (fun a v => m !! a = Some v) (fst <$> sel) src →
  Forall2 (fun a v => m !! a = Some v) (snd <$> sel) dst →
  Forall2 (fun e e' => m !! e.1 = Some e'.1 ∧ m !! e.2 = Some e'.2) sel (zip src dst).
Proof.
  revert src dst. induction sel as [|e sel IH]; intros src dst; simpl.
  - intros ->%Forall2_nil_inv_l _. constructor.
  - intros (s & src' & Hs & Hsrc & ->)%Forall2_cons_inv_l
           (d & dst' & Hd & Hdst & ->)%Forall2_cons_inv_l.
    simpl. constructor; [done|]. by apply IH.
Qed.

(** A node mask with a single entry is used as an index by numpy: the
    index 1 is out of range, and the entry at the index 0 has not the
    shape of [new_edge_indices]. *)
Lemma apply_mask_one_entry (data : Data) (b : bool) (em : list bool) :
  _apply_mask data [b] em = Raise (if b then IndexError else AssertionError).
Proof. by destruct b. Qed.

Lemma getitem_mask (nm : list bool) :
  length nm ≠ 1%nat →
  np_getitem_tensor (np_arange (length nm)) nm
  = Ok (IndexedArray (select (np_arange (length nm)) nm)).
Proof.
  intros Hone. unfold np_getitem_tensor.
  rewrite masked_select_Ok by (by rewrite length_np_arange).
  by destruct nm as [|b [|b' nm]].
Qed.

Lemma apply_mask_not_one (data d' : Data) (nm em : list bool) :
  _apply_mask data nm em = Ok d' → length nm ≠ 1%nat.
Proof.
  intros H Hl. destruct nm as [|b [|b' nm]]; try done.
  rewrite apply_mask_one_entry in H. by destruct b.
Qed.

(** What [_apply_mask] returns, when it returns: every tensor is cut
    down by its mask, and both rows of [edge_index] go through the
    mapping. *)
Lemma apply_mask_inv (data d' : Data) (nm em : list bool) :
  _apply_mask data nm em = Ok d' →
  select (edge_index data) em ≠ []
  ∧ length em = length (edge_index data)
  ∧ length nm = length (x data)
  ∧ x d' = select (x data) nm
  ∧ y d' = select (y data) em
  ∧ edge_attr d' = select (edge_attr data) em
  ∧ pt d' = select (pt data) nm
  ∧ particle_id d' = select (particle_id data) nm
  ∧ reconstructable d' = select (reconstructable data) nm
  ∧ sector d' = select (sector data) nm
  ∧ Forall2 (fun e e' => edge_index_mapping nm !! e.1 = Some e'.1
                         ∧ edge_index_mapping nm !! e.2 = Some e'.2)
      (select (edge_index data) em) (edge_index d').
Proof.
  intros H. pose proof (apply_mask_not_one _ _ _ _ H) as Hone. revert H.
  unfold _apply_mask. rewrite (getitem_mask nm Hone). cbn [mbind result_bind].
  rewrite length_select, !length_np_arange, Nat.eqb_refl by (by rewrite length_np_arange).
  simpl. fold (edge_index_mapping nm). intros H.
  bind_inv H. apply masked_select_inv in Hv as [Hlen ->]. rewrite length_fmap in Hlen.
  bind_inv H. apply np_vectorize_get_inv in Hv as [Hne Hsrc].
  bind_inv H. apply masked_select_inv in Hv as [_ ->].
  bind_inv H. apply np_vectorize_get_inv in Hv as [_ Hdst].
  bind_inv H. apply masked_select_inv in Hv as [Hlx ->].
  bind_inv H. apply masked_select_inv in Hv as [_ ->].
  bind_inv H. apply masked_select_inv in Hv as [_ ->].
  bind_inv H. apply masked_select_inv in Hv as [_ ->].
  bind_inv H. apply masked_select_inv in Hv as [_ ->].
  bind_inv H. apply masked_select_inv in Hv as [_ ->].
  bind_inv H. apply masked_select_inv in Hv as [_ ->].
  injection H as <-. simpl.
  rewrite select_fmap in Hne, Hsrc, Hdst.
  apply map_get_spec in Hsrc, Hdst.
  split; [by intros Hnil; rewrite Hnil in Hne|].
  repeat (split; [done|]). by apply Forall2_zip_endpoints.
Qed.

(** [_apply_mask] returns whenever the masks have the shapes of the
    batch, some edge survives and both ends of every surviving edge are
    surviving nodes, unless the node mask has a single entry. *)
Lemma apply_mask_total (data : Data) (nm em : list bool) :
  wf_data data → length nm ≠ 1%nat →
  length nm = length (x data) → length em = length (edge_index data) →
  select (edge_index data) em ≠ [] →
  (∀ (e : nat) s d, edge_index data !! e = Some (s, d) → em !! e = Some true →
     is_Some (edge_index_mapping nm !! s) ∧ is_Some (edge_index_mapping nm !! d)) →
  ∃ d', _apply_mask data nm em = Ok d'.
Proof.
  intros [Hpt Hpid Hreco Hsec Hy Hattr _] Hone Hnm Hem Hne Hends.
  unfold _apply_mask. rewrite (getitem_mask nm Hone). cbn [mbind result_bind].
  rewrite length_select, !length_np_arange, Nat.eqb_refl by (by rewrite length_np_arange).
  simpl. fold (edge_index_mapping nm).
  rewrite !masked_select_Ok by (rewrite ?length_fmap; congruence). simpl.
  rewrite !select_fmap.
  rewrite !np_vectorize_get_nonempty
    by (intros Hnil%fmap_nil_inv; done).
  destruct (map_get_total (edge_index_mapping nm) (fst <$> select (edge_index data) em))
    as [src ->].
  { rewrite <- select_fmap. apply select_Forall. intros i s.
    rewrite list_lookup_fmap. destruct (edge_index data !! i) as [[s' d]|] eqn:He; [|done].
    intros [= <-] Hi. by apply (Hends i s' d). }
  simpl.
  destruct (map_get_total (edge_index_mapping nm) (snd <$> select (edge_index data) em))
    as [dst ->].
  { rewrite <- select_fmap. apply select_Forall. intros i d.
    rewrite list_lookup_fmap. destruct (edge_index data !! i) as [[s d']|] eqn:He; [|done].
    intros [= <-] Hi. by apply (Hends i s d'). }
  simpl. eauto.
Qed.

(** ** Traces of [evaluate_model] and of the training loop *)

Lemma trace_bind {A B} (m : traced A) (f : A → traced B) :
  trace (m ≫= f)
  = match outcome m with
    | Ok a => trace m ++ trace (f a)
    | Raise _ => trace m
    end.
Proof. unfold mbind, traced_bind. by destruct (outcome m). Qed.

Lemma outcome_bind {A B} (m : traced A) (f : A → traced B) :
  outcome (m ≫= f)
  = match outcome m with
    | Ok a => outcome (f a)
    | Raise e => Raise e
    end.
Proof. unfold mbind, traced_bind. by destruct (outcome m). Qed.

Lemma trace_bind_prefix {A B} (m : traced A) (f : A → traced B) :
  trace m `prefix_of` trace (m ≫= f).
Proof. rewrite trace_bind. destruct (outcome m); [by apply prefix_app_r|done]. Qed.

Lemma hooked_app (tr1 tr2 : list event) : hooked (tr1 ++ tr2) = hooked tr1 ++ hooked tr2.
Proof.
  induction tr1 as [|e tr1 IH]; [done|]. destruct e; simpl; by rewrite ?IH.
Qed.

(** [evaluate_model] with truth cuts calls [get_masks], and
    [_apply_mask] as soon as [get_masks] has returned. *)
Lemma evaluate_model_trace_cuts (self : TCNTrainer) (θ : list Q) (data : Data) (m : bool) :
  is_ok (get_masks (training_truth_cuts self) data) = true →
  ∃ tr, trace (evaluate_model self θ data m true) = EvGetMasks :: EvApplyMask :: tr.
Proof.
  unfold evaluate_model.
  destruct (get_masks (training_truth_cuts self) data) as [[nm em]|]; [intros _|done].
  destruct (_apply_mask data nm em) eqn:Happly; cbn; rewrite Happly; cbn.
  - destruct m; [destruct (mul_long _ _)|]; cbn; eauto.
  - eauto.
Qed.

Lemma evaluate_model_no_hooks (self : TCNTrainer) (θ : list Q) (data : Data) (m a : bool) :
  hooked (trace (evaluate_model self θ data m a)) = [].
Proof.
  unfold evaluate_model. destruct a.
  - destruct (get_masks (training_truth_cuts self) data) as [[nm em]|]; [|done].
    destruct (_apply_mask data nm em) eqn:Happly; cbn; rewrite Happly; cbn; [|done].
    destruct m; [destruct (mul_long _ _)|]; done.
  - cbn. destruct m; [destruct (mul_long _ _)|]; done.
Qed.

(** The dictionary that [evaluate_model] returns: [data'] is the batch
    that went through the network. *)
Lemma evaluate_model_outcome (self : TCNTrainer) (θ : list Q) (data : Data) (m a : bool)
    (dct : gmap string pyobj) :
  outcome (evaluate_model self θ data m a) = Ok dct →
  ∃ data' pid_field,
    EvForward data' ∈ trace (evaluate_model self θ data m a)
    ∧ (if a then ∃ nm em, get_masks (training_truth_cuts self) data = Ok (nm, em)
                          ∧ _apply_mask data nm em = Ok data'
       else data' = data)
    ∧ (if m then mul_long (particle_id data') (reconstructable data') = Ok pid_field
       else pid_field = particle_id data')
    ∧ dct =
        let out := model self θ data' in
        <["w" := squeeze_if_defined out "W"]>
        (<["x" := get_if_defined out "H"]>
        (<["beta" := squeeze_if_defined out "B"]>
        (<["y" := FloatTensor (y data')]>
        (<["particle_id" := LongTensor pid_field]>
        (<["track_params" := FloatTensor (pt data')]>
        (<["pt" := FloatTensor (pt data')]>
        (<["reconstructable" := LongTensor (reconstructable data')]>
        (<["pred" := get_if_defined out "P"]>
        (<["edge_index" := IndexTensor (edge_index data')]>
        (<["sector" := LongTensor (sector data')]>
        (<["node_features" := Matrix (x data')]> ∅))))))))))).
Proof.
  unfold evaluate_model. destruct a.
  - destruct (get_masks (training_truth_cuts self) data) as [[nm em]|]; [|done].
    destruct (_apply_mask data nm em) as [data'|] eqn:Happly; cbn; rewrite Happly; cbn; [|done].
    destruct m.
    + destruct (mul_long _ _) as [pid_field|] eqn:Hmul; cbn; [|done].
      intros [= <-]. exists data', pid_field. split; [set_solver|]. split; [eauto|]. done.
    + cbn. intros [= <-]. exists data', (particle_id data').
      split; [set_solver|]. split; [eauto|]. done.
  - cbn. destruct m.
    + destruct (mul_long _ _) as [pid_field|] eqn:Hmul; cbn; [|done].
      intros [= <-]. exists data, pid_field. split; [set_solver|]. done.
    + cbn. intros [= <-]. exists data, (particle_id data). split; [set_solver|]. done.
Qed.

Lemma within_unlimited (max_batches : option Z) (batch_idx len : nat) :
  max_batches = None ∨ max_batches = Some 0 → within max_batches batch_idx len = len.
Proof.
  intros Hmb. revert batch_idx. induction len as [|len IH]; intros batch_idx; simpl; [done|].
  rewrite IH. by destruct Hmb as [-> | ->].
Qed.

Lemma within_limited (n : Z) (batch_idx len : nat) :
  1 <= n → within (Some n) batch_idx len = (len `min` Z.to_nat (n + 1 - Z.of_nat batch_idx))%nat.
Proof.
  intros Hn. revert batch_idx. induction len as [|len IH]; intros batch_idx; [done|].
  cbn [within past_max_batches].
  destruct (Z.eqb_spec n 0) as [?|_]; [lia|]. cbn [negb andb].
  destruct (Z.ltb_spec n (Z.of_nat batch_idx)).
  - replace (Z.to_nat (n + 1 - Z.of_nat batch_idx)) with 0%nat by lia. lia.
  - rewrite IH. lia.
Qed.

Lemma train_loop_zero_is_none (self : TCNTrainer) (loader : list Data) (batch_idx : nat)
    (st : train_state) :
  train_loop self (Some 0) batch_idx loader st = train_loop self None batch_idx loader st.
Proof.
  revert batch_idx st. induction loader as [|data loader IH]; intros batch_idx st; [done|].
  simpl. unfold mbind, traced_bind.
  destruct (outcome (evaluate_model self (params st) data true true)); [|done].
  cbn. destruct (get_batch_losses self a); cbn; [|done]. by rewrite IH.
Qed.

(** The batch hooks see the indices of the batches in order, from the
    first one up to the break, unless an exception ends the loop before. *)
Lemma train_loop_hooks (self : TCNTrainer) (max_batches : option Z) (loader : list Data)
    (batch_idx : nat) (st : train_state) :
  let r := train_loop self max_batches batch_idx loader st in
  let reached := within max_batches batch_idx (length loader) in
  hooked (trace r) `prefix_of` seq batch_idx reached
  ∧ (is_ok (outcome r) = true → hooked (trace r) = seq batch_idx reached)
  ∧ ((∀ θ data, data ∈ take reached loader → batch_ok self θ data = true) →
     is_ok (outcome r) = true).
Proof.
  revert batch_idx st. induction loader as [|data loader IH]; intros batch_idx st.
  { simpl. done. }
  simpl. destruct (past_max_batches max_batches batch_idx); [simpl; done|].
  specialize (IH (S batch_idx)).
  set (ev := evaluate_model self (params st) data true true).
  pose proof (evaluate_model_no_hooks self (params st) data true true) as Hnh. fold ev in Hnh.
  rewrite trace_bind, outcome_bind.
  destruct (outcome ev) as [model_output|e] eqn:Hev.
  - rewrite trace_bind, outcome_bind. cbn [emit outcome trace].
    rewrite trace_bind, outcome_bind. cbn [lift outcome trace].
    destruct (get_batch_losses self model_output) as [losses|e] eqn:Hgbl.
    + rewrite trace_bind, outcome_bind. cbn [emit outcome trace].
      set (st' := mkTrainState _ _).
      destruct (IH st') as (IH1 & IH2 & IH3).
      rewrite !hooked_app, Hnh. simpl. split; [by apply prefix_cons|].
      split; [intros Hok; by rewrite IH2|].
      intros Hall. apply IH3. intros θ d Hd. apply Hall. simpl. by right.
    + rewrite !hooked_app, Hnh. simpl. split; [apply prefix_cons, prefix_nil|].
      split; [done|]. intros Hall. specialize (Hall (params st) data).
      unfold batch_ok in Hall. fold ev in Hall. rewrite Hev, Hgbl in Hall.
      apply Hall. simpl. by left.
  - rewrite Hnh. split; [apply prefix_nil|]. split; [done|].
    intros Hall. specialize (Hall (params st) data).
    unfold batch_ok in Hall. fold ev in Hall. rewrite Hev in Hall.
    apply Hall. simpl. by left.
Qed.

Lemma take_min_length {A} (l : list A) (k : nat) : take (length l `min` k) l = take k l.
Proof.
  destruct (Nat.le_gt_cases k (length l)).
  - by rewrite Nat.min_r.
  - rewrite Nat.min_l by lia. by rewrite !take_ge by lia.
Qed.

(** After the loop [train_step] steps the loss weights, appends to
    [train_loss] and calls the train hooks; an exception in the loop
    leaves all three out. *)
Lemma train_step_outcome (self : TCNTrainer) (max_batches : option Z) (loader : list Data)
    (θ : list Q) :
  outcome (train_step self max_batches loader θ)
  = outcome (train_loop self max_batches 0 loader (mkTrainState θ [])).
Proof.
  unfold train_step. rewrite outcome_bind.
  by destruct (outcome (train_loop self max_batches 0 loader (mkTrainState θ []))).
Qed.

Lemma train_step_trace (self : TCNTrainer) (max_batches : option Z) (loader : list Data)
    (θ : list Q) :
  trace (train_step self max_batches loader θ)
  = trace (train_loop self max_batches 0 loader (mkTrainState θ []))
    ++ (if is_ok (outcome (train_loop self max_batches 0 loader (mkTrainState θ [])))
        then [EvLossWeightStep; EvTrainLossAppend (_epoch self); EvTrainHooks]
        else []).
Proof.
  unfold train_step. rewrite trace_bind.
  destruct (outcome (train_loop self max_batches 0 loader (mkTrainState θ []))); simpl;
    [done|by rewrite app_nil_r].
Qed.

(** ** A configuration without cuts *)

Lemma isclose_zero (t : Q) : (t == 0)%Q → isclose t 0 = true.
Proof.
  intros Ht. unfold isclose. apply Qle_bool_iff.
  assert (Qabs (t - 0) == 0)%Q as -> by (rewrite Ht; reflexivity).
  discriminate.
Qed.

Lemma Qgtb_zero (t : Q) : (t == 0)%Q → Qgtb t 0 = false.
Proof. intros Ht. apply Qgtb_le. rewrite Ht. apply Qle_refl. Qed.

Lemma index_select_replicate {A} (n : nat) (v : A) (idx : list Z) :
  Forall (fun i => 0 <= i < Z.of_nat n) idx →
  index_select (replicate n v) idx = Ok (replicate (length idx) v).
Proof.
  induction 1 as [|i idx Hi _ IH]; simpl; [done|].
  rewrite tensor_get_in_range by (by rewrite length_replicate).
  rewrite lookup_replicate_2 by lia. simpl. by rewrite IH.
Qed.

Lemma zip_with_and_replicate_true (n : nat) :
  zip_with andb (replicate n true) (replicate n true) = replicate n true.
Proof. induction n as [|n IH]; simpl; [done|]. by rewrite IH. Qed.

Lemma get_masks_no_cuts (self : TrainingTruthCutConfig) (data : Data) :
  (pt_thld self == 0)%Q → without_noise self = false →
  without_non_reconstructable self = false → wf_data data →
  get_masks self data
  = Ok (replicate (length (x data)) true, replicate (length (edge_index data)) true).
Proof.
  intros Ht Hn Hr [_ _ _ _ _ _ Hedges]. unfold get_masks.
  rewrite (Qgtb_zero _ Ht), Hn, Hr. simpl.
  rewrite !index_select_replicate.
  - simpl. by rewrite !length_fmap, zip_with_and_replicate_true.
  - apply Forall_fmap. eapply Forall_impl; [exact Hedges|].
    intros [s d] [? ?]; simpl in *; lia.
  - apply Forall_fmap. eapply Forall_impl; [exact Hedges|].
    intros [s d] [? ?]; simpl in *; lia.
Qed.

Lemma edge_index_mapping_all_true (n : nat) (key : Z) :
  0 <= key < Z.of_nat n → edge_index_mapping (replicate n true) !! key = Some key.
Proof.
  intros Hkey. apply edge_index_mapping_lookup. exists (Z.to_nat key).
  split; [lia|]. split; [apply lookup_replicate_2; lia|].
  rewrite rank_replicate_true by lia. lia.
Qed.

Lemma map_get_identity (m : gmap Z Z) (arr : list Z) :
  Forall (fun a => m !! a = Some a) arr → map_get m arr = Ok arr.
Proof. intros H. apply map_get_spec. by apply Forall_Forall2_diag. Qed.

Lemma select_all_true {A} (l : list A) (n : nat) :
  length l = n → select l (replicate n true) = l.
Proof. intros <-. apply select_replicate_true. Qed.

(** With masks that are true everywhere [_apply_mask] rebuilds the batch
    it is given, provided the batch has an edge and not a single node. *)
Lemma apply_mask_all_true (data : Data) :
  wf_data data → length (x data) ≠ 1%nat → edge_index data ≠ [] →
  _apply_mask data (replicate (length (x data)) true)
    (replicate (length (edge_index data)) true) = Ok data.
Proof.
  intros [Hpt Hpid Hreco Hsec Hy Hattr Hedges] Hone Hne. unfold _apply_mask.
  rewrite getitem_mask by (by rewrite length_replicate). cbn [mbind result_bind].
  rewrite length_select, !length_np_arange, Nat.eqb_refl by (by rewrite length_np_arange).
  cbn [negb]. fold (edge_index_mapping (replicate (length (x data)) true)).
  rewrite !masked_select_Ok by (rewrite ?length_fmap, length_replicate; congruence).
  cbn [mbind result_bind].
  rewrite !select_all_true by (rewrite ?length_fmap; congruence).
  rewrite !np_vectorize_get_nonempty by (intros Hnil%fmap_nil_inv; done).
  rewrite !map_get_identity.
  - cbn [mbind result_bind]. rewrite zip_fst_snd. by destruct data.
  - apply Forall_fmap. eapply Forall_impl; [exact Hedges|].
    intros [s d] [? ?]. by apply edge_index_mapping_all_true.
  - apply Forall_fmap. eapply Forall_impl; [exact Hedges|].
    intros [s d] [? ?]. by apply edge_index_mapping_all_true.
Qed.

(** ** Dictionaries and the loss record *)

Section Dict.
Context {V : Type}.
Implicit Types (d : list (string * V)) (k : string) (v : V).

Lemma dict_get_set_eq k v d : dict_get k (dict_set k v d) = Some v.
Proof.
  induction d as [|[k' v'] d IH]; simpl.
  - by rewrite decide_True.
  - destruct (decide (k = k')) as [->|Hne]; simpl.
    + by rewrite decide_True.
    + by rewrite decide_False.
Qed.

Lemma dict_get_set_ne k k' v d : k ≠ k' → dict_get k' (dict_set k v d) = dict_get k' d.
Proof.
  intros Hne. induction d as [|[k0 v0] d IH]; simpl.
  - by rewrite decide_False.
  - destruct (decide (k = k0)) as [->|Hne0]; simpl.
    + by rewrite !decide_False.
    + destruct (decide (k' = k0)); [done|apply IH].
Qed.

Lemma dict_set_nonempty k v d : dict_set k v d ≠ [].
Proof. destruct d as [|[k' v'] d]; simpl; [done|]. by destruct (decide (k = k')). Qed.

Lemma dict_get_elem_of k v d : dict_get k d = Some v → (k, v) ∈ d.
Proof.
  induction d as [|[k' v'] d IH]; simpl; [done|].
  destruct (decide (k = k')) as [->|Hne].
  - intros [= ->]. apply list_elem_of_here.
  - intros H. apply list_elem_of_further. by apply IH.
Qed.
End Dict.


Lemma fold_dict_set_other (mk : string → string) (key : string)
    (items : list (string * spec_float)) (d : list (string * spec_float)) :
  key ∉ (fun kv => mk kv.1) <$> items →
  dict_get key (fold_left (fun d kv => dict_set (mk kv.1) kv.2 d) items d)
  = dict_get key d.
Proof.
  revert d. induction items as [|[k v] items IH]; intros d Hnot; simpl; [done|].
  rewrite fmap_cons, not_elem_of_cons in Hnot. destruct Hnot as [Hne Hnot].
  rewrite IH by done. by apply dict_get_set_ne.
Qed.

Lemma fold_dict_set_entry (mk : string → string) (k : string) (v : spec_float)
    (items : list (string * spec_float)) (d : list (string * spec_float)) :
  NoDup ((fun kv => mk kv.1) <$> items) → (k, v) ∈ items →
  dict_get (mk k) (fold_left (fun d kv => dict_set (mk kv.1) kv.2 d) items d)
  = Some v.
Proof.
  revert d. induction items as [|[k0 v0] items IH]; intros d Hnd Hin; simpl.
  - by apply elem_of_nil in Hin.
  - rewrite fmap_cons, NoDup_cons in Hnd. destruct Hnd as [Hk0 Hnd].
    apply elem_of_cons in Hin as [[= -> ->]|Hin].
    + rewrite fold_dict_set_other by done. apply dict_get_set_eq.
    + by apply IH.
Qed.

Lemma store_loss_other (key key' : string) (loss : loss_value)
    (d : list (string * spec_float)) :
  key' ∉ keys_written key loss →
  dict_get key' (store_loss key loss d) = dict_get key' d.
Proof.
  destruct loss as [v|items]; simpl.
  - intros Hne. apply dict_get_set_ne. set_solver.
  - intros Hnot. by apply (fold_dict_set_other (fun k => key +:+ "_" +:+ k)).
Qed.

Lemma store_loss_entry (key k : string) (v : spec_float) (loss : loss_value)
    (d : list (string * spec_float)) :
  NoDup (keys_written key loss) → (k, v) ∈ entries_written key loss →
  dict_get k (store_loss key loss d) = Some v.
Proof.
  destruct loss as [v0|items]; simpl.
  - intros _ [= -> ->]%list_elem_of_singleton. apply dict_get_set_eq.
  - intros Hnd ((k0 & v0) & [= -> ->] & Hin)%list_elem_of_fmap. simpl.
    by apply (fold_dict_set_entry (fun k => key +:+ "_" +:+ k)).
Qed.

Lemma store_losses_other (out : gmap string pyobj) (key' : string)
    (fs : list (string * (gmap string pyobj → loss_value))) (d : list (string * spec_float)) :
  (∀ kf, kf ∈ fs → key' ∉ keys_written kf.1 (kf.2 out)) →
  dict_get key' (fold_left (fun d kf => store_loss kf.1 (kf.2 out) d) fs d) = dict_get key' d.
Proof.
  revert d. induction fs as [|kf fs IH]; intros d Hnot; simpl; [done|].
  rewrite IH by (intros kf' Hin; apply Hnot; by right).
  apply store_loss_other, Hnot. by left.
Qed.

(** An entry written by a loss function is in the final record unless a
    later loss function writes its key. *)
Lemma individual_losses_entry (self : TCNTrainer) (out : gmap string pyobj)
    (pre post : list (string * (gmap string pyobj → loss_value)))
    (key : string) (f : gmap string pyobj → loss_value) (k : string) (v : spec_float) :
  loss_functions self = pre ++ (key, f) :: post →
  NoDup (keys_written key (f out)) → (k, v) ∈ entries_written key (f out) →
  (∀ kf, kf ∈ post → k ∉ keys_written kf.1 (kf.2 out)) →
  dict_get k (individual_losses_of self out) = Some v.
Proof.
  intros Hfs Hnd Hin Hpost. unfold individual_losses_of.
  rewrite Hfs, fold_left_app. simpl.
  rewrite store_losses_other by done. by apply store_loss_entry.
Qed.

(** ** Not-a-number in the weighted sum *)

Lemma f32_mul_nan_r (w : spec_float) : f32_mul w S754_nan = S754_nan.
Proof. by destruct w. Qed.

Lemma f32_add_nan_l (t : spec_float) : f32_add S754_nan t = S754_nan.
Proof. done. Qed.

Lemma f32_add_nan_r (a : spec_float) : f32_add a S754_nan = S754_nan.
Proof. by destruct a. Qed.

Lemma isnan_true (f : spec_float) : isnan f = true ↔ f = S754_nan.
Proof. destruct f; simpl; split; congruence. Qed.

Lemma fold_f32_add_nan_acc (terms : list spec_float) :
  fold_left f32_add terms S754_nan = S754_nan.
Proof. induction terms as [|t terms IH]; simpl; [done|]. by rewrite IH. Qed.

Lemma fold_f32_add_nan_term (terms : list spec_float) (acc : spec_float) :
  S754_nan ∈ terms → fold_left f32_add terms acc = S754_nan.
Proof.
  revert acc. induction terms as [|t terms IH]; intros acc Hin; simpl.
  - by apply elem_of_nil in Hin.
  - apply elem_of_cons in Hin as [<-|Hin].
    + rewrite f32_add_nan_r. apply fold_f32_add_nan_acc.
    + by apply IH.
Qed.

Lemma fold_py_add_float (terms : list spec_float) (a : spec_float) :
  fold_left py_add terms (Float32 a) = Float32 (fold_left f32_add terms a).
Proof. revert a. induction terms as [|t terms IH]; intros a; simpl; [done|]. apply IH. Qed.

Lemma py_sum_nonempty (terms : list spec_float) :
  terms ≠ [] → py_sum terms = Float32 (fold_left f32_add terms f32_zero).
Proof.
  destruct terms as [|t terms]; [done|]. intros _. unfold py_sum. simpl.
  apply fold_py_add_float.
Qed.


Lemma get_batch_losses_unfold (self : TCNTrainer) (out : gmap string pyobj) :
  get_batch_losses self out
  = match py_sum (weighted_terms self (individual_losses_of self out)) with
    | PyInt _ => Raise TypeError
    | Float32 t =>
        if isnan t then Raise (RuntimeError "NaN loss encountered in test step")
        else Ok (t, individual_losses_of self out)
    end.
Proof. reflexivity. Qed.

Lemma get_batch_losses_record (self : TCNTrainer) (out : gmap string pyobj)
    (total : spec_float) (ind : list (string * spec_float)) :
  get_batch_losses self out = Ok (total, ind) → ind = individual_losses_of self out.
Proof.
  rewrite get_batch_losses_unfold.
  destruct (py_sum _) as [z|t]; [done|]. destruct (isnan t); [done|]. by intros [= _ <-].
Qed.

(** ** The sectors that can be chosen *)

Lemma elem_of_insert_unique (u v : Z) (l : list Z) :
  u ∈ insert_unique v l ↔ u = v ∨ u ∈ l.
Proof.
  induction l as [|h l IH]; simpl.
  - rewrite list_elem_of_singleton, elem_of_nil. tauto.
  - destruct (Z.ltb_spec v h); [by rewrite elem_of_cons|].
    destruct (Z.eqb_spec v h) as [->|Hne].
    + rewrite elem_of_cons. tauto.
    + rewrite !elem_of_cons, IH. tauto.
Qed.

Lemma elem_of_np_unique (u : Z) (a : ndarray) : u ∈ np_unique a ↔ u ∈ flat a.
Proof.
  unfold np_unique. induction (flat a) as [|h l IH]; simpl; [done|].
  by rewrite elem_of_insert_unique, elem_of_cons, IH.
Qed.

(** [np.unique] returns its entries in increasing order, each once. *)
Lemma insert_unique_sorted (v : Z) (l : list Z) :
  StronglySorted Z.lt l → StronglySorted Z.lt (insert_unique v l).
Proof.
  induction 1 as [|h l Hl IH Hh]; simpl; [repeat constructor|].
  destruct (Z.ltb_spec v h).
  - constructor; [by constructor|]. constructor; [done|].
    eapply Forall_impl; [exact Hh|]. simpl. lia.
  - destruct (Z.eqb_spec v h); [by constructor|].
    constructor; [done|]. apply Forall_forall. intros u [->|Hu]%elem_of_insert_unique; [lia|].
    rewrite Forall_forall in Hh. by apply Hh.
Qed.

Lemma np_unique_sorted (a : ndarray) : StronglySorted Z.lt (np_unique a).
Proof.
  unfold np_unique. induction (flat a) as [|h l IH]; simpl; [constructor|].
  by apply insert_unique_sorted.
Qed.

Lemma elem_of_remove_if_present (u v : Z) (l : list Z) :
  StronglySorted Z.lt l → u ∈ remove_if_present v l ↔ u ∈ l ∧ u ≠ v.
Proof.
  induction 1 as [|h l Hl IH Hh]; simpl; [rewrite elem_of_nil; tauto|].
  rewrite Forall_forall in Hh.
  destruct (Z.eqb_spec v h) as [->|Hne].
  - rewrite elem_of_cons. split.
    + intros Hu. split; [by right|]. specialize (Hh u Hu). lia.
    + intros [[->|Hu] Hne]; done.
  - rewrite !elem_of_cons, IH. split.
    + intros [->|[Hu Hv]]; [split; [by left|done]|]. split; [by right|done].
    + intros [[->|Hu] Hv]; [by left|]. by right.
Qed.

Lemma np_random_choice_elem_of (l : list Z) (rng rng' : RandomState) (v : Z) :
  np_random_choice l rng = Ok (v, rng') → v ∈ l.
Proof.
  unfold np_random_choice. destruct (l !! _) eqn:Hl; [|done].
  intros [= <- _]. by eapply list_elem_of_lookup_2.
Qed.

Lemma np_random_choice_total (l : list Z) (rng : RandomState) :
  l ≠ [] → ∃ v rng', np_random_choice l rng = Ok (v, rng').
Proof.
  intros Hne. unfold np_random_choice.
  destruct (lookup_lt_is_Some_2 l (draws rng (cursor rng) mod length l)%nat) as [v ->].
  - apply Nat.mod_upper_bound. by destruct l.
  - eauto.
Qed.

(** ** The cache of [_get_sector_to_study] *)

(** A call that returns leaves the sector of its graph in the cache, and
    keeps what the cache held before. *)
Lemma get_sector_caches (self self' : ClusterHyperParamScanner) (rng rng' : RandomState)
    (i s : Z) :
  _get_sector_to_study self rng i = Ok (s, self', rng') →
  _graph_to_sector self' !! i = Some s
  ∧ sectors self' = sectors self
  ∧ ∀ j t, _graph_to_sector self !! j = Some t → _graph_to_sector self' !! j = Some t.
Proof.
  unfold _get_sector_to_study.
  destruct (_graph_to_sector self !! i) as [s0|] eqn:Hc.
  - intros [= <- <- <-]. done.
  - intros H. bind_inv H. bind_inv H. injection H as <- <- <-. simpl.
    split; [apply lookup_insert_eq|]. split; [done|].
    intros j t Hj. rewrite lookup_insert_ne; [done|]. congruence.
Qed.

Lemma get_sector_cached (self : ClusterHyperParamScanner) (rng : RandomState) (i s : Z) :
  _graph_to_sector self !! i = Some s →
  _get_sector_to_study self rng i = Ok (s, self, rng).
Proof. intros Hc. unfold _get_sector_to_study. by rewrite Hc. Qed.

Lemma later_keeps_cache (self self' : ClusterHyperParamScanner) (i s : Z) :
  later self self' → _graph_to_sector self !! i = Some s →
  _graph_to_sector self' !! i = Some s.
Proof.
  induction 1 as [|self rng j t self' rng' self'' Hcall _ IH]; [done|].
  intros Hc. apply IH. by apply (get_sector_caches _ _ _ _ _ _ Hcall).
Qed.

Lemma later_keeps_sectors (self self' : ClusterHyperParamScanner) :
  later self self' → sectors self' = sectors self.
Proof.
  induction 1 as [|self rng j t self' rng' self'' Hcall _ IH]; [done|].
  rewrite IH. by apply (get_sector_caches _ _ _ _ _ _ Hcall).
Qed.

(** A sector chosen on a miss of the cache is a sector of the graph and
    is not the background sector. *)
Lemma get_sector_fresh (self self' : ClusterHyperParamScanner) (rng rng' : RandomState)
    (i s : Z) :
  _graph_to_sector self !! i = None →
  _get_sector_to_study self rng i = Ok (s, self', rng') →
  s ≠ -1 ∧ ∃ a, list_get (sectors self) i = Ok a ∧ s ∈ flat a.
Proof.
  intros Hc. unfold _get_sector_to_study. rewrite Hc. intros H.
  bind_inv H. bind_inv H. injection H as <- _ _.
  destruct v0 as [c rng1]. apply np_random_choice_elem_of in Hv0.
  apply elem_of_remove_if_present in Hv0 as [Hin Hne]; [|apply np_unique_sorted].
  apply elem_of_np_unique in Hin. simpl. eauto.
Qed.

Lemma get_sector_total (self : ClusterHyperParamScanner) (rng : RandomState) (i : Z)
    (a : ndarray) (v : Z) :
  list_get (sectors self) i = Ok a → v ∈ flat a → v ≠ -1 →
  ∃ s self' rng', _get_sector_to_study self rng i = Ok (s, self', rng').
Proof.
  intros Ha Hv Hne. unfold _get_sector_to_study.
  destruct (_graph_to_sector self !! i) as [s0|]; [eauto|].
  rewrite Ha. simpl.
  destruct (np_random_choice_total (remove_if_present (-1) (np_unique a)) rng)
    as (c & rng' & ->).
  - intros Hnil.
    assert (v ∈ remove_if_present (-1) (np_unique a)) as Hin.
    { apply elem_of_remove_if_present; [apply np_unique_sorted|].
      split; [by apply elem_of_np_unique|done]. }
    rewrite Hnil in Hin. by apply elem_of_nil in Hin.
  - simpl. eauto.
Qed.

Lemma get_sector_cache_ok (self self' : ClusterHyperParamScanner) (rng rng' : RandomState)
    (i s : Z) :
  cache_ok self → _get_sector_to_study self rng i = Ok (s, self', rng') → cache_ok self'.
Proof.
  intros Hok Hcall. destruct (_graph_to_sector self !! i) as [s0|] eqn:Hc.
  - rewrite (get_sector_cached _ rng _ _ Hc) in Hcall. by injection Hcall as <- <- <-.
  - destruct (get_sector_fresh _ _ _ _ _ _ Hc Hcall) as [Hne _].
    unfold _get_sector_to_study in Hcall. rewrite Hc in Hcall.
    bind_inv Hcall. bind_inv Hcall. injection Hcall as <- <- <-.
    intros j t. simpl. destruct (decide (i = j)) as [->|Hij].
    + rewrite lookup_insert_eq. by intros [= <-].
    + rewrite lookup_insert_ne by done. apply Hok.
Qed.

Lemma later_cache_ok (self self' : ClusterHyperParamScanner) :
  later self self' → cache_ok self → cache_ok self'.
Proof.
  induction 1 as [|self rng j t self' rng' self'' Hcall _ IH]; [done|].
  intros Hok. apply IH. by eapply get_sector_cache_ok.
Qed.

Lemma init_cache_empty graphs truth guide metrics sectors guide_proxy self :
  __init__ graphs truth guide metrics sectors guide_proxy = Ok self →
  _graph_to_sector self = ∅.
Proof.
  unfold __init__. repeat (match goal with |- context [if ?b then _ else _] => destruct b end; [done|]).
  intros H. bind_inv H. by injection H as <-.
Qed.

(** ** More about [get_masks] *)

Lemma tensor_get_out_of_range {A} (t : list A) (i : Z) :
  ¬ (- Z.of_nat (length t) <= i < Z.of_nat (length t)) → tensor_get t i = Raise IndexError.
Proof.
  intros Hi. unfold tensor_get.
  destruct (Z.ltb_spec i 0).
  - destruct (Z.leb_spec 0 (Z.of_nat (length t) + i)); [lia|done].
  - destruct (Z.leb_spec 0 i); [|lia].
    destruct (Z.ltb_spec i (Z.of_nat (length t))); [lia|done].
Qed.

Lemma tensor_get_error {A} (t : list A) (i : Z) (e : exn) :
  tensor_get t i = Raise e → e = IndexError.
Proof.
  unfold tensor_get. destruct (_ && _); [|congruence].
  destruct (t !! _); congruence.
Qed.

Lemma index_select_error {A} (t : list A) (idx : list Z) (e : exn) :
  index_select t idx = Raise e → e = IndexError.
Proof.
  induction idx as [|i idx IH]; simpl; [done|].
  destruct (tensor_get t i) eqn:Hi; simpl; [|intros [= <-]; by eapply tensor_get_error].
  destruct (index_select t idx); simpl; [done|]. intros [= <-]. by apply IH.
Qed.

Lemma index_select_ok_iff {A} (t : list A) (idx : list Z) :
  is_ok (index_select t idx) = true
  ↔ Forall (fun i => - Z.of_nat (length t) <= i < Z.of_nat (length t)) idx.
Proof.
  split.
  - induction idx as [|i idx IH]; simpl; [constructor|].
    destruct (decide (- Z.of_nat (length t) <= i < Z.of_nat (length t))) as [Hi|Hi].
    + destruct (tensor_get t i); simpl; [|done].
      destruct (index_select t idx); simpl; [|done]. intros _. constructor; [done|]. by apply IH.
    + by rewrite (tensor_get_out_of_range t i Hi).
  - intros H. by destruct (index_select_total t idx H) as [r ->].
Qed.

Section GetMasksMore.
Variable self : TrainingTruthCutConfig.

(** The node mask depends on the node tensors only. *)
Lemma get_masks_nodes_consistent data :
  nodes_consistent data →
  ∃ nm,
    length nm = length (x data)
    ∧ (get_masks self data =
         src ← index_select nm (fst <$> edge_index data);
         dst ← index_select nm (snd <$> edge_index data);
         Ok (nm, zip_with andb src dst))
    ∧ ∀ (i : nat) pid p r,
        particle_id data !! i = Some pid → pt data !! i = Some p →
        reconstructable data !! i = Some r →
        nm !! i = Some (passes_pt_cut self pid p && passes_noise_cut self pid
                        && passes_reconstructable_cut self r).
Proof.
  intros (Hpt & Hpid & Hreco).
  assert (wf_data (mkData (x data) [] [] [] (pt data) (particle_id data)
                     (reconstructable data) (replicate (length (x data)) 0))) as Hwf.
  { split; simpl; rewrite ?length_replicate; try done. }
  destruct (get_masks_nodes self _ Hwf) as (nm & Hlen & Heq & Hform).
  exists nm. split; [done|]. split; [|done].
  unfold get_masks in *. cbn [x pt particle_id reconstructable edge_index] in Heq.
  simpl in Heq.
  match type of Heq with ?m ≫= _ = _ => destruct m as [nm1|] eqn:H1 end; [|done].
  cbn [mbind result_bind] in Heq |- *.
  match type of Heq with ?m ≫= _ = _ => destruct m as [nm2|] eqn:H2 end; [|done].
  cbn [mbind result_bind] in Heq |- *.
  match type of Heq with ?m ≫= _ = _ => destruct m as [nm3|] eqn:H3 end; [|done].
  cbn [mbind result_bind] in Heq |- *. by injection Heq as ->.
Qed.

Lemma get_masks_error data e :
  nodes_consistent data → get_masks self data = Raise e → e = IndexError.
Proof.
  intros Hc. destruct (get_masks_nodes_consistent data Hc) as (nm & _ & -> & _).
  destruct (index_select nm (fst <$> edge_index data)) eqn:Hs; simpl;
    [|intros [= <-]; by eapply index_select_error].
  destruct (index_select nm (snd <$> edge_index data)) eqn:Hd; simpl; [done|].
  intros [= <-]. by eapply index_select_error.
Qed.

Lemma get_masks_ok_iff data :
  nodes_consistent data →
  is_ok (get_masks self data) = true
  ↔ Forall (edge_in_bounds (length (x data))) (edge_index data).
Proof.
  intros Hc. destruct (get_masks_nodes_consistent data Hc) as (nm & Hlen & -> & _).
  pose proof (index_select_ok_iff nm (fst <$> edge_index data)) as Hs.
  pose proof (index_select_ok_iff nm (snd <$> edge_index data)) as Hd.
  rewrite Hlen, Forall_fmap in Hs, Hd. unfold edge_in_bounds.
  rewrite Forall_and, <- Hs, <- Hd.
  destruct (index_select nm (fst <$> _)); simpl; [|intuition congruence].
  destruct (index_select nm (snd <$> _)); simpl; intuition congruence.
Qed.
End GetMasksMore.

Lemma passes_pt_cut_true (self : TrainingTruthCutConfig) (pid : Z) (p : Q) :
  passes_pt_cut self pid p = true
  ↔ (pt_thld self <= 0)%Q ∨ pid <= 0 ∨ (round_float32 (pt_thld self) < p)%Q.
Proof.
  unfold passes_pt_cut. destruct (Qgtb (pt_thld self) 0) eqn:Ht.
  - apply Qgtb_lt in Ht. destruct (Z.ltb_spec 0 pid).
    + rewrite gt_scalar_lt. split; [tauto|]. intros [H0|[H0|H0]]; [|lia|done].
      exfalso. by apply (Qlt_not_le _ _ Ht).
    + split; [right; left; lia|done].
  - apply Qgtb_le in Ht. tauto.
Qed.

Lemma passes_noise_cut_true (self : TrainingTruthCutConfig) (pid : Z) :
  passes_noise_cut self pid = true ↔ (without_noise self = true → 0 < pid).
Proof.
  unfold passes_noise_cut. destruct (without_noise self).
  - rewrite Z.ltb_lt. tauto.
  - split; [done|done].
Qed.

Lemma passes_reconstructable_cut_true (self : TrainingTruthCutConfig) (r : Z) :
  passes_reconstructable_cut self r = true
  ↔ (without_non_reconstructable self = true → 0 < r).
Proof.
  unfold passes_reconstructable_cut. destruct (without_non_reconstructable self).
  - rewrite Z.ltb_lt. tauto.
  - split; [done|done].
Qed.

Lemma get_masks_in_bounds_total (self : TrainingTruthCutConfig) (data : Data) :
  nodes_consistent data → Forall (edge_in_bounds (length (x data))) (edge_index data) →
  ∃ nm em, get_masks self data = Ok (nm, em).
Proof.
  intros Hc Hb. apply (get_masks_ok_iff self data Hc) in Hb.
  destruct (get_masks self data) as [[nm em]|]; [eauto|done].
Qed.

Lemma isclose_zero_iff (t : Q) : isclose t 0 = true ↔ (Qabs t <= atol)%Q.
Proof.
  unfold isclose. rewrite Qle_bool_iff.
  assert (t - 0 == t)%Q as -> by ring.
  assert (atol + rtol * Qabs 0 == atol)%Q as -> by reflexivity.
  done.
Qed.

Lemma tensor_get_mono (nm1 nm2 : list bool) (s : Z) :
  length nm1 = length nm2 →
  (∀ i : nat, nm2 !! i = Some true → nm1 !! i = Some true) →
  tensor_get nm2 s = Ok true → tensor_get nm1 s = Ok true.
Proof.
  intros Hl Hmono. unfold tensor_get. rewrite Hl.
  destruct (_ && _); [|done].
  destruct (nm2 !! Z.to_nat _) as [b|] eqn:Hb; [|done].
  intros [= ->]. by rewrite (Hmono _ Hb).
Qed.

Lemma passes_cuts_mono (c1 c2 : TrainingTruthCutConfig) (pid : Z) (p : Q) (r : Z) :
  stricter c1 c2 →
  passes_pt_cut c2 pid p && passes_noise_cut c2 pid && passes_reconstructable_cut c2 r = true →
  passes_pt_cut c1 pid p && passes_noise_cut c1 pid && passes_reconstructable_cut c1 r = true.
Proof.
  intros (Hpt & Hnoise & Hreco).
  rewrite !andb_true_iff, !passes_pt_cut_true, !passes_noise_cut_true,
    !passes_reconstructable_cut_true.
  intros [[Hp Hn] Hr]. split; [split|]; [|tauto|tauto].
  destruct Hp as [Hp|[Hp|Hp]]; [left|by right; left|right; right].
  - by apply (Qle_trans _ (pt_thld c2)).
  - apply (Qle_lt_trans _ (round_float32 (pt_thld c2))); [|done].
    by apply round_float32_mono.
Qed.

(** ** More about [_apply_mask] *)

Lemma select_lookup_rank {A} (l : list A) (nm : list bool) (i : nat) :
  length l = length nm → nm !! i = Some true → select l nm !! rank nm i = l !! i.
Proof.
  revert l i. induction nm as [|b nm IH]; intros [|a l] i Hl Hi; try done.
  injection Hl as Hl. destruct i as [|i]; simpl in Hi.
  - injection Hi as ->. by rewrite rank_0.
  - rewrite rank_S. destruct b; simpl; by apply IH.
Qed.

Lemma select_lookup_inv {A} (l : list A) (nm : list bool) (j : nat) (a : A) :
  length l = length nm → select l nm !! j = Some a →
  ∃ i : nat, nm !! i = Some true ∧ rank nm i = j ∧ l !! i = Some a.
Proof.
  intros Hl Hj. pose proof (lookup_lt_Some _ _ _ Hj) as Hlt.
  rewrite length_select in Hlt by done.
  destruct (rank_onto nm j Hlt) as (i & Hi & Hr). exists i. split; [done|]. split; [done|].
  by rewrite <- (select_lookup_rank l nm i Hl Hi), Hr.
Qed.

Lemma select_elem_of {A} (l : list A) (mask : list bool) (i : nat) (a : A) :
  l !! i = Some a → mask !! i = Some true → a ∈ select l mask.
Proof.
  revert mask i. induction l as [|a0 l IH]; intros [|b mask] [|i]; simpl; try done.
  - intros [= ->] [= ->]. apply list_elem_of_here.
  - intros Ha Hi. destruct b; [apply list_elem_of_further|]; by eapply IH.
Qed.

Lemma survives_mapping (nm : list bool) (key : Z) :
  is_Some (edge_index_mapping nm !! key) ↔ survives nm key.
Proof.
  unfold survives. split.
  - intros [v (i & -> & Hi & _)%edge_index_mapping_lookup]. eauto.
  - intros (i & -> & Hi). eexists. apply edge_index_mapping_lookup. eauto.
Qed.

Lemma map_get_error (m : gmap Z Z) (arr : list Z) (e : exn) :
  map_get m arr = Raise e → e = TypeError.
Proof.
  induction arr as [|a arr IH]; simpl; [done|].
  destruct (m !! a); [|by intros [= <-]].
  destruct (map_get m arr); simpl; [done|]. intros [= <-]. by apply IH.
Qed.

Lemma map_get_ok_iff (m : gmap Z Z) (arr : list Z) :
  is_ok (map_get m arr) = true ↔ Forall (fun a => is_Some (m !! a)) arr.
Proof.
  split.
  - induction arr as [|a arr IH]; simpl; [constructor|].
    destruct (m !! a) eqn:Ha; [|done].
    destruct (map_get m arr); simpl; [|done]. intros _. constructor; [by eexists|]. by apply IH.
  - intros H. by destruct (map_get_total m arr H) as [r ->].
Qed.

(** The batch that [_apply_mask] returns is well formed. *)
Lemma apply_mask_wf (data d' : Data) (nm em : list bool) :
  wf_data data → _apply_mask data nm em = Ok d' →
  wf_data d'
  ∧ length (x d') = popcount nm
  ∧ length (edge_index d') = popcount em.
Proof.
  intros [Hpt Hpid Hreco Hsec Hy Hattr _] H.
  apply apply_mask_inv in H
    as (_ & Hem & Hnm & Hx & Hy' & Hattr' & Hpt' & Hpid' & Hreco' & Hsec' & Hedges).
  pose proof (Forall2_length _ _ _ Hedges) as Hlen.
  rewrite length_select in Hlen by done.
  assert (length (x d') = popcount nm) as Hk by (by rewrite Hx, length_select).
  split; [|done].
  split; rewrite ?Hx, ?Hy', ?Hattr', ?Hpt', ?Hpid', ?Hreco', ?Hsec', ?length_select;
    try congruence.
  apply Forall_forall. intros [s d] Hin.
  apply list_elem_of_lookup in Hin as [j Hj].
  destruct (Forall2_lookup_r _ _ _ _ _ Hedges Hj) as ([s0 d0] & _ & Hs & Hd). simpl in *.
  apply edge_index_mapping_lookup in Hs as (i1 & _ & Hi1 & ->).
  apply edge_index_mapping_lookup in Hd as (i2 & _ & Hi2 & ->).
  pose proof (rank_lt_popcount nm i1 Hi1). pose proof (rank_lt_popcount nm i2 Hi2). lia.
Qed.

Lemma apply_mask_no_edge (data : Data) (nm em : list bool) :
  length nm ≠ 1%nat →
  length em = length (edge_index data) → select (edge_index data) em = [] →
  _apply_mask data nm em = Raise ValueError.
Proof.
  intros Hone Hem Hnil. unfold _apply_mask.
  rewrite (getitem_mask nm Hone). cbn [mbind result_bind].
  rewrite length_select, !length_np_arange, Nat.eqb_refl by (by rewrite length_np_arange).
  cbn [negb]. rewrite (masked_select_Ok (fst <$> edge_index data) em)
    by (by rewrite length_fmap).
  cbn [mbind result_bind]. by rewrite select_fmap, Hnil.
Qed.

Lemma apply_mask_dangling (data : Data) (nm em : list bool) :
  length nm ≠ 1%nat →
  length em = length (edge_index data) → select (edge_index data) em ≠ [] →
  ¬ Forall (fun e => survives nm e.1 ∧ survives nm e.2) (select (edge_index data) em) →
  _apply_mask data nm em = Raise TypeError.
Proof.
  intros Hone Hem Hne Hbad. unfold _apply_mask.
  rewrite (getitem_mask nm Hone). cbn [mbind result_bind].
  rewrite length_select, !length_np_arange, Nat.eqb_refl by (by rewrite length_np_arange).
  cbn [negb]. fold (edge_index_mapping nm).
  rewrite (masked_select_Ok (fst <$> edge_index data) em) by (by rewrite length_fmap).
  rewrite (masked_select_Ok (snd <$> edge_index data) em) by (by rewrite length_fmap).
  cbn [mbind result_bind]. rewrite !select_fmap.
  rewrite !np_vectorize_get_nonempty by (intros Hnil%fmap_nil_inv; done).
  destruct (map_get (edge_index_mapping nm) (fst <$> select (edge_index data) em))
    as [src|e] eqn:Hsrc.
  - cbn [mbind result_bind].
    destruct (map_get (edge_index_mapping nm) (snd <$> select (edge_index data) em))
      as [dst|e] eqn:Hdst.
    + exfalso. apply Hbad.
      assert (is_ok (map_get (edge_index_mapping nm)
                       (fst <$> select (edge_index data) em)) = true) as H1
        by (by rewrite Hsrc).
      assert (is_ok (map_get (edge_index_mapping nm)
                       (snd <$> select (edge_index data) em)) = true) as H2
        by (by rewrite Hdst).
      rewrite map_get_ok_iff, Forall_fmap in H1, H2.
      rewrite Forall_and. split.
      * eapply Forall_impl; [exact H1|]. intros e. apply survives_mapping.
      * eapply Forall_impl; [exact H2|]. intros e. apply survives_mapping.
    + cbn [mbind result_bind]. by rewrite (map_get_error _ _ _ Hdst).
  - cbn [mbind result_bind]. by rewrite (map_get_error _ _ _ Hsrc).
Qed.

Lemma all_true_replicate (nm : list bool) (k : nat) :
  length nm = k → (∀ j : nat, (j < k)%nat → nm !! j = Some true) → nm = replicate k true.
Proof.
  intros Hl Hall. apply list_eq. intros j.
  destruct (Nat.lt_ge_cases j k) as [Hj|Hj].
  - by rewrite Hall, lookup_replicate_2.
  - rewrite (lookup_ge_None_2 nm) by lia. symmetry. by apply lookup_replicate_None.
Qed.

(** On the batch that the cuts leave, the same cuts keep everything. *)
Lemma get_masks_after_apply_mask (self : TrainingTruthCutConfig) (data d' : Data)
    (nm em : list bool) :
  wf_data data → get_masks self data = Ok (nm, em) → _apply_mask data nm em = Ok d' →
  get_masks self d'
  = Ok (replicate (length (x d')) true, replicate (length (edge_index d')) true).
Proof.
  intros Hwf Hget Happly.
  destruct (apply_mask_wf data d' nm em Hwf Happly) as (Hwf' & Hk & _).
  destruct (get_masks_nodes self data Hwf) as (nm0 & Hlen & Heq & Hform).
  assert (nm0 = nm) as ->.
  { rewrite Heq in Hget. bind_inv Hget. bind_inv Hget. by injection Hget. }
  apply apply_mask_inv in Happly
    as (_ & _ & Hnm & _ & _ & _ & Hpt' & Hpid' & Hreco' & _ & _).
  destruct (get_masks_nodes self d' Hwf') as (nm' & Hlen' & Heq' & Hform').
  assert (nm' = replicate (length (x d')) true) as ->.
  { apply all_true_replicate; [done|]. intros j Hj.
    destruct (lookup_lt_is_Some_2 (particle_id d') j) as [pid Hpid];
      [by rewrite (wf_particle_id _ Hwf')|].
    destruct (lookup_lt_is_Some_2 (pt d') j) as [p Hp]; [by rewrite (wf_pt _ Hwf')|].
    destruct (lookup_lt_is_Some_2 (reconstructable d') j) as [r Hr];
      [by rewrite (wf_reconstructable _ Hwf')|].
    rewrite (Hform' j pid p r Hpid Hp Hr).
    rewrite Hpid' in Hpid. rewrite Hpt' in Hp. rewrite Hreco' in Hr.
    apply select_lookup_inv in Hpid as (i1 & Hi1 & Hr1 & Hpid);
      [|by rewrite (wf_particle_id _ Hwf)].
    apply select_lookup_inv in Hp as (i2 & Hi2 & Hr2 & Hp); [|by rewrite (wf_pt _ Hwf)].
    apply select_lookup_inv in Hr as (i3 & Hi3 & Hr3 & Hr);
      [|by rewrite (wf_reconstructable _ Hwf)].
    assert (i2 = i1) as -> by (apply (rank_inj nm); congruence).
    assert (i3 = i1) as -> by (apply (rank_inj nm); congruence).
    rewrite <- (Hform i1 pid p r Hpid Hp Hr). by rewrite Hi1. }
  rewrite Heq'. destruct Hwf' as [_ _ _ _ _ _ Hedges'].
  rewrite !index_select_replicate.
  - simpl. by rewrite !length_fmap, zip_with_and_replicate_true.
  - apply Forall_fmap. eapply Forall_impl; [exact Hedges'|].
    intros [s d] [? ?]; simpl in *; lia.
  - apply Forall_fmap. eapply Forall_impl; [exact Hedges'|].
    intros [s d] [? ?]; simpl in *; lia.
Qed.

(** ** More about [evaluate_model], the loss record and the training loop *)

Lemma count_event_app (p : event → bool) (tr1 tr2 : list event) :
  count_event p (tr1 ++ tr2) = (count_event p tr1 + count_event p tr2)%nat.
Proof. induction tr1 as [|e tr1 IH]; simpl; [done|]. rewrite IH. lia. Qed.

Lemma mul_long_same_length (a b : list Z) :
  length a = length b → mul_long a b = Ok (zip_with mul_int64 a b).
Proof. intros Hl. unfold mul_long. by rewrite Hl, Nat.eqb_refl. Qed.

Lemma wrap_int64_small (z : Z) : - 2 ^ 63 <= z < 2 ^ 63 → wrap_int64 z = z.
Proof. intros Hz. unfold wrap_int64. rewrite Z.mod_small; lia. Qed.

Lemma wrap_int64_range (z : Z) : - 2 ^ 63 <= wrap_int64 z < 2 ^ 63.
Proof.
  unfold wrap_int64. pose proof (Z.mod_pos_bound (z + 2 ^ 63) (2 ^ 64) ltac:(lia)). lia.
Qed.

(** What the trace of [evaluate_model] holds: no call of the batch hooks
    or of the optimizer, and at most one pass through the network, which
    has taken place when the call returns. *)
Lemma evaluate_model_counts (self : TCNTrainer) (θ : list Q) (data : Data) (m a : bool) :
  let r := evaluate_model self θ data m a in
  count_event is_optimizer_step (trace r) = 0%nat
  ∧ (count_event is_forward (trace r) ≤ 1)%nat
  ∧ (is_ok (outcome r) = true → count_event is_forward (trace r) = 1%nat).
Proof.
  unfold evaluate_model. destruct a.
  - destruct (get_masks (training_truth_cuts self) data) as [[nm em]|];
      [|cbn; repeat split; (done || (vm_compute; lia))].
    destruct (_apply_mask data nm em) eqn:Happly; cbn; rewrite Happly; cbn;
      [|repeat split; (done || (vm_compute; lia))].
    destruct m; [destruct (mul_long _ _)|]; cbn; repeat split; (done || (vm_compute; lia)).
  - cbn. destruct m; [destruct (mul_long _ _)|]; cbn; repeat split; (done || (vm_compute; lia)).
Qed.

Section DictInvariant.
Context {V : Type}.
Implicit Types (d : list (string * V)) (k : string) (v : V).

Lemma elem_of_dict_set k v k' v' d :
  (k', v') ∈ dict_set k v d → (k', v') = (k, v) ∨ (k', v') ∈ d.
Proof.
  induction d as [|[k0 v0] d IH]; simpl.
  - intros ->%list_elem_of_singleton. by left.
  - destruct (decide (k = k0)) as [->|Hne].
    + intros [->|Hin]%elem_of_cons; [by left|]. right. by apply list_elem_of_further.
    + intros [->|Hin]%elem_of_cons; [right; apply list_elem_of_here|].
      destruct (IH Hin) as [?|?]; [by left|]. right. by apply list_elem_of_further.
Qed.

Lemma dict_set_keys k v k' d : k' ∈ (dict_set k v d).*1 → k' = k ∨ k' ∈ d.*1.
Proof.
  intros ((k0 & v0) & -> & Hin)%list_elem_of_fmap. simpl.
  apply elem_of_dict_set in Hin as [[= -> ->]|Hin]; [by left|].
  right. apply list_elem_of_fmap. by exists (k0, v0).
Qed.

Lemma dict_set_NoDup k v d : NoDup d.*1 → NoDup (dict_set k v d).*1.
Proof.
  induction d as [|[k0 v0] d IH]; simpl; [intros _; apply NoDup_singleton|].
  rewrite NoDup_cons. intros [Hk0 Hd]. destruct (decide (k = k0)) as [->|Hne]; simpl.
  - by apply NoDup_cons.
  - apply NoDup_cons. split; [|by apply IH].
    intros [->|Hin]%dict_set_keys; done.
Qed.
End DictInvariant.

Lemma store_loss_NoDup (key : string) (loss : loss_value) (d : list (string * spec_float)) :
  NoDup d.*1 → NoDup (store_loss key loss d).*1.
Proof.
  destruct loss as [v|items]; simpl; [apply dict_set_NoDup|].
  revert d. induction items as [|[k v] items IH]; intros d Hd; simpl; [done|].
  by apply IH, dict_set_NoDup.
Qed.

Lemma elem_of_store_loss (key : string) (loss : loss_value) (d : list (string * spec_float))
    (k : string) (v : spec_float) :
  (k, v) ∈ store_loss key loss d → (k, v) ∈ entries_written key loss ∨ (k, v) ∈ d.
Proof.
  destruct loss as [v0|items]; simpl.
  - intros [->|?]%elem_of_dict_set; [left; apply list_elem_of_here|by right].
  - revert d. induction items as [|[k0 v0] items IH]; intros d; simpl; [by right|].
    intros [Hin|Hin]%IH.
    + left. by apply list_elem_of_further.
    + apply elem_of_dict_set in Hin as [->|Hin]; [left; apply list_elem_of_here|by right].
Qed.

Lemma individual_losses_invariant (self : TCNTrainer) (out : gmap string pyobj) :
  NoDup (individual_losses_of self out).*1
  ∧ ∀ k v, (k, v) ∈ individual_losses_of self out →
      ∃ kf, kf ∈ loss_functions self ∧ (k, v) ∈ entries_written kf.1 (kf.2 out).
Proof.
  unfold individual_losses_of.
  assert (∀ fs d,
            NoDup d.*1 →
            NoDup (fold_left (fun d kf => store_loss kf.1 (kf.2 out) d) fs d).*1
            ∧ ∀ k v, (k, v) ∈ fold_left (fun d kf => store_loss kf.1 (kf.2 out) d) fs d →
                (k, v) ∈ d ∨ ∃ kf, kf ∈ fs ∧ (k, v) ∈ entries_written kf.1 (kf.2 out)) as H.
  { induction fs as [|kf fs IH]; intros d Hd; simpl; [split; [done|by left]|].
    destruct (IH (store_loss kf.1 (kf.2 out) d) (store_loss_NoDup _ _ _ Hd)) as [Hnd Hin].
    split; [done|]. intros k v [Hkv|(kf' & Hkf' & Hkv)]%Hin.
    - apply elem_of_store_loss in Hkv as [Hkv|Hkv]; [|by left].
      right. exists kf. split; [apply list_elem_of_here|done].
    - right. exists kf'. split; [by apply list_elem_of_further|done]. }
  destruct (H (loss_functions self) [] (NoDup_nil_2)) as [Hnd Hin].
  split; [done|]. intros k v [Hkv|?]%Hin; [by apply elem_of_nil in Hkv|done].
Qed.

(** In the training loop the optimizer is stepped once for every batch
    whose body runs through, after the hooks, which come after the pass
    through the network. *)
Lemma train_loop_counts (self : TCNTrainer) (max_batches : option Z) (loader : list Data)
    (batch_idx : nat) (st : train_state) :
  let r := train_loop self max_batches batch_idx loader st in
  let reached := within max_batches batch_idx (length loader) in
  (count_event is_optimizer_step (trace r) ≤ length (hooked (trace r)))%nat
  ∧ (length (hooked (trace r)) ≤ count_event is_forward (trace r))%nat
  ∧ (count_event is_forward (trace r) ≤ S (count_event is_optimizer_step (trace r)))%nat
  ∧ ∀ st', outcome r = Ok st' →
      count_event is_optimizer_step (trace r) = reached
      ∧ count_event is_forward (trace r) = reached
      ∧ params st' = fold_left (optimizer_step self) (take reached loader) (params st).
Proof.
  revert batch_idx st. induction loader as [|data loader IH]; intros batch_idx st.
  { cbn. repeat split; try lia; by injection H as <-. }
  cbn [train_loop within length].
  destruct (past_max_batches max_batches batch_idx).
  { cbn. repeat split; try lia; by injection H as <-. }
  specialize (IH (S batch_idx)).
  set (ev := evaluate_model self (params st) data true true).
  pose proof (evaluate_model_no_hooks self (params st) data true true) as Hnh.
  pose proof (evaluate_model_counts self (params st) data true true) as (Hopt & Hfw1 & Hfw).
  fold ev in Hnh, Hopt, Hfw1, Hfw.
  rewrite trace_bind, outcome_bind.
  destruct (outcome ev) as [model_output|e] eqn:Hev.
  - specialize (Hfw eq_refl).
    rewrite trace_bind, outcome_bind. cbn [emit outcome trace].
    rewrite trace_bind, outcome_bind. cbn [lift outcome trace].
    destruct (get_batch_losses self model_output) as [losses|e] eqn:Hgbl.
    + rewrite trace_bind, outcome_bind. cbn [emit outcome trace].
      set (st' := mkTrainState _ _).
      destruct (IH st') as (IH1 & IH2 & IH3 & IH4).
      rewrite !hooked_app, !count_event_app, Hnh, Hopt, Hfw. cbn.
      split; [lia|]. split; [lia|]. split; [lia|].
      intros st'' Hok. destruct (IH4 st'' Hok) as (-> & -> & ->). done.
    + rewrite !hooked_app, !count_event_app, Hnh, Hopt, Hfw. cbn.
      split; [lia|]. split; [lia|]. split; [lia|]. done.
  - rewrite Hnh, Hopt. cbn. split; [lia|]. split; [lia|]. split; [lia|]. done.
Qed.

(** *** The table of the losses of an epoch *)

Lemma string_length_app (a b : string) :
  String.length (a +:+ b) = (String.length a + String.length b)%nat.
Proof. induction a as [|c a IH]; simpl; [done|]. by rewrite IH. Qed.

Lemma weighted_ne_total (k : string) : k +:+ "_weighted" ≠ "total".
Proof.
  intros H. apply (f_equal String.length) in H. rewrite string_length_app in H.
  simpl in H. lia.
Qed.

Lemma record_losses_total (self : TCNTrainer) (batch_loss : spec_float)
    (batch_losses : list (string * spec_float)) (d : list (string * list spec_float)) :
  (∀ k, k ∈ batch_losses.*1 → k ≠ "total") →
  dict_get "total" (record_losses self batch_loss batch_losses d)
  = Some (default [] (dict_get "total" d) ++ [batch_loss]).
Proof.
  unfold record_losses. intros Hk.
  assert (∀ d0,
            dict_get "total"
              (fold_left
                 (fun d kv =>
                    dict_append (kv.1 +:+ "_weighted") (f64_mul kv.2 (loss_weight self kv.1))
                      (dict_append kv.1 kv.2 d)) batch_losses d0)
            = dict_get "total" d0) as Hfold.
  { induction batch_losses as [|[k v] bls IH]; intros d0; simpl; [done|].
    rewrite IH.
    2: { intros k' Hk'. apply Hk. rewrite fmap_cons. by apply list_elem_of_further. }
    unfold dict_append. rewrite !dict_get_set_ne; [done| |].
    - apply Hk. rewrite fmap_cons. apply list_elem_of_here.
    - apply weighted_ne_total. }
  rewrite Hfold. unfold dict_append. by rewrite dict_get_set_eq.
Qed.

Lemma get_batch_losses_not_nan (self : TCNTrainer) (out : gmap string pyobj)
    (total : spec_float) (ind : list (string * spec_float)) :
  get_batch_losses self out = Ok (total, ind) → isnan total = false.
Proof.
  rewrite get_batch_losses_unfold.
  destruct (py_sum _) as [z|t]; [done|]. destruct (isnan t) eqn:Hn; [done|].
  by intros [= <- _].
Qed.

Lemma individual_losses_keys (self : TCNTrainer) (out : gmap string pyobj) (k : string) :
  k ∈ (individual_losses_of self out).*1 →
  ∃ kf, kf ∈ loss_functions self ∧ k ∈ keys_written kf.1 (kf.2 out).
Proof.
  intros ([k' v] & -> & Hin)%list_elem_of_fmap.
  destruct (individual_losses_invariant self out) as [_ H].
  destruct (H k' v Hin) as (kf & Hkf & Hw). exists kf. split; [done|].
  unfold entries_written in Hw. unfold keys_written.
  destruct (kf.2 out) as [s|items]; simpl in *.
  - apply list_elem_of_singleton in Hw. injection Hw as -> _. apply list_elem_of_here.
  - apply list_elem_of_fmap in Hw as ([k0 v0] & [= -> ->] & Hin0).
    apply list_elem_of_fmap. by exists (k0, v0).
Qed.

Lemma train_loop_totals (self : TCNTrainer) (max_batches : option Z) (loader : list Data)
    (batch_idx : nat) (st st' : train_state) :
  (∀ out kf, kf ∈ loss_functions self → "total" ∉ keys_written kf.1 (kf.2 out)) →
  outcome (train_loop self max_batches batch_idx loader st) = Ok st' →
  ∃ totals,
    length totals = within max_batches batch_idx (length loader)
    ∧ Forall (fun t => isnan t = false) totals
    ∧ (totals = [] → st' = st)
    ∧ (totals ≠ [] →
       dict_get "total" (_losses st')
       = Some (default [] (dict_get "total" (_losses st)) ++ totals)).
Proof.
  intros Hkeys. revert batch_idx st. induction loader as [|data loader IH]; intros batch_idx st.
  { cbn. intros [= <-]. by exists []. }
  cbn [train_loop within length].
  destruct (past_max_batches max_batches batch_idx).
  { cbn. intros [= <-]. by exists []. }
  rewrite outcome_bind.
  destruct (outcome (evaluate_model self (params st) data true true))
    as [model_output|e]; [|done].
  rewrite outcome_bind. cbn [emit outcome]. rewrite outcome_bind. cbn [lift outcome].
  destruct (get_batch_losses self model_output) as [[total ind]|e] eqn:Hgbl; [|done].
  rewrite outcome_bind. cbn [emit outcome]. intros Hrest.
  destruct (IH _ _ Hrest) as (totals & Hlen & Hnan & Hnil & Hcons).
  exists (total :: totals). split; [simpl; by rewrite Hlen|].
  split; [apply Forall_cons; split; [by eapply get_batch_losses_not_nan|done]|].
  split; [done|]. intros _.
  assert (dict_get "total" (record_losses self total ind (_losses st))
          = Some (default [] (dict_get "total" (_losses st)) ++ [total])) as Hrec.
  { apply record_losses_total. intros k Hk Heq. subst k.
    rewrite (get_batch_losses_record _ _ _ _ Hgbl) in Hk.
    apply individual_losses_keys in Hk as (kf & Hkf & Hw). by apply (Hkeys model_output kf). }
  destruct totals as [|t totals].
  - rewrite (Hnil eq_refl). exact Hrec.
  - rewrite Hcons by done. cbn [_losses fst snd]. rewrite Hrec. simpl. by rewrite <- app_assoc.
Qed.

(** *** The momentum mask of the edges of an evaluated batch *)

Lemma edge_pt_mask_total (edge_index : list (Z * Z)) (pt : list Q) (pt_min : Q) :
  Forall (edge_in_bounds (length pt)) edge_index →
  ∃ mask, _edge_pt_mask edge_index pt pt_min = Ok mask
          ∧ length mask = length edge_index.
Proof.
  intros Hb. unfold edge_in_bounds in Hb. apply Forall_and in Hb as [Hs Hd].
  unfold _edge_pt_mask.
  pose proof (index_select_ok_iff pt (fst <$> edge_index)) as Hsi.
  pose proof (index_select_ok_iff pt (snd <$> edge_index)) as Hdi.
  rewrite Forall_fmap in Hsi, Hdi.
  destruct (index_select pt (fst <$> edge_index)) as [pa|e] eqn:Ha;
    [|by apply Hsi in Hs].
  destruct (index_select pt (snd <$> edge_index)) as [pb|e] eqn:Hb;
    [|by apply Hdi in Hd].
  cbn [mbind result_bind]. eexists. split; [reflexivity|].
  apply index_select_spec in Ha as [Hla _]. apply index_select_spec in Hb as [Hlb _].
  rewrite length_fmap in Hla, Hlb. rewrite length_zip_with, !length_fmap. lia.
Qed.

Lemma wf_edges_in_bounds (d : Data) :
  wf_data d → Forall (edge_in_bounds (length (pt d))) (edge_index d).
Proof.
  intros [Hpt _ _ _ _ _ He]. rewrite Hpt. eapply Forall_impl; [exact He|].
  intros e [? ?]. unfold edge_in_bounds. lia.
Qed.

(** *** The calls of a training step that returns *)

Lemma evaluate_model_trace_ok (self : TCNTrainer) (θ : list Q) (data : Data) (m : bool)
    (out : gmap string pyobj) :
  outcome (evaluate_model self θ data m true) = Ok out →
  ∃ data', cut_of self data data'
           ∧ trace (evaluate_model self θ data m true)
             = [EvGetMasks; EvApplyMask; EvForward data'].
Proof.
  unfold evaluate_model, cut_of.
  destruct (get_masks (training_truth_cuts self) data) as [[nm em]|] eqn:Hget; [|done].
  destruct (_apply_mask data nm em) as [data'|] eqn:Happly; cbn; rewrite ?Happly; cbn;
    [|done].
  destruct m; [destruct (mul_long _ _); cbn; [|done]|];
    intros _; exists data'; (split; [eauto|done]).
Qed.

Lemma train_loop_trace_ok (self : TCNTrainer) (max_batches : option Z) (loader : list Data)
    (batch_idx : nat) (st st' : train_state) :
  outcome (train_loop self max_batches batch_idx loader st) = Ok st' →
  ∃ cut_batches,
    Forall2 (cut_of self) (take (within max_batches batch_idx (length loader)) loader)
      cut_batches
    ∧ trace (train_loop self max_batches batch_idx loader st)
      = loop_events self batch_idx cut_batches.
Proof.
  revert batch_idx st. induction loader as [|data loader IH]; intros batch_idx st.
  { cbn. intros _. exists []. split; [constructor|done]. }
  cbn [train_loop within length].
  destruct (past_max_batches max_batches batch_idx).
  { cbn. intros _. exists []. split; [constructor|done]. }
  rewrite outcome_bind, trace_bind.
  destruct (outcome (evaluate_model self (params st) data true true))
    as [model_output|e] eqn:Hev; [|done].
  destruct (evaluate_model_trace_ok self (params st) data true model_output Hev)
    as (data' & Hcut & ->).
  rewrite outcome_bind, trace_bind. cbn [emit outcome trace].
  rewrite outcome_bind, trace_bind. cbn [lift outcome trace].
  destruct (get_batch_losses self model_output) as [[total ind]|e]; [|done].
  rewrite outcome_bind, trace_bind. cbn [emit outcome trace]. intros Hrest.
  destruct (IH _ _ Hrest) as (cut_batches & Hcuts & ->).
  exists (data' :: cut_batches). split; [by constructor|]. done.
Qed.

(** ** More about the clustering scanner *)

Lemma existsb_contains_dot (metrics : list (string * (list Z → list Z → metric_value))) :
  existsb (fun m => contains_dot m.1) metrics = false
  ↔ ∀ m, m ∈ metrics → contains_dot m.1 = false.
Proof.
  induction metrics as [|m metrics IH]; simpl.
  - split; [intros _ m Hm; by apply elem_of_nil in Hm|done].
  - rewrite orb_false_iff, IH. split.
    + intros [Hm Hrest] m' [->|Hin]%elem_of_cons; [done|by apply Hrest].
    + intros H. split; [apply H; by left|]. intros m' Hin. apply H. by right.
Qed.

Lemma np_random_choice_inv (l : list Z) (rng rng' : RandomState) (v : Z) :
  np_random_choice l rng = Ok (v, rng') →
  v ∈ l ∧ rng' = mkRandom (draws rng) (S (cursor rng)).
Proof.
  intros H. split; [by eapply np_random_choice_elem_of|].
  unfold np_random_choice in H. destruct (l !! _); [|done]. by injection H as _ <-.
Qed.

Lemma list_get_error {A} (l : list A) (i : Z) :
  ¬ (- Z.of_nat (length l) <= i < Z.of_nat (length l)) → list_get l i = Raise IndexError.
Proof. apply tensor_get_out_of_range. Qed.

Lemma split_dot_nonempty (s : string) : split_dot s ≠ [].
Proof.
  induction s as [|c s IH]; simpl; [done|].
  destruct (Ascii.eqb c "."); [done|]. by destruct (split_dot s).
Qed.

Lemma split_dot_no_dot (s : string) : contains_dot s = false → split_dot s = [s].
Proof.
  induction s as [|c s IH]; simpl; [done|].
  destruct (Ascii.eqb c "."); [done|]. intros Hs. by rewrite (IH Hs).
Qed.

Lemma split_dot_app (a b : string) :
  split_dot (a +:+ "." +:+ b) = split_dot a ++ split_dot b.
Proof.
  induction a as [|c a IH]; simpl; [done|].
  destruct (Ascii.eqb c "."); [by rewrite IH|].
  rewrite IH. pose proof (split_dot_nonempty a). by destruct (split_dot a).
Qed.

Lemma contains_dot_app (a b : string) : contains_dot (a +:+ "." +:+ b) = true.
Proof. induction a as [|c a IH]; simpl; [done|]. by destruct (Ascii.eqb c "."). Qed.

(** ** The evaluation of the metrics for the best parameters *)

Lemma select_ext {A} (t1 t2 : list A) (mask : list bool) :
  length t1 = length t2 →
  (∀ j : nat, mask !! j = Some true → t1 !! j = t2 !! j) →
  select t1 mask = select t2 mask.
Proof.
  revert t2 mask. induction t1 as [|a t1 IH]; intros [|b t2] mask Hl H; try done.
  destruct mask as [|[] mask]; simpl; [done| |].
  - pose proof (H 0%nat eq_refl) as H0. simpl in H0. injection H0 as ->. f_equal.
    apply IH; [by injection Hl|]. intros j Hj. apply (H (S j) Hj).
  - apply IH; [by injection Hl|]. intros j Hj. apply (H (S j) Hj).
Qed.

Lemma available_no_background (a : ndarray) :
  Forall (fun s => s ≠ -1) (remove_if_present (-1) (np_unique a)).
Proof.
  apply Forall_forall. intros s Hs.
  by apply elem_of_remove_if_present in Hs as [_ Hne]; [|apply np_unique_sorted].
Qed.

Lemma take_sector_agree (a : ndarray) (g1 g2 : list (list Q)) (t1 t2 : list Z) (sector : Z) :
  sector ≠ -1 → agree_outside_background a g1 g2 → agree_outside_background a t1 t2 →
  take_sector g1 t1 a sector = take_sector g2 t2 a sector.
Proof.
  intros Hs [Hlg Hg] [Hlt Ht]. unfold take_sector. rewrite Hlg, Hlt.
  assert (Hmask : ∀ j : nat, ((fun s => s =? sector) <$> flat a) !! j = Some true →
                    ∃ s, flat a !! j = Some s ∧ s ≠ -1).
  { intros j. rewrite list_lookup_fmap. destruct (flat a !! j) as [s|]; [|done].
    simpl. intros [= Hsj%Z.eqb_eq]. exists s. split; [done|lia]. }
  rewrite (select_ext g1 g2 _ Hlg), (select_ext t1 t2 _ Hlt); [done| |].
  - intros j (s & Hj & Hne)%Hmask. eauto.
  - intros j (s & Hj & Hne)%Hmask. eauto.
Qed.

Lemma evaluate_sectors_agree algorithm ms (a : ndarray) (g1 g2 : list (list Q))
    (t1 t2 : list Z) (available : list Z) (mv : list (string * list Q)) :
  Forall (fun s => s ≠ -1) available →
  agree_outside_background a g1 g2 → agree_outside_background a t1 t2 →
  evaluate_sectors algorithm ms g1 t1 a available mv
  = evaluate_sectors algorithm ms g2 t2 a available mv.
Proof.
  intros Hav Hg Ht. revert mv. induction Hav as [|s available Hs _ IH]; intros mv; [done|].
  simpl. rewrite (take_sector_agree a g1 g2 t1 t2 s Hs Hg Ht).
  destruct (take_sector g2 t2 a s) as [[[sg st]|e]|]; [|done|done]. apply IH.
Qed.

Lemma evaluate_graphs_agree algorithm ms (z1 z2 : list (list (list Q) * list Z * ndarray))
    (mv : list (string * list Q)) :
  Forall2 (fun b1 b2 =>
             b1.2 = b2.2
             ∧ agree_outside_background b1.2 b1.1.1 b2.1.1
             ∧ agree_outside_background b1.2 b1.1.2 b2.1.2) z1 z2 →
  evaluate_graphs algorithm ms z1 mv = evaluate_graphs algorithm ms z2 mv.
Proof.
  intros H. revert mv.
  induction H as [|[[g1 t1] a1] [[g2 t2] a2] z1 z2 (Ha & Hg & Ht) _ IH]; intros mv; [done|].
  simpl in Ha, Hg, Ht. subst a2. simpl.
  rewrite (evaluate_sectors_agree algorithm ms a1 g1 g2 t1 t2 _ mv
             (available_no_background a1) Hg Ht).
  destruct (evaluate_sectors algorithm ms g2 t2 a1 _ mv) as [[mv'|e]|]; [|done|done].
  apply IH.
Qed.

Lemma take_sector_fit (g : list (list Q)) (t : list Z) (a : ndarray) (sector : Z) :
  sectors_fit (g, t, a) →
  take_sector g t a sector
  = Some (Ok (select g ((fun s => s =? sector) <$> flat a),
              select t ((fun s => s =? sector) <$> flat a))).
Proof.
  intros (Hd & _ & Hl). simpl in Hd, Hl. unfold take_sector.
  by rewrite Hd, Hl, Nat.eqb_refl.
Qed.

Lemma evaluate_sectors_samples algorithm ms (g : list (list Q)) (t : list Z) (a : ndarray)
    (available : list Z) (mv : list (string * list Q)) :
  sectors_fit (g, t, a) →
  evaluate_sectors algorithm ms g t a available mv
  = Some (Ok (fold_left (record_sample ms)
                (sector ← available;
                 [(select t ((fun s => s =? sector) <$> flat a),
                   algorithm (select g ((fun s => s =? sector) <$> flat a)))])
                mv)).
Proof.
  intros Hfit. revert mv. induction available as [|s available IH]; intros mv; [done|].
  simpl. rewrite (take_sector_fit g t a s Hfit). by rewrite IH.
Qed.

Lemma evaluate_graphs_samples algorithm ms (zipped : list (list (list Q) * list Z * ndarray))
    (mv : list (string * list Q)) :
  Forall sectors_fit zipped →
  evaluate_graphs algorithm ms zipped mv
  = Some (Ok (fold_left (record_sample ms) (sector_samples algorithm zipped) mv)).
Proof.
  intros H. revert mv. induction H as [|[[g t] a] zipped Hfit _ IH]; intros mv; [done|].
  unfold sector_samples. rewrite bind_cons, fold_left_app. fold (sector_samples algorithm zipped).
  cbn [evaluate_graphs].
  by rewrite (evaluate_sectors_samples algorithm ms g t a _ mv Hfit), IH.
Qed.

(** *** The keys of the values of the metrics *)

Lemma dict_append_keys {V} (k k' : string) (v : V) (d : list (string * list V)) :
  k' ∈ (dict_append k v d).*1 → k' = k ∨ k' ∈ d.*1.
Proof. apply dict_set_keys. Qed.

Lemma record_metric_keys (t l : list Z) (mv : list (string * list Q))
    (m : string * (list Z → list Z → metric_value)) (key : string) :
  key ∈ (record_metric t l mv m).*1 → key ∈ mv.*1 ∨ key_of_metric key m.1.
Proof.
  unfold record_metric. destruct (m.2 t l) as [r|items].
  - intros [->|?]%dict_append_keys; [right; by left|by left].
  - revert mv. induction items as [|[k v] items IH]; intros mv; simpl; [by left|].
    intros [[->|?]%dict_append_keys|?]%IH; [right; right; by exists k|by left|by right].
Qed.

Lemma record_metric_NoDup (t l : list Z) (mv : list (string * list Q))
    (m : string * (list Z → list Z → metric_value)) :
  NoDup mv.*1 → NoDup (record_metric t l mv m).*1.
Proof.
  unfold record_metric. destruct (m.2 t l) as [r|items]; [apply dict_set_NoDup|].
  revert mv. induction items as [|[k v] items IH]; intros mv Hmv; simpl; [done|].
  by apply IH, dict_set_NoDup.
Qed.

Lemma record_sample_invariant ms (mv : list (string * list Q)) (sample : list Z * list Z) :
  NoDup mv.*1 →
  NoDup (record_sample ms mv sample).*1
  ∧ ∀ key, key ∈ (record_sample ms mv sample).*1 →
      key ∈ mv.*1 ∨ ∃ m, m ∈ ms ∧ key_of_metric key m.1.
Proof.
  unfold record_sample. revert mv. induction ms as [|m ms IH]; intros mv Hmv; simpl.
  { split; [done|]. by left. }
  destruct (IH _ (record_metric_NoDup sample.1 sample.2 mv m Hmv)) as [Hnd Hkeys].
  split; [done|]. intros key [[?|?]%record_metric_keys|(m' & Hm' & Hk)]%Hkeys.
  - by left.
  - right. exists m. split; [apply list_elem_of_here|done].
  - right. exists m'. split; [by apply list_elem_of_further|done].
Qed.

Lemma record_samples_invariant ms (samples : list (list Z * list Z))
    (mv : list (string * list Q)) :
  NoDup mv.*1 →
  NoDup (fold_left (record_sample ms) samples mv).*1
  ∧ ∀ key, key ∈ (fold_left (record_sample ms) samples mv).*1 →
      key ∈ mv.*1 ∨ ∃ m, m ∈ ms ∧ key_of_metric key m.1.
Proof.
  revert mv. induction samples as [|s samples IH]; intros mv Hmv; simpl.
  { split; [done|]. by left. }
  destruct (record_sample_invariant ms mv s Hmv) as [Hnd1 Hk1].
  destruct (IH _ Hnd1) as [Hnd Hkeys]. split; [done|].
  intros key [[?|?]%Hk1|?]%Hkeys; auto.
Qed.

Lemma filter_keys {V} (p : string * V → bool) (d : list (string * V)) (key : string) :
  key ∈ (List.filter p d).*1 → key ∈ d.*1.
Proof.
  induction d as [|kv d IH]; simpl; [done|].
  destruct (p kv); simpl.
  - intros [->|?]%elem_of_cons; [apply list_elem_of_here|]. by apply list_elem_of_further, IH.
  - intros ?. by apply list_elem_of_further, IH.
Qed.

Lemma filter_keys_NoDup {V} (p : string * V → bool) (d : list (string * V)) :
  NoDup d.*1 → NoDup (List.filter p d).*1.
Proof.
  induction d as [|kv d IH]; simpl; [done|].
  rewrite NoDup_cons. intros [Hk Hd]. destruct (p kv); simpl; [|by apply IH].
  apply NoDup_cons. split; [|by apply IH]. intros Hin. by apply Hk, (filter_keys p).
Qed.

Lemma fmap_value_keys {V W} (h : list V → W) (d : list (string * list V)) :
  ((fun kv => (kv.1, h kv.2)) <$> d).*1 = d.*1.
Proof. induction d as [|kv d IH]; [done|]. csimpl. by f_equal. Qed.

(** *** The values recorded for a metric that returns a float *)

Lemma no_dot_not_dotted (name prefix k : string) :
  contains_dot name = false → name ≠ prefix +:+ "." +:+ k.
Proof. intros Hn ->. by rewrite contains_dot_app in Hn. Qed.

Lemma record_metric_other (t l : list Z) (mv : list (string * list Q))
    (m : string * (list Z → list Z → metric_value)) (name : string) :
  name ≠ m.1 → contains_dot name = false →
  dict_get name (record_metric t l mv m) = dict_get name mv.
Proof.
  intros Hne Hdot. unfold record_metric. destruct (m.2 t l) as [r|items].
  - unfold dict_append. by rewrite dict_get_set_ne.
  - revert mv. induction items as [|[k v] items IH]; intros mv; simpl; [done|].
    rewrite IH. unfold dict_append. rewrite dict_get_set_ne; [done|].
    intros Heq. by apply (no_dot_not_dotted name m.1 k Hdot).
Qed.

Lemma record_metrics_other (t l : list Z) ms (mv : list (string * list Q)) (name : string) :
  name ∉ ms.*1 → contains_dot name = false →
  dict_get name (fold_left (record_metric t l) ms mv) = dict_get name mv.
Proof.
  intros Hnotin Hdot. revert mv. induction ms as [|m ms IH]; intros mv; simpl; [done|].
  rewrite fmap_cons, not_elem_of_cons in Hnotin. destruct Hnotin as [Hne Hnotin].
  rewrite (IH Hnotin). by apply record_metric_other.
Qed.

Lemma record_metric_float (t l : list Z) (mv : list (string * list Q))
    (m : string * (list Z → list Z → metric_value)) (v : Q) :
  m.2 t l = MetricFloat v →
  dict_get m.1 (record_metric t l mv m) = Some (default [] (dict_get m.1 mv) ++ [v]).
Proof.
  intros Hm. unfold record_metric. rewrite Hm. unfold dict_append.
  by rewrite dict_get_set_eq.
Qed.

Lemma record_sample_float ms (mv : list (string * list Q)) (sample : list Z * list Z)
    (name : string) (f : list Z → list Z → metric_value) (v : Q) :
  NoDup ms.*1 → (name, f) ∈ ms → contains_dot name = false →
  f sample.1 sample.2 = MetricFloat v →
  dict_get name (record_sample ms mv sample) = Some (default [] (dict_get name mv) ++ [v]).
Proof.
  intros Hnd Hin Hdot Hf. unfold record_sample. revert mv Hnd Hin.
  induction ms as [|m ms IH]; intros mv Hnd Hin; [by apply elem_of_nil in Hin|].
  rewrite fmap_cons, NoDup_cons in Hnd. destruct Hnd as [Hm Hnd].
  simpl. apply elem_of_cons in Hin as [<-|Hin].
  - rewrite record_metrics_other by done.
    by apply (record_metric_float _ _ mv (name, f)).
  - assert (name ≠ m.1) as Hne.
    { intros ->. apply Hm, list_elem_of_fmap. by exists (m.1, f). }
    rewrite (IH _ Hnd Hin). by rewrite record_metric_other.
Qed.

Lemma record_samples_float ms (samples : list (list Z * list Z))
    (mv : list (string * list Q)) (sample : list Z * list Z)
    (name : string) (f : list Z → list Z → metric_value) :
  NoDup ms.*1 → (name, f) ∈ ms → contains_dot name = false → float_valued f →
  dict_get name (fold_left (record_sample ms) (sample :: samples) mv)
  = Some (default [] (dict_get name mv) ++ (float_value f <$> sample :: samples)).
Proof.
  intros Hnd Hin Hdot Hf. revert sample mv.
  induction samples as [|s samples IH]; intros sample mv.
  - simpl. destruct (Hf sample.1 sample.2) as [v Hv].
    rewrite (record_sample_float ms mv sample name f v Hnd Hin Hdot Hv).
    unfold float_value. by rewrite Hv.
  - cbn [fold_left]. cbn [fold_left] in IH. rewrite IH.
    destruct (Hf sample.1 sample.2) as [v Hv].
    rewrite (record_sample_float ms mv sample name f v Hnd Hin Hdot Hv). simpl.
    rewrite <- app_assoc. simpl. unfold float_value at 3. by rewrite Hv.
Qed.


(** *** Graphs whose hits are all in the background sector *)

Lemma no_available_sector (a : ndarray) :
  (∀ s, s ∈ flat a → s = -1) → remove_if_present (-1) (np_unique a) = [].
Proof.
  intros Hall. destruct (remove_if_present (-1) (np_unique a)) as [|u l] eqn:Hl; [done|].
  assert (u ∈ remove_if_present (-1) (np_unique a)) as Hu by (rewrite Hl; apply list_elem_of_here).
  apply elem_of_remove_if_present in Hu as [Hin Hne]; [|apply np_unique_sorted].
  apply elem_of_np_unique in Hin. by apply Hall in Hin.
Qed.

Lemma evaluate_graphs_background algorithm ms
    (zipped : list (list (list Q) * list Z * ndarray)) (mv : list (string * list Q)) :
  Forall (fun b => ∀ s, s ∈ flat b.2 → s = -1) zipped →
  evaluate_graphs algorithm ms zipped mv = Some (Ok mv).
Proof.
  induction 1 as [|[[g t] a] zipped Hb _ IH]; [done|].
  simpl in Hb. simpl. by rewrite (no_available_sector a Hb).
Qed.

(** *** The sectors that the constructor makes up *)

Lemma init_default_inv graphs truth guide metrics guide_proxy self :
  __init__ graphs truth guide metrics None guide_proxy = Ok self →
  length <$> graphs = length <$> truth
  ∧ ∃ arrays, ones_like_each truth = Ok arrays
      ∧ self = mkScanner graphs truth metrics arrays guide_proxy guide ∅ 20.
Proof.
  unfold __init__.
  destruct (bool_decide (length <$> graphs = length <$> truth)) eqn:H1; cbn [negb]; [|done].
  apply bool_decide_eq_true in H1.
  destruct (0 <? length graphs)%nat; cbn [negb]; [|done].
  destruct (existsb _ metrics); [done|].
  intros H. bind_inv H. injection H as <-. eauto.
Qed.

Lemma np_ones_inv (shape : list Z) (a : ndarray) :
  np_ones shape = Ok a →
  dims a = Z.to_nat <$> shape
  ∧ flat a = replicate (foldr Nat.mul 1%nat (Z.to_nat <$> shape)) 1.
Proof.
  unfold np_ones. destruct (negb _); [done|]. destruct (_ <? _)%nat; [done|].
  by intros [= <-].
Qed.

Lemma product_positive (shape : list Z) :
  Forall (fun v => 0 < v) shape → (0 < foldr Nat.mul 1%nat (Z.to_nat <$> shape))%nat.
Proof.
  induction 1 as [|v shape Hv _ IH]; simpl; [lia|].
  apply Nat.mul_pos_pos; [lia|done].
Qed.

Lemma unique_of_ones (n : nat) : foldr insert_unique [] (replicate (S n) 1) = [1].
Proof. induction n as [|n IH]; [done|]. rewrite replicate_S. simpl in *. by rewrite IH. Qed.

Lemma take_sector_shape (g : list (list Q)) (t : list Z) (a : ndarray) (sector : Z) :
  dims a = Z.to_nat <$> t → length g = length t →
  Forall (fun v => 0 < v) t → t ≠ [] → t ≠ [1] →
  take_sector g t a sector = Some (Raise IndexError).
Proof.
  intros Hd Hl Hpos Hne Hne1. unfold take_sector. rewrite Hd.
  destruct t as [|v [|w t]]; [done| |done].
  simpl. simpl in Hl. rewrite Hl.
  apply Forall_cons in Hpos as [Hv _].
  destruct (Nat.eqb_spec (Z.to_nat v) 1) as [Heq|_]; [|done].
  assert (v = 1) as -> by lia. done.
Qed.

(** *** The sectors that are evaluated have hits *)

Lemma popcount_positive (mask : list bool) (j : nat) :
  mask !! j = Some true → (0 < popcount mask)%nat.
Proof.
  revert j. induction mask as [|b mask IH]; intros [|j]; simpl; try done.
  - intros [= ->]. lia.
  - intros Hj. specialize (IH j Hj). lia.
Qed.

Lemma sector_has_hits (a : ndarray) (sector : Z) :
  sector ∈ remove_if_present (-1) (np_unique a) →
  (0 < popcount ((fun s => (s =? sector)%Z) <$> flat a))%nat.
Proof.
  intros Hs. apply elem_of_remove_if_present in Hs as [Hin _]; [|apply np_unique_sorted].
  apply elem_of_np_unique, list_elem_of_lookup in Hin as [j Hj].
  apply (popcount_positive _ j). rewrite list_lookup_fmap, Hj. simpl.
  by rewrite Z.eqb_refl.
Qed.

(** ** Theorems about the truth-cut masks *)

Lemma wf_batch0 : wf_data batch0.
Proof. split; simpl; try reflexivity. repeat constructor; simpl; lia. Qed.

(** C1: for every batch and every truth-cut configuration, the pair
    [(node_mask, edge_mask)] that [get_masks] returns satisfies
    [edge_mask[e] = node_mask[src e] && node_mask[dst e]] for every edge
    [e]; on a well-formed batch [get_masks] does return such a pair. *)
Theorem get_masks_edge_mask_and (self : TrainingTruthCutConfig) (data : Data) :
  (wf_data data → ∃ nm em, get_masks self data = Ok (nm, em))
  ∧ ∀ nm em, get_masks self data = Ok (nm, em) →
      length em = length (edge_index data)
      ∧ ∀ (e : nat) (s d : Z), edge_index data !! e = Some (s, d) →
          ∃ bs bd : bool,
            tensor_get nm s = Ok bs ∧ tensor_get nm d = Ok bd
            ∧ em !! e = Some (bs && bd).
Proof.
  split; [apply get_masks_total | apply get_masks_edge_spec].
Qed.

Lemma get_masks_edge_mask_and_witness :
  wf_data batch0
  ∧ (∃ nm em, get_masks cuts0 batch0 = Ok (nm, em))
  ∧ get_masks cuts0 batch0 = Ok ([true; false; true], [false; false; true])
  ∧ length [false; false; true] = length (edge_index batch0)
  ∧ ∀ (e : nat) (s d : Z), edge_index batch0 !! e = Some (s, d) →
      ∃ bs bd : bool,
        tensor_get [true; false; true] s = Ok bs ∧ tensor_get [true; false; true] d = Ok bd
        ∧ [false; false; true] !! e = Some (bs && bd).
Proof.
  split; [exact wf_batch0|].
  split; [exact (proj1 (get_masks_edge_mask_and cuts0 batch0) wf_batch0)|].
  split; [reflexivity|].
  exact (proj2 (get_masks_edge_mask_and cuts0 batch0) _ _ eq_refl).
Defined.

(** C3 (as amended): for every well-formed batch and every
    configuration with [pt_thld > 0], the momentum cut of [get_masks]
    excludes exactly the nodes with [particle_id > 0] whose [pt] is not
    above the binary32 number nearest to [pt_thld], with which torch
    compares the momenta; for a threshold that is such a number itself
    these are the nodes with [pt <= pt_thld].  A noise node
    ([particle_id = 0]) passes this cut whatever its [pt].  The node mask
    is the conjunction of this cut with the other two. *)
Theorem get_masks_pt_cut (self : TrainingTruthCutConfig) (data : Data) :
  wf_data data → (0 < pt_thld self)%Q →
  ∃ nm em,
    get_masks self data = Ok (nm, em)
    ∧ length nm = length (x data)
    ∧ ∀ (i : nat) (pid : Z) (p : Q) (r : Z),
        particle_id data !! i = Some pid → pt data !! i = Some p →
        reconstructable data !! i = Some r →
        ∃ passes : bool,
          nm !! i = Some (passes && passes_noise_cut self pid
                          && passes_reconstructable_cut self r)
          ∧ (passes = false ↔ 0 < pid ∧ (p <= round_float32 (pt_thld self))%Q)
          ∧ ((round_float32 (pt_thld self) == pt_thld self)%Q →
             (passes = false ↔ 0 < pid ∧ (p <= pt_thld self)%Q))
          ∧ (pid = 0 → passes = true)
          ∧ (without_noise self = false → without_non_reconstructable self = false →
             (nm !! i = Some false
              ↔ 0 < pid ∧ (p <= round_float32 (pt_thld self))%Q)).
Proof.
  intros Hwf Hthld.
  destruct (get_masks_total self data Hwf) as (nm & em & Hget).
  destruct (get_masks_nodes self data Hwf) as (nm' & Hlen & Heq & Hnodes).
  assert (nm' = nm) as ->.
  { rewrite Heq in Hget. bind_inv Hget. bind_inv Hget. by injection Hget. }
  exists nm, em. split; [done|]. split; [done|].
  intros i pid p r Hpid Hp Hr. exists (passes_pt_cut self pid p).
  assert (passes_pt_cut self pid p = false
          ↔ 0 < pid ∧ (p <= round_float32 (pt_thld self))%Q) as Hcut.
  { unfold passes_pt_cut. apply Qgtb_lt in Hthld as ->.
    destruct (Z.ltb_spec 0 pid).
    - rewrite gt_scalar_le. tauto.
    - split; [done|]. lia. }
  split; [by apply Hnodes|]. split; [done|]. split; [|split].
  - intros Hexact. by rewrite Hcut, Hexact.
  - intros ->. unfold passes_pt_cut. by destruct (Qgtb (pt_thld self) 0).
  - intros Hn Hnr. rewrite (Hnodes i pid p r) by done.
    unfold passes_noise_cut, passes_reconstructable_cut. rewrite Hn, Hnr, !andb_true_r.
    rewrite <- Hcut. split; congruence.
Qed.

Lemma get_masks_pt_cut_witness :
  wf_data batch0 ∧ (0 < pt_thld cuts0)%Q
  ∧ get_masks cuts0 batch0 = Ok ([true; false; true], [false; false; true])
  ∧ ∀ (i : nat) (pid : Z) (p : Q) (r : Z),
      particle_id batch0 !! i = Some pid → pt batch0 !! i = Some p →
      reconstructable batch0 !! i = Some r →
      ∃ passes : bool,
        [true; false; true] !! i
        = Some (passes && passes_noise_cut cuts0 pid && passes_reconstructable_cut cuts0 r)
        ∧ (passes = false ↔ 0 < pid ∧ (p <= round_float32 (pt_thld cuts0))%Q).
Proof.
  split; [exact wf_batch0|]. split; [reflexivity|]. split; [reflexivity|].
  destruct (get_masks_pt_cut cuts0 batch0 wf_batch0 eq_refl) as (nm & em & Hget & _ & H).
  injection Hget as <- <-.
  intros i pid p r Hpid Hp Hr. destruct (H i pid p r Hpid Hp Hr) as (passes & Hnm & Hcut & _).
  by exists passes.
Defined.

(** C3 as stated fails: the Python float [0.1] is below the binary32
    number nearest to it.  A hit of a particle whose momentum is that
    binary32 number has [pt > pt_thld], and the cut excludes it all the
    same, because torch compares it with the threshold rounded to
    binary32. *)
Lemma get_masks_pt_cut_not_exact :
  wf_data batch_tenth ∧ (0 < pt_thld cuts_tenth)%Q
  ∧ get_masks cuts_tenth batch_tenth = Ok ([false; true], [])
  ∧ particle_id batch_tenth !! 0%nat = Some 1
  ∧ pt batch_tenth !! 0%nat = Some float32_tenth
  ∧ (pt_thld cuts_tenth < float32_tenth)%Q
  ∧ round_float32 (pt_thld cuts_tenth) = float32_tenth
  ∧ binary_normalize 24 128 3602879701896397 (-55) false
    = S754_finite false 13421773 (-27)
  ∧ ¬ (∀ (i : nat) (pid : Z) (p : Q),
         particle_id batch_tenth !! i = Some pid → pt batch_tenth !! i = Some p →
         ([false; true] !! i = Some false ↔ 0 < pid ∧ (p <= pt_thld cuts_tenth)%Q)).
Proof.
  split; [split; simpl; try reflexivity; constructor|].
  split; [reflexivity|]. split; [reflexivity|]. split; [reflexivity|].
  split; [reflexivity|]. split; [reflexivity|]. split; [reflexivity|].
  split; [reflexivity|].
  intros H. destruct (proj1 (H 0%nat 1 float32_tenth eq_refl eq_refl) eq_refl) as [_ Hle].
  by apply Hle.
Qed.


(** ** Theorems about [_apply_mask] *)

Lemma get_masks_apply_mask_total (self : TrainingTruthCutConfig) (data : Data)
    (nm em : list bool) :
  wf_data data → length (x data) ≠ 1%nat → get_masks self data = Ok (nm, em) →
  select (edge_index data) em ≠ [] →
  ∃ d', _apply_mask data nm em = Ok d'.
Proof.
  intros Hwf Hone Hget Hne.
  pose proof (get_masks_node_mask_length self data nm em Hwf Hget) as Hnm.
  destruct (get_masks_edge_spec self data nm em Hget) as [Hem Hedge].
  apply apply_mask_total; try done; [by rewrite Hnm|].
  intros e s d He Hkeep.
  destruct (Hedge e s d He) as (bs & bd & Hs & Hd & Hand).
  rewrite Hkeep in Hand. injection Hand as Hand. symmetry in Hand.
  apply andb_true_iff in Hand as [-> ->].
  destruct Hwf as [_ _ _ _ _ _ Hedges].
  rewrite Forall_lookup in Hedges. specialize (Hedges e (s, d) He). simpl in Hedges.
  destruct Hedges as [Hsr Hdr]. rewrite <- Hnm in Hsr, Hdr.
  rewrite tensor_get_in_range in Hs, Hd by done.
  split; eexists; apply edge_index_mapping_lookup.
  - exists (Z.to_nat s). split; [lia|]. split; [|done].
    destruct (nm !! Z.to_nat s); [by injection Hs as ->|done].
  - exists (Z.to_nat d). split; [lia|]. split; [|done].
    destruct (nm !! Z.to_nat d); [by injection Hd as ->|done].
Qed.

(** C5: [_apply_mask] gives the [k] surviving nodes the new indices
    [0 .. k-1]: the mapping sends exactly the surviving nodes to their
    ranks, which fill [0 .. k-1], and it is order preserving and
    injective; the returned batch has [k] nodes, and the end points of
    its edges are the images under the mapping of the end points of the
    surviving edges, in their order.  With the masks of [get_masks] on a
    well-formed batch of which an edge survives, [_apply_mask] returns,
    unless the batch has a single node: numpy takes a mask with one entry
    for an index, and [_apply_mask] raises. *)
Theorem apply_mask_reindexing (data : Data) (nm em : list bool) :
  (∀ key v : Z,
     edge_index_mapping nm !! key = Some v
     ↔ ∃ i : nat, key = Z.of_nat i ∧ nm !! i = Some true ∧ v = Z.of_nat (rank nm i))
  ∧ (∀ i : nat, nm !! i = Some true → (rank nm i < popcount nm)%nat)
  ∧ (∀ j : nat, (j < popcount nm)%nat → ∃ i : nat, nm !! i = Some true ∧ rank nm i = j)
  ∧ (∀ i j : nat, nm !! i = Some true → nm !! j = Some true →
       (i < j)%nat → (rank nm i < rank nm j)%nat)
  ∧ (∀ i j : nat, nm !! i = Some true → nm !! j = Some true →
       rank nm i = rank nm j → i = j)
  ∧ (∀ d', _apply_mask data nm em = Ok d' →
       length (x d') = popcount nm
       ∧ Forall2 (fun e e' => edge_index_mapping nm !! e.1 = Some e'.1
                              ∧ edge_index_mapping nm !! e.2 = Some e'.2)
           (select (edge_index data) em) (edge_index d'))
  ∧ (∀ self, wf_data data → length (x data) ≠ 1%nat →
       get_masks self data = Ok (nm, em) →
       select (edge_index data) em ≠ [] → ∃ d', _apply_mask data nm em = Ok d')
  ∧ (∀ b : bool, nm = [b] →
       _apply_mask data nm em = Raise (if b then IndexError else AssertionError)).
Proof.
  split; [apply edge_index_mapping_lookup|].
  split; [apply rank_lt_popcount|].
  split; [apply rank_onto|].
  split; [intros i j Hi _; by apply rank_strict_mono|].
  split; [apply rank_inj|].
  split.
  - intros d' H. apply apply_mask_inv in H as (_ & _ & Hnm & -> & _ & _ & _ & _ & _ & _ & Hedges).
    split; [by rewrite length_select|done].
  - split; [intros self; apply get_masks_apply_mask_total|].
    intros b ->. apply apply_mask_one_entry.
Qed.

Lemma apply_mask_reindexing_witness :
  _apply_mask batch0 [true; false; true] [false; false; true] = Ok masked_batch0
  ∧ length (x masked_batch0) = popcount [true; false; true]
  ∧ Forall2 (fun e e' => edge_index_mapping [true; false; true] !! e.1 = Some e'.1
                         ∧ edge_index_mapping [true; false; true] !! e.2 = Some e'.2)
      (select (edge_index batch0) [false; false; true]) (edge_index masked_batch0)
  ∧ (rank [true; false; true] 0 < rank [true; false; true] 2)%nat
  ∧ ∃ d', _apply_mask batch0 [true; false; true] [false; false; true] = Ok d'.
Proof.
  pose proof (apply_mask_reindexing batch0 [true; false; true] [false; false; true])
    as (_ & _ & _ & Hmono & _ & Hret & Htotal & _).
  split; [reflexivity|].
  split; [exact (proj1 (Hret masked_batch0 eq_refl))|].
  split; [exact (proj2 (Hret masked_batch0 eq_refl))|].
  split; [apply Hmono; [reflexivity | reflexivity | lia]|].
  apply (Htotal cuts0 wf_batch0); [discriminate | reflexivity | discriminate].
Defined.

(** ** Theorems about the trainer *)

(** C4 (as amended): a configuration with [pt_thld = 0] and both
    exclusions off is recognised as trivial, and on every well-formed
    batch [get_masks] returns masks that are true everywhere.  The
    construction of the masked batch is not bypassed: [evaluate_model]
    with truth cuts, as [train_step] calls it for every batch, begins
    with the calls of [get_masks] and [_apply_mask]. *)
Theorem no_cuts_all_true_masks (self : TCNTrainer) (data : Data) :
  (pt_thld (training_truth_cuts self) == 0)%Q →
  without_noise (training_truth_cuts self) = false →
  without_non_reconstructable (training_truth_cuts self) = false →
  is_trivial (training_truth_cuts self) = true
  ∧ (wf_data data →
     get_masks (training_truth_cuts self) data
     = Ok (replicate (length (x data)) true, replicate (length (edge_index data)) true)
     ∧ (∀ θ m,
          [EvGetMasks; EvApplyMask] `prefix_of` trace (evaluate_model self θ data m true))
     ∧ (∀ θ max_batches loader,
          past_max_batches max_batches 0 = false →
          [EvGetMasks; EvApplyMask]
            `prefix_of` trace (train_step self max_batches (data :: loader) θ))).
Proof.
  intros Ht Hn Hr. split.
  { unfold is_trivial. by rewrite (isclose_zero _ Ht), Hn, Hr. }
  intros Hwf. pose proof (get_masks_no_cuts _ data Ht Hn Hr Hwf) as Hget.
  assert (∀ θ m,
            [EvGetMasks; EvApplyMask] `prefix_of` trace (evaluate_model self θ data m true))
    as Hev.
  { intros θ m. destruct (evaluate_model_trace_cuts self θ data m) as [tr ->].
    - by rewrite Hget.
    - by exists tr. }
  split; [done|]. split; [done|].
  intros θ max_batches loader Hmb. rewrite train_step_trace. apply prefix_app_r.
  cbn [train_loop]. rewrite Hmb.
  etrans; [apply Hev|apply trace_bind_prefix].
Qed.

Lemma no_cuts_all_true_masks_witness :
  is_trivial (training_truth_cuts trainer0) = true
  ∧ get_masks (training_truth_cuts trainer0) batch0
    = Ok (replicate (length (x batch0)) true, replicate (length (edge_index batch0)) true)
  ∧ (∀ θ m,
       [EvGetMasks; EvApplyMask] `prefix_of` trace (evaluate_model trainer0 θ batch0 m true))
  ∧ (∀ θ loader,
       [EvGetMasks; EvApplyMask]
         `prefix_of` trace (train_step trainer0 (Some 3) (batch0 :: loader) θ)).
Proof.
  destruct (no_cuts_all_true_masks trainer0 batch0) as [Htriv Hrest];
    [reflexivity | reflexivity | reflexivity |].
  destruct (Hrest wf_batch0) as (Hget & Hev & Htrain).
  split; [exact Htriv|]. split; [exact Hget|]. split; [exact Hev|].
  intros θ loader; by apply Htrain.
Defined.

(** C4 as stated fails: with the trivial configuration of [trainer0] a
    training step on [batch0] still calls [_apply_mask]. *)
Lemma no_cuts_masked_batch_is_built :
  ¬ (is_trivial (training_truth_cuts trainer0) = true →
     EvApplyMask ∉ trace (train_step trainer0 None [batch0] [])).
Proof.
  intros H. apply H; [reflexivity|].
  apply list_elem_of_further, list_elem_of_here.
Qed.

(** C7 (as amended): in the dictionary that [evaluate_model] returns, the
    key of an output that the network did not compute ([W], [H], [B],
    [P]) is present and holds [None]; the truth fields ([pt], [sector],
    [particle_id], the edge labels, the edge index, the node features)
    are always present. *)
Theorem evaluate_model_missing_outputs (self : TCNTrainer) (θ : list Q) (data : Data)
    (m a : bool) (dct : gmap string pyobj) :
  outcome (evaluate_model self θ data m a) = Ok dct →
  ∃ data',
    EvForward data' ∈ trace (evaluate_model self θ data m a)
    ∧ (model self θ data' !! "W" = None → dct !! "w" = Some PyNone)
    ∧ (model self θ data' !! "H" = None → dct !! "x" = Some PyNone)
    ∧ (model self θ data' !! "B" = None → dct !! "beta" = Some PyNone)
    ∧ (model self θ data' !! "P" = None → dct !! "pred" = Some PyNone)
    ∧ dct !! "pt" = Some (FloatTensor (pt data'))
    ∧ dct !! "sector" = Some (LongTensor (sector data'))
    ∧ (∃ pid_field, dct !! "particle_id" = Some (LongTensor pid_field))
    ∧ dct !! "y" = Some (FloatTensor (y data'))
    ∧ dct !! "edge_index" = Some (IndexTensor (edge_index data'))
    ∧ dct !! "node_features" = Some (Matrix (x data')).
Proof.
  intros H. apply evaluate_model_outcome in H as (data' & pid_field & Hfw & _ & _ & ->).
  exists data'. split; [done|]. cbn zeta.
  unfold squeeze_if_defined, get_if_defined.
  repeat split; try (intros ->); try (exists pid_field); by simplify_map_eq.
Qed.

Lemma evaluate_model_missing_outputs_witness :
  ∃ dct,
    outcome (evaluate_model trainer0 [] batch0 true false) = Ok dct
    ∧ ∃ data',
        EvForward data' ∈ trace (evaluate_model trainer0 [] batch0 true false)
        ∧ (model trainer0 [] data' !! "W" = None → dct !! "w" = Some PyNone)
        ∧ (model trainer0 [] data' !! "H" = None → dct !! "x" = Some PyNone)
        ∧ (model trainer0 [] data' !! "B" = None → dct !! "beta" = Some PyNone)
        ∧ (model trainer0 [] data' !! "P" = None → dct !! "pred" = Some PyNone)
        ∧ dct !! "pt" = Some (FloatTensor (pt data'))
        ∧ dct !! "sector" = Some (LongTensor (sector data'))
        ∧ (∃ pid_field, dct !! "particle_id" = Some (LongTensor pid_field))
        ∧ dct !! "y" = Some (FloatTensor (y data'))
        ∧ dct !! "edge_index" = Some (IndexTensor (edge_index data'))
        ∧ dct !! "node_features" = Some (Matrix (x data')).
Proof.
  eexists. split; [reflexivity|].
  apply (evaluate_model_missing_outputs trainer0 [] batch0 true false). reflexivity.
Defined.

(** C7 as stated fails: the network of [trainer0] does not compute the
    latent coordinates [H], and the key ["x"] is present all the same. *)
Lemma evaluate_model_missing_output_key_present :
  ∃ dct,
    outcome (evaluate_model trainer0 [] batch0 true false) = Ok dct
    ∧ model trainer0 [] batch0 !! "H" = None
    ∧ ¬ (dct !! "x" = None).
Proof.
  eexists. split; [reflexivity|]. split; [reflexivity|]. vm_compute. discriminate.
Qed.

(** C10: [train_step(max_batches=n)] with [n >= 1] processes the batches
    with the indices [0 .. n], which are [n + 1] batches when the loader
    has that many, and then stops: a step that returns has, for each of
    these batches in turn, cut the batch, passed it through the network,
    called the batch hooks with its index and stepped the optimizer, and
    it has done nothing of this for a later batch; the parameters are
    those that the optimizer steps on these batches make of the initial
    ones.  With [max_batches=0] it behaves as with [None] and processes
    every batch of the loader.  An exception in the body ends the loop
    earlier; there is none when the body runs through on each of these
    batches. *)
Theorem train_step_max_batches (self : TCNTrainer) (loader : list Data) (θ : list Q) :
  (∀ n : Z, 1 <= n →
     let r := train_step self (Some n) loader θ in
     let processed := take (S (Z.to_nat n)) loader in
     hooked (trace r) `prefix_of` seq 0 (length processed)
     ∧ (∀ st, outcome r = Ok st →
          ∃ cut_batches,
            Forall2 (cut_of self) processed cut_batches
            ∧ trace r = loop_events self 0 cut_batches ++ after_loop_events self
            ∧ hooked (trace r) = seq 0 (length processed)
            ∧ params st = fold_left (optimizer_step self) processed θ)
     ∧ ((∀ θ' data, data ∈ processed → batch_ok self θ' data = true) →
        is_ok (outcome r) = true))
  ∧ train_step self (Some 0) loader θ = train_step self None loader θ
  ∧ (let r := train_step self (Some 0) loader θ in
     hooked (trace r) `prefix_of` seq 0 (length loader)
     ∧ (∀ st, outcome r = Ok st →
          ∃ cut_batches,
            Forall2 (cut_of self) loader cut_batches
            ∧ trace r = loop_events self 0 cut_batches ++ after_loop_events self
            ∧ hooked (trace r) = seq 0 (length loader)
            ∧ params st = fold_left (optimizer_step self) loader θ)
     ∧ ((∀ θ' data, data ∈ loader → batch_ok self θ' data = true) →
        is_ok (outcome r) = true)).
Proof.
  assert (∀ max_batches,
            let r := train_step self max_batches loader θ in
            let reached := within max_batches 0 (length loader) in
            hooked (trace r) `prefix_of` seq 0 reached
            ∧ (∀ st, outcome r = Ok st →
                 ∃ cut_batches,
                   Forall2 (cut_of self) (take reached loader) cut_batches
                   ∧ trace r = loop_events self 0 cut_batches ++ after_loop_events self
                   ∧ hooked (trace r) = seq 0 reached
                   ∧ params st = fold_left (optimizer_step self) (take reached loader) θ)
            ∧ ((∀ θ' data, data ∈ take reached loader → batch_ok self θ' data = true) →
               is_ok (outcome r) = true)) as Hgen.
  { intros max_batches. cbn zeta.
    pose proof (train_loop_hooks self max_batches loader 0 (mkTrainState θ []))
      as (Hpre & Hhooked & Hok).
    pose proof (train_loop_counts self max_batches loader 0 (mkTrainState θ []))
      as (_ & _ & _ & Hparams).
    rewrite train_step_outcome, train_step_trace.
    split; [|split].
    - rewrite hooked_app.
      destruct (is_ok _); simpl; [|by rewrite app_nil_r]. by rewrite app_nil_r.
    - intros st Hst.
      destruct (train_loop_trace_ok self max_batches loader 0 _ st Hst)
        as (cut_batches & Hcuts & Htrace).
      exists cut_batches. rewrite Hst. cbn [is_ok]. split; [done|].
      split; [by rewrite Htrace|]. split.
      + rewrite hooked_app. simpl. rewrite app_nil_r. apply Hhooked. by rewrite Hst.
      + by destruct (Hparams st Hst) as (_ & _ & ->).
    - done. }
  split; [|split].
  - intros n Hn. specialize (Hgen (Some n)). cbn zeta in Hgen.
    rewrite within_limited in Hgen by done.
    replace (Z.to_nat (n + 1 - Z.of_nat 0)) with (S (Z.to_nat n)) in Hgen by lia.
    rewrite take_min_length in Hgen. cbn zeta.
    rewrite length_take. by rewrite Nat.min_comm.
  - unfold train_step. by rewrite train_loop_zero_is_none.
  - specialize (Hgen (Some 0)). cbn zeta in Hgen.
    rewrite within_unlimited in Hgen by (by right).
    by rewrite firstn_all in Hgen.
Qed.

Lemma train_step_max_batches_witness :
  1 <= 1
  ∧ (∃ st, outcome (train_step trainer0 (Some 1) loader0 []) = Ok st
           ∧ params st = fold_left (optimizer_step trainer0) [batch0; batch0] [])
  ∧ trace (train_step trainer0 (Some 1) loader0 [])
    = loop_events trainer0 0 [batch0; batch0] ++ after_loop_events trainer0
  ∧ hooked (trace (train_step trainer0 (Some 1) loader0 [])) = [0; 1]%nat
  ∧ is_ok (outcome (train_step trainer0 (Some 0) loader0 [])) = true
  ∧ hooked (trace (train_step trainer0 (Some 0) loader0 [])) = [0; 1; 2; 3]%nat.
Proof.
  pose proof (train_step_max_batches trainer0 loader0 []) as (Hn & _ & H0).
  assert (∀ (θ' : list Q) (data : Data), data ∈ loader0 → batch_ok trainer0 θ' data = true)
    as Hbody.
  { intros θ' data Hin. unfold loader0 in Hin.
    repeat (apply elem_of_cons in Hin as [-> | Hin]; [reflexivity|]).
    by apply elem_of_nil in Hin. }
  destruct (Hn 1 ltac:(lia)) as (_ & Hret & _).
  destruct (H0) as (_ & Hret0 & Hok0).
  split; [lia|].
  split.
  { eexists. split; [reflexivity|].
    by destruct (Hret _ eq_refl) as (cut_batches & _ & _ & _ & ->). }
  split; [reflexivity|].
  split; [by destruct (Hret _ eq_refl) as (cut_batches & _ & _ & -> & _)|].
  split; [apply Hok0, Hbody|].
  by destruct (Hret0 _ eq_refl) as (cut_batches & _ & _ & -> & _).
Defined.

(** ** Theorems about the loss aggregation *)

(** C2 (as amended): when the loss record has at least one entry,
    [get_batch_losses] raises its error if and only if the weighted
    total is not-a-number, and returns the total with the record
    otherwise; one entry of the record that is not-a-number makes the
    total not-a-number, whatever the other entries and the weights are.
    (Without any entry the sum is the integer [0], which [torch.isnan]
    rejects.) *)
Theorem get_batch_losses_nan (self : TCNTrainer) (model_output : gmap string pyobj) :
  let ind := individual_losses_of self model_output in
  let total := weighted_total self ind in
  ind ≠ [] →
  (isnan total = true →
   get_batch_losses self model_output
   = Raise (RuntimeError "NaN loss encountered in test step"))
  ∧ (isnan total = false → get_batch_losses self model_output = Ok (total, ind))
  ∧ (∀ k, (k, S754_nan) ∈ ind → isnan total = true)
  ∧ (∀ pre post key f,
       loss_functions self = pre ++ (key, f) :: post →
       f model_output = Scalar S754_nan →
       (∀ kf, kf ∈ post → key ∉ keys_written kf.1 (kf.2 model_output)) →
       get_batch_losses self model_output
       = Raise (RuntimeError "NaN loss encountered in test step")).
Proof.
  intros ind total Hne.
  assert (get_batch_losses self model_output
          = if isnan total then Raise (RuntimeError "NaN loss encountered in test step")
            else Ok (total, ind)) as Hget.
  { rewrite get_batch_losses_unfold, py_sum_nonempty; [done|].
    unfold weighted_terms. fold ind. intros Hnil%fmap_nil_inv. done. }
  assert (∀ k, (k, S754_nan) ∈ ind → isnan total = true) as Hentry.
  { intros k Hin. apply isnan_true. apply fold_f32_add_nan_term.
    unfold weighted_terms. apply list_elem_of_fmap. exists (k, S754_nan).
    split; [|done]. simpl. by rewrite f32_mul_nan_r. }
  split; [by intros Hnan; rewrite Hget, Hnan|].
  split; [by intros Hnan; rewrite Hget, Hnan|].
  split; [done|].
  intros pre post key f Hfs Hf Hpost. rewrite Hget, (Hentry key); [done|].
  apply dict_get_elem_of.
  apply (individual_losses_entry self model_output pre post key f); try done.
  - rewrite Hf. simpl. apply NoDup_singleton.
  - rewrite Hf. simpl. apply list_elem_of_here.
Qed.

Lemma get_batch_losses_nan_witness :
  individual_losses_of trainer_nan ∅ ≠ []
  ∧ get_batch_losses trainer_nan ∅ = Raise (RuntimeError "NaN loss encountered in test step")
  ∧ individual_losses_of trainer0 ∅ ≠ []
  ∧ get_batch_losses trainer0 ∅
    = Ok (weighted_total trainer0 (individual_losses_of trainer0 ∅),
          individual_losses_of trainer0 ∅).
Proof.
  assert (individual_losses_of trainer_nan ∅ ≠ []) as Hnan by discriminate.
  assert (individual_losses_of trainer0 ∅ ≠ []) as Hone by discriminate.
  split; [exact Hnan|].
  split.
  { apply (proj2 (proj2 (proj2 (get_batch_losses_nan trainer_nan ∅ Hnan)))
             [("edge", fun _ => Scalar f32_half)] [] "potential" (fun _ => Scalar S754_nan));
      [reflexivity | reflexivity |].
    intros kf Hin. by apply elem_of_nil in Hin. }
  split; [exact Hone|].
  apply (proj1 (proj2 (get_batch_losses_nan trainer0 ∅ Hone))).
  reflexivity.
Defined.

(** C2 as stated fails without loss functions: the sum is the integer
    [0], not not-a-number, and the call raises all the same.  It also
    fails for [trainer_collide]: its first loss function returns
    not-a-number, the second one overwrites the entry, and the call
    returns. *)
Lemma get_batch_losses_raise_not_iff_nan :
  ¬ (is_ok (get_batch_losses trainer_no_loss ∅) = false
     ↔ pynum_isnan (py_sum (weighted_terms trainer_no_loss
                              (individual_losses_of trainer_no_loss ∅))) = true)
  ∧ ¬ ((∃ kf, kf ∈ loss_functions trainer_collide ∧ kf.2 ∅ = Scalar S754_nan) →
       is_ok (get_batch_losses trainer_collide ∅) = false).
Proof.
  split.
  - intros [H _]. specialize (H eq_refl). discriminate.
  - intros H. enough (true = false) by discriminate. apply H.
    eexists. split; [apply list_elem_of_here|reflexivity].
Qed.




(** ** Theorems about the clustering scanner *)

(** C8: once [_get_sector_to_study(i)] has returned a sector, every
    later call for the graph [i] returns the same sector, whatever calls
    for other graphs came in between and whatever the random generator
    does; a sector that is chosen (on a miss of the cache) is a sector of
    the graph other than the background sector [-1], so a scanner that
    started from [__init__] never returns the background sector.  The
    first call returns whenever the graph has a sector other than the
    background. *)
Theorem get_sector_to_study_stable (self : ClusterHyperParamScanner) (rng : RandomState)
    (i : Z) :
  (∀ a v, list_get (sectors self) i = Ok a → v ∈ flat a → v ≠ -1 →
     ∃ s self1 rng1, _get_sector_to_study self rng i = Ok (s, self1, rng1))
  ∧ (∀ s self1 rng1,
       _get_sector_to_study self rng i = Ok (s, self1, rng1) →
       (∀ self2 rng2, later self1 self2 →
          _get_sector_to_study self2 rng2 i = Ok (s, self2, rng2))
       ∧ (_graph_to_sector self !! i = None →
          s ≠ -1 ∧ ∃ a, list_get (sectors self) i = Ok a ∧ s ∈ flat a)
       ∧ (cache_ok self → s ≠ -1))
  ∧ (∀ graphs truth guide metrics sectors guide_proxy self0,
       __init__ graphs truth guide metrics sectors guide_proxy = Ok self0 →
       later self0 self → cache_ok self).
Proof.
  split; [intros a v; apply get_sector_total|]. split.
  - intros s self1 rng1 Hcall.
    destruct (get_sector_caches _ _ _ _ _ _ Hcall) as (Hc & _ & _).
    split; [|split].
    + intros self2 rng2 Hlater. apply get_sector_cached.
      by apply (later_keeps_cache self1 self2).
    + intros Hmiss. by apply (get_sector_fresh self self1 rng rng1).
    + intros Hok. apply (get_sector_cache_ok _ _ _ _ _ _ Hok Hcall i s Hc).
  - intros graphs truth guide metrics sectors guide_proxy self0 Hinit Hlater.
    apply (later_cache_ok self0 self Hlater).
    intros j t. rewrite (init_cache_empty _ _ _ _ _ _ _ Hinit), lookup_empty. done.
Qed.

Lemma get_sector_to_study_stable_witness :
  _get_sector_to_study scanner0 random0 1 = Ok (4, scanner0_1, mkRandom (draws random0) 1)
  ∧ later scanner0_1 scanner0_2
  ∧ _get_sector_to_study scanner0_2 random0 1 = Ok (4, scanner0_2, random0)
  ∧ 4 ≠ -1.
Proof.
  assert (_get_sector_to_study scanner0 random0 1
          = Ok (4, scanner0_1, mkRandom (draws random0) 1)) as Hfirst by reflexivity.
  assert (later scanner0_1 scanner0_2) as Hlater.
  { eapply (later_call scanner0_1 random0 0 2 scanner0_2); [reflexivity|apply later_refl]. }
  destruct (get_sector_to_study_stable scanner0 random0 1) as (_ & Hstable & _).
  destruct (Hstable _ _ _ Hfirst) as (Hsame & Hfresh & _).
  split; [exact Hfirst|]. split; [exact Hlater|].
  split; [exact (Hsame scanner0_2 random0 Hlater)|].
  exact (proj1 (Hfresh eq_refl)).
Defined.

(** C9 (evaluation of the code): without [sectors], the constructor
    calls [np.ones] with the truth vector itself as the shape.  For the
    three hits of [truth0 = [1; 2; 2]] it builds an array with the
    dimensions [1 x 2 x 2], of length 1; for [truth1 = [0; 5; 5]] it
    builds an array without entries, on which [_get_sector_to_study]
    raises. *)
Theorem default_sectors_take_truth_as_shape :
  (∃ self a,
     __init__ [graph0] [truth0] "v_measure" [] None "" = Ok self
     ∧ sectors self = [a]
     ∧ dims a = [1; 2; 2]%nat
     ∧ flat a = [1; 1; 1; 1]
     ∧ np_len a = Ok 1%nat
     ∧ length truth0 = 3%nat)
  ∧ (∃ self a,
       __init__ [graph0] [truth1] "v_measure" [] None "" = Ok self
       ∧ sectors self = [a]
       ∧ dims a = [0; 5; 5]%nat
       ∧ flat a = []
       ∧ np_len a = Ok 0%nat
       ∧ length truth1 = 3%nat
       ∧ ∀ rng, _get_sector_to_study self rng 0 = Raise ValueError).
Proof.
  split.
  - eexists _, _. split; [reflexivity|]. repeat split.
  - eexists _, _. split; [reflexivity|]. repeat split.
Qed.

(** ** Further theorems about the truth-cut masks *)

(** X1: on a batch whose node tensors have one entry per node and whose
    edges stay within the bounds, [get_masks] keeps a node exactly when
    it passes the three cuts: the momentum cut (which a threshold that is
    not positive switches off, which spares every node with
    [particle_id <= 0], and which compares the momentum with the binary32
    number nearest to the threshold), the noise cut (which removes the nodes with
    [particle_id <= 0], negative ids included) and the reconstructability
    cut (which removes the nodes with [reconstructable <= 0]). *)
Theorem get_masks_node_mask (self : TrainingTruthCutConfig) (data : Data) :
  nodes_consistent data →
  Forall (edge_in_bounds (length (x data))) (edge_index data) →
  ∃ nm em,
    get_masks self data = Ok (nm, em)
    ∧ length nm = length (x data)
    ∧ ∀ (i : nat) (pid : Z) (p : Q) (r : Z),
        particle_id data !! i = Some pid → pt data !! i = Some p →
        reconstructable data !! i = Some r →
        ∃ keep : bool,
          nm !! i = Some keep
          ∧ (keep = true
             ↔ ((pt_thld self <= 0)%Q ∨ pid <= 0
                ∨ (round_float32 (pt_thld self) < p)%Q)
               ∧ (without_noise self = true → 0 < pid)
               ∧ (without_non_reconstructable self = true → 0 < r)).
Proof.
  intros Hc Hb. destruct (get_masks_in_bounds_total self data Hc Hb) as (nm & em & Hget).
  destruct (get_masks_nodes_consistent self data Hc) as (nm' & Hlen & Heq & Hform).
  assert (nm' = nm) as ->.
  { rewrite Heq in Hget. bind_inv Hget. bind_inv Hget. by injection Hget. }
  exists nm, em. split; [done|]. split; [done|].
  intros i pid p r Hpid Hp Hr. eexists. split; [by apply Hform|].
  rewrite !andb_true_iff, passes_pt_cut_true, passes_noise_cut_true,
    passes_reconstructable_cut_true. tauto.
Qed.

Lemma get_masks_node_mask_witness :
  nodes_consistent batch0
  ∧ Forall (edge_in_bounds (length (x batch0))) (edge_index batch0)
  ∧ ∃ nm em,
      get_masks all_cuts batch0 = Ok (nm, em)
      ∧ length nm = length (x batch0)
      ∧ ∀ (i : nat) (pid : Z) (p : Q) (r : Z),
          particle_id batch0 !! i = Some pid → pt batch0 !! i = Some p →
          reconstructable batch0 !! i = Some r →
          ∃ keep : bool,
            nm !! i = Some keep
            ∧ (keep = true
               ↔ ((pt_thld all_cuts <= 0)%Q ∨ pid <= 0
                  ∨ (round_float32 (pt_thld all_cuts) < p)%Q)
                 ∧ (without_noise all_cuts = true → 0 < pid)
                 ∧ (without_non_reconstructable all_cuts = true → 0 < r)).
Proof.
  assert (nodes_consistent batch0) as Hc by (by repeat split).
  assert (Forall (edge_in_bounds (length (x batch0))) (edge_index batch0)) as Hb.
  { repeat constructor; simpl; lia. }
  split; [exact Hc|]. split; [exact Hb|].
  exact (get_masks_node_mask all_cuts batch0 Hc Hb).
Defined.

(** X2: [is_trivial] holds exactly when both exclusions are off and the
    threshold lies within [atol] of zero, the binary64 number nearest to
    [1e-08].  A positive threshold within this tolerance is therefore
    reported as trivial although [get_masks] applies it: every hit of a
    particle ([particle_id > 0]) with a momentum up to the threshold, as
    rounded to binary32, is excluded. *)
Theorem is_trivial_tolerance (self : TrainingTruthCutConfig) :
  (is_trivial self = true
   ↔ (Qabs (pt_thld self) <= atol)%Q
     ∧ without_noise self = false ∧ without_non_reconstructable self = false)
  ∧ ∀ data : Data,
      wf_data data → (0 < pt_thld self)%Q → is_trivial self = true →
      ∃ nm em,
        get_masks self data = Ok (nm, em)
        ∧ ∀ (i : nat) (pid : Z) (p : Q),
            particle_id data !! i = Some pid → pt data !! i = Some p →
            0 < pid → (p <= round_float32 (pt_thld self))%Q → nm !! i = Some false.
Proof.
  split.
  - unfold is_trivial. rewrite !andb_true_iff, !negb_true_iff, isclose_zero_iff. tauto.
  - intros data Hwf Hpos _.
    destruct (get_masks_total self data Hwf) as (nm & em & Hget).
    destruct (get_masks_nodes self data Hwf) as (nm' & Hlen & Heq & Hform).
    assert (nm' = nm) as ->.
    { rewrite Heq in Hget. bind_inv Hget. bind_inv Hget. by injection Hget. }
    exists nm, em. split; [done|]. intros i pid p Hpid Hp Hparticle Hlow.
    destruct (lookup_lt_is_Some_2 (reconstructable data) i) as [r Hr].
    { rewrite (wf_reconstructable _ Hwf), <- (wf_pt _ Hwf). by eapply lookup_lt_Some. }
    rewrite (Hform i pid p r Hpid Hp Hr).
    assert (passes_pt_cut self pid p = false) as ->; [|done].
    apply not_true_iff_false. rewrite passes_pt_cut_true.
    intros [H|[H|H]]; [|lia|].
    + by apply (Qlt_not_le _ _ Hpos).
    + by apply (Qlt_not_le _ _ H).
Qed.

Lemma is_trivial_tolerance_witness :
  wf_data batch_at_rest ∧ (0 < pt_thld tiny_cuts)%Q ∧ is_trivial tiny_cuts = true
  ∧ is_trivial (mkCuts atol false false) = true
  ∧ get_masks tiny_cuts batch_at_rest = Ok ([false], [])
  ∧ ∃ nm em,
      get_masks tiny_cuts batch_at_rest = Ok (nm, em)
      ∧ ∀ (i : nat) (pid : Z) (p : Q),
          particle_id batch_at_rest !! i = Some pid → pt batch_at_rest !! i = Some p →
          0 < pid → (p <= round_float32 (pt_thld tiny_cuts))%Q → nm !! i = Some false.
Proof.
  assert (wf_data batch_at_rest) as Hwf by (split; simpl; try reflexivity; constructor).
  split; [exact Hwf|]. split; [reflexivity|]. split; [reflexivity|].
  split; [reflexivity|]. split; [reflexivity|].
  exact (proj2 (is_trivial_tolerance tiny_cuts) batch_at_rest Hwf eq_refl eq_refl).
Defined.

(** X3: on a batch whose node tensors have one entry per node,
    [get_masks] returns exactly when both end points of every edge lie in
    [-n, n), [n] being the number of nodes (a negative index counts from
    the end); otherwise it raises [IndexError], and it raises nothing
    else. *)
Theorem get_masks_index_error (self : TrainingTruthCutConfig) (data : Data) :
  nodes_consistent data →
  (is_ok (get_masks self data) = true
   ↔ Forall (edge_in_bounds (length (x data))) (edge_index data))
  ∧ (¬ Forall (edge_in_bounds (length (x data))) (edge_index data) →
     get_masks self data = Raise IndexError).
Proof.
  intros Hc. split; [by apply get_masks_ok_iff|].
  intros Hb. rewrite <- (get_masks_ok_iff self data Hc) in Hb.
  destruct (get_masks self data) as [|e] eqn:Hget; [done|].
  by rewrite (get_masks_error self data e Hc Hget).
Qed.

Lemma get_masks_index_error_witness :
  nodes_consistent batch_wrapped ∧ nodes_consistent batch_dangling
  ∧ get_masks cuts0 batch_wrapped = Ok ([true; false; true], [false; false; true])
  ∧ Forall (edge_in_bounds (length (x batch_wrapped))) (edge_index batch_wrapped)
  ∧ get_masks cuts0 batch_dangling = Raise IndexError.
Proof.
  assert (nodes_consistent batch_wrapped) as Hw by (by repeat split).
  assert (nodes_consistent batch_dangling) as Hd by (by repeat split).
  split; [exact Hw|]. split; [exact Hd|]. split; [reflexivity|].
  split; [exact (proj1 (proj1 (get_masks_index_error cuts0 batch_wrapped Hw)) eq_refl)|].
  apply (proj2 (get_masks_index_error cuts0 batch_dangling Hd)).
  intros H. apply (Forall_lookup_1 _ _ 2%nat (0, 3)) in H; [|reflexivity].
  destruct H as [_ H]. simpl in H. lia.
Defined.

(** X22: the truth cuts are monotone.  When a configuration has a
    threshold that is at least as high as that of another one and switches
    on at least the same cuts, every node and every edge that it keeps is
    kept by the other one as well; this holds across the threshold 0, at
    which the momentum cut is switched off. *)
Theorem get_masks_monotone (c1 c2 : TrainingTruthCutConfig) (data : Data) :
  nodes_consistent data →
  Forall (edge_in_bounds (length (x data))) (edge_index data) →
  stricter c1 c2 →
  ∃ nm1 em1 nm2 em2,
    get_masks c1 data = Ok (nm1, em1)
    ∧ get_masks c2 data = Ok (nm2, em2)
    ∧ (∀ i : nat, nm2 !! i = Some true → nm1 !! i = Some true)
    ∧ (∀ e : nat, em2 !! e = Some true → em1 !! e = Some true).
Proof.
  intros Hc Hb Hstrict.
  destruct (get_masks_in_bounds_total c1 data Hc Hb) as (nm1 & em1 & Hget1).
  destruct (get_masks_in_bounds_total c2 data Hc Hb) as (nm2 & em2 & Hget2).
  destruct (get_masks_nodes_consistent c1 data Hc) as (nm1' & Hlen1 & Heq1 & Hform1).
  destruct (get_masks_nodes_consistent c2 data Hc) as (nm2' & Hlen2 & Heq2 & Hform2).
  assert (nm1' = nm1) as ->.
  { rewrite Heq1 in Hget1. bind_inv Hget1. bind_inv Hget1. by injection Hget1. }
  assert (nm2' = nm2) as ->.
  { rewrite Heq2 in Hget2. bind_inv Hget2. bind_inv Hget2. by injection Hget2. }
  exists nm1, em1, nm2, em2. split; [done|]. split; [done|].
  assert (∀ i : nat, nm2 !! i = Some true → nm1 !! i = Some true) as Hnodes.
  { intros i Hi. pose proof (lookup_lt_Some _ _ _ Hi) as Hlt. rewrite Hlen2 in Hlt.
    destruct Hc as (Hpt & Hpid & Hreco).
    destruct (lookup_lt_is_Some_2 (particle_id data) i) as [pid Hp]; [lia|].
    destruct (lookup_lt_is_Some_2 (pt data) i) as [p Hq]; [lia|].
    destruct (lookup_lt_is_Some_2 (reconstructable data) i) as [r Hr]; [lia|].
    rewrite (Hform2 i pid p r Hp Hq Hr) in Hi. injection Hi as Hi.
    rewrite (Hform1 i pid p r Hp Hq Hr). f_equal.
    by apply (passes_cuts_mono c1 c2). }
  split; [done|].
  intros e He.
  destruct (get_masks_edge_spec c1 data nm1 em1 Hget1) as [Hl1 Hspec1].
  destruct (get_masks_edge_spec c2 data nm2 em2 Hget2) as [Hl2 Hspec2].
  pose proof (lookup_lt_Some _ _ _ He) as Hlt. rewrite Hl2 in Hlt.
  destruct (lookup_lt_is_Some_2 (edge_index data) e Hlt) as [[s d] Hsd].
  destruct (Hspec2 e s d Hsd) as (bs2 & bd2 & Hs2 & Hd2 & He2).
  rewrite He2 in He. injection He as He. apply andb_true_iff in He as [-> ->].
  destruct (Hspec1 e s d Hsd) as (bs1 & bd1 & Hs1 & Hd1 & He1).
  assert (length nm1 = length nm2) as Hl by lia.
  rewrite (tensor_get_mono nm1 nm2 s Hl Hnodes Hs2) in Hs1.
  rewrite (tensor_get_mono nm1 nm2 d Hl Hnodes Hd2) in Hd1.
  injection Hs1 as <-. injection Hd1 as <-. done.
Qed.

Lemma get_masks_monotone_witness :
  stricter cuts0 all_cuts
  ∧ ∃ nm1 em1 nm2 em2,
      get_masks cuts0 batch0 = Ok (nm1, em1)
      ∧ get_masks all_cuts batch0 = Ok (nm2, em2)
      ∧ (∀ i : nat, nm2 !! i = Some true → nm1 !! i = Some true)
      ∧ (∀ e : nat, em2 !! e = Some true → em1 !! e = Some true).
Proof.
  assert (stricter cuts0 all_cuts) as Hs.
  { split; [simpl; apply Qle_refl|]. split; discriminate. }
  split; [exact Hs|].
  apply (get_masks_monotone cuts0 all_cuts batch0); [| |exact Hs].
  - repeat split.
  - repeat constructor; simpl; lia.
Defined.

(** ** Further theorems about [_apply_mask] *)

(** X4: the batch that [_apply_mask] returns for a well-formed batch is
    well formed: it has one node for every true entry of the node mask
    and one edge for every true entry of the edge mask, its edges join
    nodes of the new batch, and the features, momentum, particle id,
    reconstructability flag and sector of a surviving node [i] are found
    at its new index. *)
Theorem apply_mask_well_formed (data d' : Data) (nm em : list bool) :
  wf_data data → _apply_mask data nm em = Ok d' →
  wf_data d'
  ∧ length (x d') = popcount nm
  ∧ length (edge_index d') = popcount em
  ∧ ∀ i : nat, nm !! i = Some true →
      x d' !! rank nm i = x data !! i
      ∧ pt d' !! rank nm i = pt data !! i
      ∧ particle_id d' !! rank nm i = particle_id data !! i
      ∧ reconstructable d' !! rank nm i = reconstructable data !! i
      ∧ sector d' !! rank nm i = sector data !! i.
Proof.
  intros Hwf H. destruct (apply_mask_wf data d' nm em Hwf H) as (Hwf' & Hk & He).
  split; [done|]. split; [done|]. split; [done|].
  apply apply_mask_inv in H as (_ & _ & Hnm & -> & _ & _ & -> & -> & -> & -> & _).
  destruct Hwf as [Hpt Hpid Hreco Hsec _ _ _].
  intros i Hi. repeat split; apply select_lookup_rank; congruence.
Qed.

Lemma apply_mask_well_formed_witness :
  wf_data batch0
  ∧ _apply_mask batch0 [true; false; true] [false; false; true] = Ok masked_batch0
  ∧ wf_data masked_batch0
  ∧ length (x masked_batch0) = popcount [true; false; true]
  ∧ length (edge_index masked_batch0) = popcount [false; false; true]
  ∧ pt masked_batch0 !! rank [true; false; true] 2 = pt batch0 !! 2%nat.
Proof.
  destruct (apply_mask_well_formed batch0 masked_batch0 [true; false; true]
              [false; false; true] wf_batch0 eq_refl) as (Hwf & Hk & He & Hattr).
  split; [exact wf_batch0|]. split; [reflexivity|]. split; [exact Hwf|].
  split; [exact Hk|]. split; [exact He|].
  exact (proj1 (proj2 (Hattr 2%nat eq_refl))).
Defined.

(** X5: how [_apply_mask] fails, for an edge mask with one entry per
    edge.  A node mask with a single entry is taken for an index by
    numpy: [_apply_mask] raises [IndexError] when the entry is true and
    [AssertionError] when it is false.  For a node mask of another length:
    when no edge survives it raises [ValueError] (from [np.vectorize] on
    an input of size zero), also when the masks are consistent.  When an
    edge survives of which an end point is no surviving node (an excluded
    node, an index outside the batch, or a negative index, which
    [get_masks] would accept) it raises [TypeError].  In every other case
    on a well-formed batch with a node mask of the right length it
    returns. *)
Theorem apply_mask_errors (data : Data) (nm em : list bool) :
  length em = length (edge_index data) →
  (∀ b : bool, nm = [b] →
     _apply_mask data nm em = Raise (if b then IndexError else AssertionError))
  ∧ (length nm ≠ 1%nat →
     (select (edge_index data) em = [] → _apply_mask data nm em = Raise ValueError)
     ∧ (select (edge_index data) em ≠ [] →
        ¬ Forall (fun e => survives nm e.1 ∧ survives nm e.2)
            (select (edge_index data) em) →
        _apply_mask data nm em = Raise TypeError)
     ∧ (select (edge_index data) em ≠ [] →
        Forall (fun e => survives nm e.1 ∧ survives nm e.2) (select (edge_index data) em) →
        wf_data data → length nm = length (x data) →
        ∃ d', _apply_mask data nm em = Ok d')).
Proof.
  intros Hem. split; [intros b ->; apply apply_mask_one_entry|]. intros Hone.
  split; [by apply apply_mask_no_edge|]. split; [by apply apply_mask_dangling|].
  intros Hne Hall Hwf Hnm. apply apply_mask_total; try done.
  intros e s d He Hkeep. rewrite !survives_mapping.
  assert ((s, d) ∈ select (edge_index data) em) as Hin by (by eapply select_elem_of).
  rewrite Forall_forall in Hall. exact (Hall (s, d) Hin).
Qed.

Lemma apply_mask_errors_witness :
  length no_edge_mask = length (edge_index batch0)
  ∧ select (edge_index batch0) no_edge_mask = []
  ∧ _apply_mask batch0 [true; true; true] no_edge_mask = Raise ValueError
  ∧ select (edge_index batch_wrapped) [false; false; true] ≠ []
  ∧ _apply_mask batch_wrapped [true; false; true] [false; false; true] = Raise TypeError
  ∧ (∃ d', _apply_mask batch0 [true; false; true] [false; false; true] = Ok d')
  ∧ _apply_mask batch_self_loop [true] [true] = Raise IndexError.
Proof.
  assert (length [true; false; true] ≠ 1%nat) as Hthree by discriminate.
  split; [reflexivity|]. split; [reflexivity|].
  split; [exact (proj1 (proj2 (apply_mask_errors batch0 [true; true; true] no_edge_mask
                                 eq_refl) Hthree) eq_refl)|].
  split; [discriminate|].
  split.
  - apply (proj1 (proj2 (proj2 (apply_mask_errors batch_wrapped [true; false; true]
                                  [false; false; true] eq_refl) Hthree)));
      [discriminate|].
    intros H. apply (Forall_lookup_1 _ _ 0%nat (0, -1)) in H; [|reflexivity].
    destruct H as [_ (i & Hi & _)]. simpl in Hi. lia.
  - split.
    + apply (proj2 (proj2 (proj2 (apply_mask_errors batch0 [true; false; true]
                                    [false; false; true] eq_refl) Hthree))).
      * discriminate.
      * repeat constructor; simpl; [by exists 0%nat|by exists 2%nat].
      * exact wf_batch0.
      * reflexivity.
    + exact (proj1 (apply_mask_errors batch_self_loop [true] [true] eq_refl) true eq_refl).
Defined.

(** X6: the cuts are idempotent.  When [get_masks] and [_apply_mask] have
    cut a well-formed batch down, [get_masks] with the same configuration
    keeps every node and every edge of the new batch, and [_apply_mask]
    with these masks returns the new batch unchanged, unless the new
    batch has a single node, on which [_apply_mask] raises [IndexError]. *)
Theorem truth_cuts_idempotent (self : TrainingTruthCutConfig) (data d' : Data)
    (nm em : list bool) :
  wf_data data → get_masks self data = Ok (nm, em) → _apply_mask data nm em = Ok d' →
  get_masks self d'
  = Ok (replicate (length (x d')) true, replicate (length (edge_index d')) true)
  ∧ (length (x d') ≠ 1%nat →
     _apply_mask d' (replicate (length (x d')) true)
       (replicate (length (edge_index d')) true) = Ok d')
  ∧ (length (x d') = 1%nat →
     _apply_mask d' (replicate (length (x d')) true)
       (replicate (length (edge_index d')) true) = Raise IndexError).
Proof.
  intros Hwf Hget Happly.
  split; [by eapply get_masks_after_apply_mask|].
  destruct (apply_mask_wf data d' nm em Hwf Happly) as (Hwf' & _ & _).
  split.
  - intros Hone. apply apply_mask_all_true; [done|done|].
    apply apply_mask_inv in Happly as (Hne & _ & _ & _ & _ & _ & _ & _ & _ & _ & Hedges).
    intros Hnil. rewrite Hnil in Hedges. apply Forall2_nil_inv_r in Hedges. done.
  - intros ->. apply (apply_mask_one_entry d' true).
Qed.

Lemma truth_cuts_idempotent_witness :
  wf_data batch0
  ∧ get_masks cuts0 batch0 = Ok ([true; false; true], [false; false; true])
  ∧ _apply_mask batch0 [true; false; true] [false; false; true] = Ok masked_batch0
  ∧ get_masks cuts0 masked_batch0 = Ok ([true; true], [true])
  ∧ _apply_mask masked_batch0 [true; true] [true] = Ok masked_batch0.
Proof.
  split; [exact wf_batch0|]. split; [reflexivity|]. split; [reflexivity|].
  destruct (truth_cuts_idempotent cuts0 batch0 masked_batch0 [true; false; true]
              [false; false; true] wf_batch0 eq_refl eq_refl) as (Hget & Happly & _).
  split; [exact Hget|]. apply Happly. discriminate.
Defined.

(** ** Further theorems about the trainer *)

(** X7: without truth cuts [evaluate_model] does not raise on a batch
    whose particle ids and reconstructability flags have the same length:
    it passes the batch unchanged through the network, once, and with
    [mask_pids_reco] the particle id it reports for a hit is the [int64]
    product of the id and the flag: [0] for a flag [0], the id itself for
    a flag [1] and an id within the range of [int64], the product
    whenever it is within that range, and the number that the product
    wraps around to otherwise.  Without [mask_pids_reco] it reports the
    ids as they are. *)
Theorem evaluate_model_without_cuts (self : TCNTrainer) (θ : list Q) (data : Data)
    (m : bool) :
  length (particle_id data) = length (reconstructable data) →
  ∃ dct,
    evaluate_model self θ data m false = Traced [EvForward data] (Ok dct)
    ∧ dct !! "particle_id"
      = Some (LongTensor (if m
                          then zip_with mul_int64 (particle_id data) (reconstructable data)
                          else particle_id data))
    ∧ ∀ (i : nat) (pid r : Z),
        particle_id data !! i = Some pid → reconstructable data !! i = Some r →
        zip_with mul_int64 (particle_id data) (reconstructable data) !! i
        = Some (mul_int64 pid r)
        ∧ - 2 ^ 63 <= mul_int64 pid r < 2 ^ 63
        ∧ (mul_int64 pid r - pid * r) mod 2 ^ 64 = 0
        ∧ (- 2 ^ 63 <= pid * r < 2 ^ 63 → mul_int64 pid r = pid * r)
        ∧ (r = 0 → mul_int64 pid r = 0)
        ∧ (r = 1 → - 2 ^ 63 <= pid < 2 ^ 63 → mul_int64 pid r = pid).
Proof.
  intros Hl.
  assert (∀ (i : nat) (pid r : Z),
            particle_id data !! i = Some pid → reconstructable data !! i = Some r →
            zip_with mul_int64 (particle_id data) (reconstructable data) !! i
            = Some (mul_int64 pid r)
            ∧ - 2 ^ 63 <= mul_int64 pid r < 2 ^ 63
            ∧ (mul_int64 pid r - pid * r) mod 2 ^ 64 = 0
            ∧ (- 2 ^ 63 <= pid * r < 2 ^ 63 → mul_int64 pid r = pid * r)
            ∧ (r = 0 → mul_int64 pid r = 0)
            ∧ (r = 1 → - 2 ^ 63 <= pid < 2 ^ 63 → mul_int64 pid r = pid)) as Hprod.
  { intros i pid r Hpid Hr.
    split; [by rewrite lookup_zip_with, Hpid; simpl; rewrite Hr|].
    split; [apply wrap_int64_range|]. unfold mul_int64.
    split.
    { unfold wrap_int64.
      replace ((pid * r + 2 ^ 63) mod 2 ^ 64 - 2 ^ 63 - pid * r)
        with ((pid * r + 2 ^ 63) mod 2 ^ 64 - (pid * r + 2 ^ 63)) by lia.
      rewrite Zminus_mod, Z.mod_mod, Z.sub_diag by lia. done. }
    split; [apply wrap_int64_small|].
    split; [intros ->; by rewrite Z.mul_0_r|].
    intros -> Hpid'. rewrite Z.mul_1_r. by apply wrap_int64_small. }
  unfold evaluate_model. cbn.
  destruct m.
  - rewrite (mul_long_same_length _ _ Hl). cbn. eexists. split; [done|].
    split; [by simplify_map_eq|done].
  - cbn. eexists. split; [done|]. split; [by simplify_map_eq|done].
Qed.

Lemma evaluate_model_without_cuts_witness :
  length (particle_id batch_nonreco) = length (reconstructable batch_nonreco)
  ∧ (∃ dct,
       evaluate_model trainer0 [] batch_nonreco true false
       = Traced [EvForward batch_nonreco] (Ok dct)
       ∧ dct !! "particle_id" = Some (LongTensor [7; 0; 0]))
  ∧ ∃ dct,
      evaluate_model trainer0 [] batch_large_id true false
      = Traced [EvForward batch_large_id] (Ok dct)
      ∧ dct !! "particle_id" = Some (LongTensor [- 2 ^ 63]).
Proof.
  split; [reflexivity|]. split.
  - destruct (evaluate_model_without_cuts trainer0 [] batch_nonreco true eq_refl)
      as (dct & Hev & Hpid & _).
    exists dct. split; [exact Hev|exact Hpid].
  - destruct (evaluate_model_without_cuts trainer0 [] batch_large_id true eq_refl)
      as (dct & Hev & Hpid & _).
    exists dct. split; [exact Hev|exact Hpid].
Defined.

(** X8: when the truth cuts leave no edge of a batch with more than one
    node (in particular when the batch has no edge, whatever the cuts
    are), [evaluate_model] with truth cuts raises [ValueError] after the
    calls of [get_masks] and [_apply_mask], before the batch reaches the
    network; on a batch with a single node it raises [IndexError] when the
    cuts keep the node and [AssertionError] when they do not, whatever the
    edges are.  A training step that meets such a batch first ends there
    with this error, and neither steps the loss weights nor calls the
    train hooks. *)
Theorem evaluate_model_no_surviving_edge (self : TCNTrainer) (θ : list Q) (data : Data)
    (m : bool) (nm em : list bool) :
  get_masks (training_truth_cuts self) data = Ok (nm, em) →
  (length nm ≠ 1%nat → select (edge_index data) em = [] →
   evaluate_model self θ data m true = Traced [EvGetMasks; EvApplyMask] (Raise ValueError)
   ∧ ∀ max_batches loader,
       past_max_batches max_batches 0 = false →
       train_step self max_batches (data :: loader) θ
       = Traced [EvGetMasks; EvApplyMask] (Raise ValueError))
  ∧ (∀ b : bool, nm = [b] →
     let e := if b then IndexError else AssertionError in
     evaluate_model self θ data m true = Traced [EvGetMasks; EvApplyMask] (Raise e)
     ∧ ∀ max_batches loader,
         past_max_batches max_batches 0 = false →
         train_step self max_batches (data :: loader) θ
         = Traced [EvGetMasks; EvApplyMask] (Raise e)).
Proof.
  intros Hget.
  assert (∀ e, _apply_mask data nm em = Raise e →
            (∀ m', evaluate_model self θ data m' true
                   = Traced [EvGetMasks; EvApplyMask] (Raise e))
            ∧ ∀ max_batches loader,
                past_max_batches max_batches 0 = false →
                train_step self max_batches (data :: loader) θ
                = Traced [EvGetMasks; EvApplyMask] (Raise e)) as Hfail.
  { intros e Happly.
    assert (∀ m', evaluate_model self θ data m' true
                  = Traced [EvGetMasks; EvApplyMask] (Raise e)) as Hev.
    { intros m'. unfold evaluate_model. rewrite Hget. cbn. by rewrite Happly. }
    split; [done|].
    intros max_batches loader Hmb. unfold train_step. cbn [train_loop]. rewrite Hmb.
    cbn [params]. by rewrite Hev. }
  split.
  - intros Hone Hnil.
    destruct (get_masks_edge_spec _ data nm em Hget) as [Hem _].
    destruct (Hfail _ (apply_mask_no_edge data nm em Hone Hem Hnil)) as [Hev Htrain].
    split; [apply Hev|done].
  - intros b ->. cbn zeta.
    destruct (Hfail _ (apply_mask_one_entry data b em)) as [Hev Htrain].
    split; [apply Hev|done].
Qed.

Lemma evaluate_model_no_surviving_edge_witness :
  get_masks (training_truth_cuts trainer0) batch_no_edges = Ok ([true; true], [])
  ∧ evaluate_model trainer0 [] batch_no_edges true true
    = Traced [EvGetMasks; EvApplyMask] (Raise ValueError)
  ∧ train_step trainer0 None [batch_no_edges; batch0] []
    = Traced [EvGetMasks; EvApplyMask] (Raise ValueError)
  ∧ get_masks (training_truth_cuts trainer0) batch_self_loop = Ok ([true], [true])
  ∧ evaluate_model trainer0 [] batch_self_loop true true
    = Traced [EvGetMasks; EvApplyMask] (Raise IndexError).
Proof.
  destruct (evaluate_model_no_surviving_edge trainer0 [] batch_no_edges true [true; true] []
              eq_refl) as [Hno _].
  destruct (Hno ltac:(discriminate) eq_refl) as [Hev Htrain].
  destruct (evaluate_model_no_surviving_edge trainer0 [] batch_self_loop true [true] [true]
              eq_refl) as [_ Hone].
  split; [reflexivity|]. split; [exact Hev|].
  split; [exact (Htrain None [batch0] eq_refl)|].
  split; [reflexivity|]. exact (proj1 (Hone true eq_refl)).
Defined.

(** X9: the loss record that [get_batch_losses] returns has no key
    twice, and each of its entries was written by one of the loss
    functions: it is the result of a loss function under that function's
    name, or an entry of the mapping it returned under [name_subkey]. *)
Theorem get_batch_losses_record_invariant (self : TCNTrainer)
    (model_output : gmap string pyobj) (total : spec_float)
    (ind : list (string * spec_float)) :
  get_batch_losses self model_output = Ok (total, ind) →
  NoDup ind.*1
  ∧ ∀ k v, (k, v) ∈ ind →
      ∃ name f,
        (name, f) ∈ loss_functions self
        ∧ ((f model_output = Scalar v ∧ k = name)
           ∨ ∃ items subkey,
               f model_output = Mapping items ∧ (subkey, v) ∈ items
               ∧ k = name +:+ "_" +:+ subkey).
Proof.
  intros ->%get_batch_losses_record.
  destruct (individual_losses_invariant self model_output) as [Hnd Hin].
  split; [done|]. intros k v ([name f] & Hkf & Hkv)%Hin. exists name, f.
  split; [done|]. simpl in Hkv. destruct (f model_output) as [v0|items]; simpl in Hkv.
  - apply list_elem_of_singleton in Hkv as [= -> ->]. by left.
  - apply list_elem_of_fmap in Hkv as ([subkey v0] & [= -> ->] & Hitem).
    right. by exists items, subkey.
Qed.

Lemma get_batch_losses_record_invariant_witness :
  ∃ total ind,
    get_batch_losses trainer0 ∅ = Ok (total, ind)
    ∧ NoDup ind.*1
    ∧ ∀ k v, (k, v) ∈ ind →
        ∃ name f,
          (name, f) ∈ loss_functions trainer0
          ∧ ((f ∅ = Scalar v ∧ k = name)
             ∨ ∃ items subkey,
                 f ∅ = Mapping items ∧ (subkey, v) ∈ items
                 ∧ k = name +:+ "_" +:+ subkey).
Proof.
  eexists _, _. split; [reflexivity|].
  exact (get_batch_losses_record_invariant trainer0 ∅ _ _ eq_refl).
Defined.

(** X10: a negative [max_batches] is a limit that the first batch
    exceeds: [train_step] then processes no batch at all, with the
    truth cuts, the network, the batch hooks and the optimizer untouched.
    It still goes on after the loop: the loss weights are stepped, a row
    is appended to [train_loss] and the train hooks are called, all on an
    empty table of losses. *)
Theorem train_step_negative_max_batches (self : TCNTrainer) (n : Z) (loader : list Data)
    (θ : list Q) :
  n < 0 →
  train_step self (Some n) loader θ
  = Traced [EvLossWeightStep; EvTrainLossAppend (_epoch self); EvTrainHooks]
      (Ok (mkTrainState θ [])).
Proof.
  intros Hn. unfold train_step. destruct loader as [|data loader]; [done|].
  cbn [train_loop past_max_batches].
  destruct (Z.eqb_spec n 0); [lia|]. destruct (Z.ltb_spec n (Z.of_nat 0)); [done|lia].
Qed.

Lemma train_step_negative_max_batches_witness :
  -1 < 0
  ∧ train_step trainer0 (Some (-1)) loader0 []
    = Traced [EvLossWeightStep; EvTrainLossAppend 1; EvTrainHooks] (Ok (mkTrainState [] [])).
Proof.
  split; [lia|]. apply (train_step_negative_max_batches trainer0 (-1) loader0 []). lia.
Defined.

(** X11: in a training step the optimizer is stepped once for each batch
    whose loop body runs through, after the batch hooks, which follow the
    pass through the network: at any point the three counts differ by at
    most one.  When [train_step] returns, the network has seen every
    batch that the loop reached exactly once, and the parameters are
    those that the optimizer steps on these batches, in their order,
    make of the initial ones. *)
Theorem train_step_optimizer_steps (self : TCNTrainer) (max_batches : option Z)
    (loader : list Data) (θ : list Q) :
  let r := train_step self max_batches loader θ in
  let reached := within max_batches 0 (length loader) in
  (count_event is_optimizer_step (trace r) ≤ length (hooked (trace r)))%nat
  ∧ (length (hooked (trace r)) ≤ count_event is_forward (trace r))%nat
  ∧ (count_event is_forward (trace r) ≤ S (count_event is_optimizer_step (trace r)))%nat
  ∧ ∀ st, outcome r = Ok st →
      count_event is_optimizer_step (trace r) = reached
      ∧ count_event is_forward (trace r) = reached
      ∧ params st = fold_left (optimizer_step self) (take reached loader) θ.
Proof.
  cbn zeta. rewrite train_step_outcome, train_step_trace, !count_event_app, hooked_app.
  pose proof (train_loop_counts self max_batches loader 0 (mkTrainState θ [])) as H.
  cbn zeta in H.
  destruct (is_ok (outcome (train_loop self max_batches 0 loader (mkTrainState θ []))));
    cbn; rewrite ?app_nil_r, ?Nat.add_0_r; exact H.
Qed.

Lemma train_step_optimizer_steps_witness :
  ∃ st,
    outcome (train_step trainer_log (Some 1) loader1 []) = Ok st
    ∧ count_event is_optimizer_step (trace (train_step trainer_log (Some 1) loader1 []))
      = 2%nat
    ∧ count_event is_forward (trace (train_step trainer_log (Some 1) loader1 [])) = 2%nat
    ∧ params st = [1%Q; 3%Q].
Proof.
  eexists. split; [reflexivity|].
  exact (proj2 (proj2 (proj2 (train_step_optimizer_steps trainer_log (Some 1) loader1 [])))
           _ eq_refl).
Defined.

(** X14: [_edge_pt_mask] returns exactly when both end points of every
    edge are indices within the bounds of [pt], and raises [IndexError]
    otherwise; the mask it returns has one entry per edge, which is true
    exactly when one end point of the edge has a momentum above the
    binary32 number nearest to [pt_min], with which torch compares the
    momenta; an edge between two hits with a momentum up to that number
    is never selected. *)
Theorem edge_pt_mask_spec (edge_index : list (Z * Z)) (pt : list Q) (pt_min : Q) :
  (is_ok (_edge_pt_mask edge_index pt pt_min) = true
   ↔ Forall (edge_in_bounds (length pt)) edge_index)
  ∧ (¬ Forall (edge_in_bounds (length pt)) edge_index →
     _edge_pt_mask edge_index pt pt_min = Raise IndexError)
  ∧ ∀ mask, _edge_pt_mask edge_index pt pt_min = Ok mask →
      length mask = length edge_index
      ∧ ∀ (e : nat) (s d : Z), edge_index !! e = Some (s, d) →
          ∃ ps pd : Q,
            tensor_get pt s = Ok ps ∧ tensor_get pt d = Ok pd
            ∧ (mask !! e = Some true
               ↔ (round_float32 pt_min < ps)%Q ∨ (round_float32 pt_min < pd)%Q)
            ∧ (mask !! e = Some false
               ↔ (ps <= round_float32 pt_min)%Q ∧ (pd <= round_float32 pt_min)%Q).
Proof.
  unfold _edge_pt_mask.
  pose proof (index_select_ok_iff pt (fst <$> edge_index)) as Hs.
  pose proof (index_select_ok_iff pt (snd <$> edge_index)) as Hd.
  rewrite Forall_fmap in Hs, Hd. unfold edge_in_bounds. rewrite Forall_and, <- Hs, <- Hd.
  destruct (index_select pt (fst <$> edge_index)) as [pa|e1] eqn:Ha; cbn [mbind result_bind].
  2: { rewrite (index_select_error _ _ _ Ha). split; [simpl; intuition congruence|].
       split; [done|done]. }
  destruct (index_select pt (snd <$> edge_index)) as [pb|e2] eqn:Hb; cbn [mbind result_bind].
  2: { rewrite (index_select_error _ _ _ Hb). split; [simpl; intuition congruence|].
       split; [done|done]. }
  split; [simpl; tauto|]. split; [simpl; tauto|].
  intros mask [= <-].
  apply index_select_spec in Ha as [Hla Ha]. apply index_select_spec in Hb as [Hlb Hb].
  rewrite length_fmap in Hla, Hlb.
  split; [rewrite length_zip_with, !length_fmap; lia|].
  intros e s d He.
  destruct (Ha e s) as (ps & Hps & Hpa); [by rewrite list_lookup_fmap, He|].
  destruct (Hb e d) as (pd & Hpd & Hpb); [by rewrite list_lookup_fmap, He|].
  exists ps, pd. split; [done|]. split; [done|].
  rewrite lookup_zip_with, !list_lookup_fmap, Hpa, Hpb. simpl.
  split.
  - rewrite <- !gt_scalar_lt, <- orb_true_iff. split; congruence.
  - rewrite <- !gt_scalar_le, <- orb_false_iff. split; congruence.
Qed.

Lemma edge_pt_mask_spec_witness :
  _edge_pt_mask (edge_index batch0) (pt batch0) (9 # 10) = Ok [true; false; true]
  ∧ length [true; false; true] = length (edge_index batch0)
  ∧ Forall (edge_in_bounds (length (pt batch0))) (edge_index batch0)
  ∧ _edge_pt_mask (edge_index batch_dangling) (pt batch0) (9 # 10) = Raise IndexError.
Proof.
  destruct (edge_pt_mask_spec (edge_index batch0) (pt batch0) (9 # 10)) as (Hok & _ & Hmask).
  destruct (edge_pt_mask_spec (edge_index batch_dangling) (pt batch0) (9 # 10))
    as (_ & Herr & _).
  split; [reflexivity|]. split; [exact (proj1 (Hmask _ eq_refl))|].
  split; [exact (proj1 Hok eq_refl)|].
  apply Herr. intros H. apply (Forall_lookup_1 _ _ 2%nat (0, 3)) in H; [|reflexivity].
  destruct H as [_ H]. simpl in H. lia.
Defined.

(** X20: the table of losses that [train_step] gathers.  When no loss
    function writes the key [total], a training step that returns has
    recorded one total loss for each batch that the loop reached, in
    order, and none of them is not-a-number.  When the loop reached no
    batch, the table is empty and has no entry [total] at all. *)
Theorem train_step_total_losses (self : TCNTrainer) (max_batches : option Z)
    (loader : list Data) (θ : list Q) (st : train_state) :
  (∀ out kf, kf ∈ loss_functions self → "total" ∉ keys_written kf.1 (kf.2 out)) →
  outcome (train_step self max_batches loader θ) = Ok st →
  let reached := within max_batches 0 (length loader) in
  (reached = 0%nat → _losses st = [])
  ∧ ((0 < reached)%nat →
     ∃ totals,
       dict_get "total" (_losses st) = Some totals
       ∧ length totals = reached
       ∧ Forall (fun t => isnan t = false) totals).
Proof.
  intros Hkeys Hok. cbn zeta. rewrite train_step_outcome in Hok.
  destruct (train_loop_totals self max_batches loader 0 _ st Hkeys Hok)
    as (totals & Hlen & Hnan & Hnil & Hcons).
  split.
  - intros H0. rewrite H0 in Hlen. apply nil_length_inv in Hlen. by rewrite (Hnil Hlen).
  - intros Hpos. exists totals. split; [|done].
    rewrite Hcons; [done|]. intros ->. simpl in Hlen. lia.
Qed.

Lemma train_step_total_losses_witness :
  ∃ st,
    outcome (train_step trainer_log (Some 1) loader1 []) = Ok st
    ∧ ∃ totals,
        dict_get "total" (_losses st) = Some totals
        ∧ length totals = 2%nat
        ∧ Forall (fun t => isnan t = false) totals.
Proof.
  eexists. split; [reflexivity|].
  refine (proj2 (train_step_total_losses trainer_log (Some 1) loader1 [] _ _ eq_refl) _).
  - intros out kf Hkf Hin. simpl in Hkf.
    repeat (apply elem_of_cons in Hkf as [->|Hkf]; simpl in Hin;
            [repeat (apply elem_of_cons in Hin as [Hin|Hin]; [discriminate|]);
             by apply elem_of_nil in Hin|]).
    by apply elem_of_nil in Hkf.
  - simpl. lia.
Defined.

(** X21: the momentum mask fits what [evaluate_model] returns.  For a
    well-formed batch, with or without truth cuts, the entries
    [edge_index], [pt] and [y] of the dictionary that [evaluate_model]
    returns are such that [_edge_pt_mask] raises for no threshold, and its
    mask has the length of [y], so that [y[edge_pt_mask]] in the test step
    is a valid selection. *)
Theorem edge_pt_mask_after_evaluate (self : TCNTrainer) (θ : list Q) (data : Data)
    (mask_pids_reco apply_truth_cuts : bool) (model_output : gmap string pyobj) :
  wf_data data →
  outcome (evaluate_model self θ data mask_pids_reco apply_truth_cuts) = Ok model_output →
  ∃ edges p ys,
    model_output !! "edge_index" = Some (IndexTensor edges)
    ∧ model_output !! "pt" = Some (FloatTensor p)
    ∧ model_output !! "y" = Some (FloatTensor ys)
    ∧ ∀ pt_min, ∃ edge_pt_mask,
        _edge_pt_mask edges p pt_min = Ok edge_pt_mask
        ∧ length edge_pt_mask = length ys
        ∧ masked_select ys edge_pt_mask = Ok (select ys edge_pt_mask).
Proof.
  intros Hwf Hout.
  apply evaluate_model_outcome in Hout as (data' & pid_field & _ & Hdata' & _ & ->).
  assert (wf_data data') as Hwf'.
  { destruct apply_truth_cuts; [|by subst].
    destruct Hdata' as (nm & em & _ & Happly). by apply (apply_mask_wf data data' nm em). }
  exists (edge_index data'), (pt data'), (y data').
  split; [reflexivity|]. split; [reflexivity|]. split; [reflexivity|].
  intros pt_min.
  destruct (edge_pt_mask_total (edge_index data') (pt data') pt_min
              (wf_edges_in_bounds data' Hwf')) as (mask & Hmask & Hlen).
  exists mask. split; [done|]. destruct Hwf' as [_ _ _ _ Hy _ _].
  split; [lia|]. unfold masked_select. replace (length mask) with (length (y data')) by lia.
  by rewrite Nat.eqb_refl.
Qed.

Lemma edge_pt_mask_after_evaluate_witness :
  wf_data batch0
  ∧ ∃ model_output edge_pt_mask,
      outcome (evaluate_model trainer1 [] batch0 false true) = Ok model_output
      ∧ model_output !! "edge_index" = Some (IndexTensor [(0, 1)])
      ∧ _edge_pt_mask [(0, 1)] [2%Q; 0%Q] (9 # 10) = Ok edge_pt_mask
      ∧ length edge_pt_mask = 1%nat.
Proof.
  assert (wf_data batch0) as Hwf.
  { split; try reflexivity. repeat constructor; simpl; lia. }
  split; [exact Hwf|].
  destruct (edge_pt_mask_after_evaluate trainer1 [] batch0 false true _ Hwf eq_refl)
    as (edges & p & ys & He & Hp & Hy & Hmask).
  injection He as <-. injection Hp as <-. injection Hy as <-.
  destruct (Hmask (9 # 10)%Q) as (mask & Hm & Hl & _).
  eexists _, mask. split; [reflexivity|]. split; [reflexivity|]. split; [exact Hm|exact Hl].
Defined.

(** ** Further theorems about the clustering scanner *)

(** X12: what the constructor checks when the sectors are given.  It
    returns exactly when the graphs and the truth vectors agree in number
    and in length, there is at least one graph, no name of a metric
    contains a dot, and the sector arrays have the lengths of the truth
    vectors; the scanner then holds the sectors as given, an empty cache
    and a grace period of 20.  Lengths that disagree and an empty list of
    graphs raise [AssertionError]; a dot in a metric name raises
    [ValueError] once these two checks have passed. *)
Theorem init_with_sectors (graphs : list (list (list Q))) (truth : list (list Z))
    (guide : string) (metrics : list (string * (list Z → list Z → metric_value)))
    (sectors : list ndarray) (guide_proxy : string) :
  let r := __init__ graphs truth guide metrics (Some sectors) guide_proxy in
  (is_ok r = true
   ↔ length <$> graphs = length <$> truth
     ∧ graphs ≠ []
     ∧ (∀ m, m ∈ metrics → contains_dot m.1 = false)
     ∧ lens sectors = Ok (length <$> truth))
  ∧ (∀ self, r = Ok self →
       self = mkScanner graphs truth metrics sectors guide_proxy guide ∅ 20)
  ∧ (length <$> graphs ≠ length <$> truth → r = Raise AssertionError)
  ∧ (graphs = [] → r = Raise AssertionError)
  ∧ (length <$> graphs = length <$> truth → graphs ≠ [] →
     (∃ m, m ∈ metrics ∧ contains_dot m.1 = true) → r = Raise ValueError).
Proof.
  cbn zeta. unfold __init__.
  destruct (bool_decide (length <$> graphs = length <$> truth)) eqn:H1; cbn [negb];
    [apply bool_decide_eq_true in H1 | apply bool_decide_eq_false in H1].
  2: { split; [split; [done|tauto]|]. split; [done|]. split; [done|].
       split; [|done]. intros ->. by destruct truth. }
  destruct (0 <? length graphs)%nat eqn:H2; cbn [negb];
    [apply Nat.ltb_lt in H2 | apply Nat.ltb_ge in H2].
  2: { assert (graphs = []) as -> by (destruct graphs; [done|simpl in H2; lia]).
       split; [split; [done|tauto]|]. split; [done|]. split; [done|].
       split; [done|]. tauto. }
  assert (graphs ≠ []) as Hne by (intros ->; simpl in H2; lia).
  destruct (existsb (fun m => contains_dot m.1) metrics) eqn:H3.
  { assert (¬ ∀ m, m ∈ metrics → contains_dot m.1 = false) as Hno.
    { intros H. apply existsb_contains_dot in H. congruence. }
    split; [split; [done|tauto]|]. split; [done|]. split; [done|].
    split; [done|]. done. }
  pose proof (proj1 (existsb_contains_dot metrics) H3) as Hnodots.
  assert (¬ ∃ m, m ∈ metrics ∧ contains_dot m.1 = true) as Hno.
  { intros (m & Hm & Hd). rewrite (Hnodots m Hm) in Hd. done. }
  destruct (lens sectors) as [ls|e] eqn:Hls; cbn [mbind result_bind].
  - destruct (bool_decide (ls = length <$> truth)) eqn:H4; cbn [negb mbind result_bind];
      [apply bool_decide_eq_true in H4 | apply bool_decide_eq_false in H4].
    + subst ls. split; [split; [done|]; done|]. split; [by intros self [= <-]|].
      split; [done|]. split; [done|]. tauto.
    + split; [split; [done|]; intros (_ & _ & _ & [= ?]); done|]. split; [done|].
      split; [done|]. split; [done|]. tauto.
  - split; [split; [done|]; intros (_ & _ & _ & ?); done|]. split; [done|].
    split; [done|]. split; [done|]. tauto.
Qed.

Lemma init_with_sectors_witness :
  length <$> [graph0; graph0] = length <$> [truth0; truth1]
  ∧ __init__ [graph0; graph0] [truth0; truth1] "v_measure" []
      (Some [array1 [2; -1; 2]; array1 [-1; 4; 3]]) "" = Ok scanner0
  ∧ __init__ [graph0] [truth0; truth1] "v_measure" []
      (Some [array1 [2; -1; 2]; array1 [-1; 4; 3]]) "" = Raise AssertionError
  ∧ __init__ [] [] "v_measure" [] (Some []) "" = Raise AssertionError
  ∧ __init__ [graph0] [truth0] "v.measure"
      [("v.measure", fun _ _ => MetricFloat 1)] (Some [array1 [2; -1; 2]]) ""
    = Raise ValueError.
Proof.
  split; [reflexivity|].
  split; [reflexivity|].
  split.
  { apply (proj1 (proj2 (proj2 (init_with_sectors [graph0] [truth0; truth1] "v_measure" []
                                  [array1 [2; -1; 2]; array1 [-1; 4; 3]] "")))).
    discriminate. }
  split.
  { apply (proj1 (proj2 (proj2 (proj2 (init_with_sectors [] [] "v_measure" [] [] ""))))).
    reflexivity. }
  apply (proj2 (proj2 (proj2 (proj2 (init_with_sectors [graph0] [truth0] "v.measure"
           [("v.measure", fun _ _ => MetricFloat 1)] [array1 [2; -1; 2]] ""))))).
  - reflexivity.
  - discriminate.
  - eexists. split; [apply list_elem_of_here|reflexivity].
Defined.

(** X13: a call of [_get_sector_to_study] for a graph that is not in the
    cache raises [IndexError] when the scanner has no such graph and
    [ValueError] when all hits of the graph are in the background sector
    [-1] (or the graph has no hit).  Otherwise it returns, takes exactly
    one number from the random generator and adds the graph with its
    sector to the cache, leaving the rest of the scanner as it is; a call
    for a graph in the cache takes no number from the generator. *)
Theorem get_sector_to_study_miss (self : ClusterHyperParamScanner) (rng : RandomState)
    (i : Z) :
  (∀ s, _graph_to_sector self !! i = Some s →
     _get_sector_to_study self rng i = Ok (s, self, rng))
  ∧ (_graph_to_sector self !! i = None →
     (¬ (- Z.of_nat (length (sectors self)) <= i < Z.of_nat (length (sectors self))) →
      _get_sector_to_study self rng i = Raise IndexError)
     ∧ (∀ a, list_get (sectors self) i = Ok a → (∀ v, v ∈ flat a → v = -1) →
        _get_sector_to_study self rng i = Raise ValueError)
     ∧ (∀ s self' rng', _get_sector_to_study self rng i = Ok (s, self', rng') →
        rng' = mkRandom (draws rng) (S (cursor rng))
        ∧ self' = mkScanner (graphs self) (truth self) (metrics self) (sectors self)
                    (_cheap_metric self) (_expensive_metric self)
                    (<[i := s]> (_graph_to_sector self)) (pruning_grace_period self))).
Proof.
  split; [intros s; apply get_sector_cached|].
  intros Hmiss. unfold _get_sector_to_study. rewrite Hmiss. split; [|split].
  - intros Hi. by rewrite (list_get_error _ _ Hi).
  - intros a -> Hall. cbn [mbind result_bind].
    assert (remove_if_present (-1) (np_unique a) = []) as ->.
    { destruct (remove_if_present (-1) (np_unique a)) as [|v l] eqn:Hl; [done|].
      assert (v ∈ remove_if_present (-1) (np_unique a)) as Hin
        by (rewrite Hl; apply list_elem_of_here).
      apply elem_of_remove_if_present in Hin as [Hin Hne]; [|apply np_unique_sorted].
      apply elem_of_np_unique in Hin. by specialize (Hall v Hin). }
    done.
  - intros s self' rng' H. bind_inv H. bind_inv H. destruct v0 as [c rng1].
    apply np_random_choice_inv in Hv0 as [_ ->]. by injection H as <- <- <-.
Qed.

Lemma get_sector_to_study_miss_witness :
  _graph_to_sector scanner_background !! 0 = None
  ∧ _get_sector_to_study scanner_background random0 0 = Raise ValueError
  ∧ _get_sector_to_study scanner_background random0 1 = Raise IndexError
  ∧ _graph_to_sector scanner0_1 !! 1 = Some 4
  ∧ _get_sector_to_study scanner0_1 random0 1 = Ok (4, scanner0_1, random0).
Proof.
  destruct (get_sector_to_study_miss scanner_background random0 0) as [_ H0].
  destruct (H0 eq_refl) as (_ & Hval & _).
  destruct (get_sector_to_study_miss scanner_background random0 1) as [_ H1].
  destruct (H1 eq_refl) as (Hidx & _ & _).
  split; [reflexivity|].
  split.
  { apply (Hval (array1 [-1; -1; -1]) eq_refl). intros v Hv. simpl in Hv.
    repeat (apply elem_of_cons in Hv as [->|Hv]; [reflexivity|]).
    by apply elem_of_nil in Hv. }
  split; [apply Hidx; simpl; lia|].
  split; [reflexivity|].
  exact (proj1 (get_sector_to_study_miss scanner0_1 random0 1) 4 eq_refl).
Defined.

(** X15: [_get_explicit_metric] for a name [metric.subkey] with one dot
    returns the entry [subkey] of the mapping that the metric [metric]
    returns, and raises when there is no such metric ([KeyError]), no such
    entry ([KeyError]) or the metric returns a float; a name with two or
    more dots raises [ValueError] whatever the metrics are; a name without
    a dot gives what the metric of that name returns, be it a float or a
    mapping, and [KeyError] when there is none. *)
Theorem get_explicit_metric_spec (self : ClusterHyperParamScanner)
    (predicted truth : list Z) :
  (∀ metric subkey,
     contains_dot metric = false → contains_dot subkey = false →
     let r := _get_explicit_metric self (metric +:+ "." +:+ subkey) predicted truth in
     match dict_get metric (metrics self) with
     | None => r = Raise KeyError
     | Some f =>
         match f truth predicted with
         | MetricFloat _ => is_ok r = false
         | MetricDict items =>
             r = match dict_get subkey items with
                 | Some v => Ok (MetricFloat v)
                 | None => Raise KeyError
                 end
         end
     end)
  ∧ (∀ a b c,
       _get_explicit_metric self (a +:+ "." +:+ b +:+ "." +:+ c) predicted truth
       = Raise ValueError)
  ∧ (∀ name,
       contains_dot name = false →
       _get_explicit_metric self name predicted truth
       = match dict_get name (metrics self) with
         | Some f => Ok (f truth predicted)
         | None => Raise KeyError
         end).
Proof.
  split; [|split].
  - intros metric subkey Hm Hs. cbn zeta. unfold _get_explicit_metric.
    rewrite contains_dot_app, split_dot_app, (split_dot_no_dot _ Hm), (split_dot_no_dot _ Hs).
    simpl. destruct (dict_get metric (metrics self)) as [f|]; [|done].
    by destruct (f truth predicted).
  - intros a b c. unfold _get_explicit_metric.
    rewrite contains_dot_app, !split_dot_app.
    pose proof (split_dot_nonempty a). pose proof (split_dot_nonempty b).
    pose proof (split_dot_nonempty c).
    destruct (split_dot a) as [|a1 [|a2 al]]; [done| |];
      destruct (split_dot b) as [|b1 bl]; try done;
      destruct (split_dot c) as [|c1 cl]; try done; simpl.
    + by destruct bl.
    + by destruct al.
  - intros name Hn. unfold _get_explicit_metric. by rewrite Hn.
Qed.

Lemma get_explicit_metric_spec_witness :
  _get_explicit_metric scanner_metrics "trk.double_majority" [0; 0; 1] truth0
  = Ok (MetricFloat (3 # 4))
  ∧ is_ok (_get_explicit_metric scanner_metrics "purity.double_majority" [0; 0; 1] truth0)
    = false
  ∧ _get_explicit_metric scanner_metrics "trk" [0; 0; 1] truth0
    = Ok (MetricDict [("double_majority", (3 # 4)%Q); ("lhc", (1 # 4)%Q)]).
Proof.
  destruct (get_explicit_metric_spec scanner_metrics [0; 0; 1] truth0) as (Hdot & _ & Hplain).
  split; [exact (Hdot "trk" "double_majority" eq_refl eq_refl)|].
  split; [exact (Hdot "purity" "double_majority" eq_refl eq_refl)|].
  exact (Hplain "trk" eq_refl).
Defined.

(** ** More about the evaluation of the metrics *)

(** X16: the hits of the background sector [-1] have no influence on
    what [__evaluate] does: two scanners with the same metrics and sectors,
    whose graphs and truth labels differ at most on hits of the background
    sector, give the same result, the same exception, or are both not
    covered, for every clustering algorithm and study. *)
Theorem evaluate_ignores_background (self1 self2 : ClusterHyperParamScanner)
    (algorithm : cluster_params → list (list Q) → list Z) (_study : option Study) :
  same_outside_background self1 self2 →
  __evaluate self1 algorithm _study = __evaluate self2 algorithm _study.
Proof.
  intros [Hm Hz]. unfold __evaluate. destruct _study as [study|]; [|done].
  destruct (best_params study) as [p|e]; [|done].
  by rewrite Hm, (evaluate_graphs_agree (algorithm p) (metrics self2) _ _ [] Hz).
Qed.

Lemma evaluate_ignores_background_witness :
  same_outside_background (scanner_eval) (scanner_eval_moved)
  ∧ graphs scanner_eval ≠ graphs scanner_eval_moved
  ∧ __evaluate scanner_eval one_cluster (Some study0)
    = __evaluate scanner_eval_moved one_cluster (Some study0).
Proof.
  assert (same_outside_background scanner_eval scanner_eval_moved) as H.
  { split; [reflexivity|].
    repeat constructor; simpl;
      intros [|[|[|j]]] s; simpl; intros [= <-] Hs; try reflexivity; try lia; done. }
  split; [exact H|]. split; [discriminate|].
  exact (evaluate_ignores_background scanner_eval scanner_eval_moved one_cluster
           (Some study0) H).
Defined.

(** X17: [__evaluate] raises [AssertionError] without a study and
    [ValueError] for a study without a completed trial.  With a best trial
    and sector arrays that are one-dimensional and as long as their graph
    and truth, it returns; the keys of the result are pairwise different,
    and each is the name of a metric or [name.k].  When every hit of every
    graph is in the background sector, the result is the empty dictionary
    (whatever the shapes are), and no exception is raised. *)
Theorem evaluate_returns (self : ClusterHyperParamScanner)
    (algorithm : cluster_params → list (list Q) → list Z) :
  __evaluate self algorithm None = Some (Raise AssertionError)
  ∧ __evaluate self algorithm (Some (mkStudy None)) = Some (Raise ValueError)
  ∧ (∀ p, Forall sectors_fit (zip3 self) →
       ∃ result,
         __evaluate self algorithm (Some (mkStudy (Some p))) = Some (Ok result)
         ∧ NoDup result.*1
         ∧ ∀ key, key ∈ result.*1 → ∃ m, m ∈ metrics self ∧ key_of_metric key m.1)
  ∧ (∀ p, Forall (fun b => ∀ s, s ∈ flat b.2 → s = -1) (zip3 self) →
       __evaluate self algorithm (Some (mkStudy (Some p))) = Some (Ok [])).
Proof.
  split; [done|]. split; [done|]. split.
  - intros p Hfit. unfold __evaluate. cbn [best_params best_trial_params].
    rewrite (evaluate_graphs_samples (algorithm p) (metrics self) (zip3 self) [] Hfit).
    eexists. split; [reflexivity|].
    destruct (record_samples_invariant (metrics self)
                (sector_samples (algorithm p) (zip3 self)) [] (NoDup_nil_2)) as [Hnd Hkeys].
    rewrite fmap_value_keys. split; [by apply filter_keys_NoDup|].
    intros key Hkey%filter_keys. destruct (Hkeys key Hkey) as [Hnil|?]; [|done].
    by apply elem_of_nil in Hnil.
  - intros p Hbg. unfold __evaluate. cbn [best_params best_trial_params].
    by rewrite (evaluate_graphs_background (algorithm p) (metrics self) (zip3 self) [] Hbg).
Qed.

Lemma evaluate_returns_witness :
  Forall sectors_fit (zip3 scanner_eval)
  ∧ __evaluate scanner_eval one_cluster (Some study0)
    = Some (Ok [("n_hits", np_nanmean [2%Q; 1%Q; 1%Q]);
                ("trk.double_majority", np_nanmean [(3 # 4)%Q; (3 # 4)%Q; (3 # 4)%Q]);
                ("trk.lhc", np_nanmean [(1 # 4)%Q; (1 # 4)%Q; (1 # 4)%Q])])
  ∧ __evaluate scanner_background one_cluster (Some study0) = Some (Ok []).
Proof.
  assert (Forall sectors_fit (zip3 scanner_eval)) as Hfit by (repeat constructor).
  assert (Forall (fun b => ∀ s, s ∈ flat b.2 → s = -1) (zip3 scanner_background)) as Hbg.
  { repeat constructor. simpl. intros s Hs.
    repeat (apply elem_of_cons in Hs as [->|Hs]; [done|]). by apply elem_of_nil in Hs. }
  destruct (evaluate_returns scanner_eval one_cluster) as (_ & _ & Hret & _).
  destruct (evaluate_returns scanner_background one_cluster) as (_ & _ & _ & Hempty).
  split; [exact Hfit|]. split.
  - destruct (Hret [("eps", (1 # 2)%Q)] Hfit) as (result & Hres & _). reflexivity.
  - exact (Hempty [("eps", (1 # 2)%Q)] Hbg).
Defined.

(** X18: a scanner that is built without [sectors] cannot evaluate its
    metrics: when the truth vector of the first graph has only positive
    labels and is not the single label 1, the sector array that the
    constructor has made from it has the labels as its dimensions, and
    [__evaluate] raises [IndexError] at the first graph, for every
    algorithm, whatever the metrics and the other graphs are. *)
Theorem evaluate_default_sectors (g : list (list Q)) (t : list Z)
    (more_graphs : list (list (list Q))) (more_truth : list (list Z))
    (guide guide_proxy : string)
    (ms : list (string * (list Z → list Z → metric_value)))
    (self : ClusterHyperParamScanner)
    (algorithm : cluster_params → list (list Q) → list Z) (p : cluster_params) :
  __init__ (g :: more_graphs) (t :: more_truth) guide ms None guide_proxy = Ok self →
  Forall (fun v => 0 < v) t → t ≠ [] → t ≠ [1] →
  __evaluate self algorithm (Some (mkStudy (Some p))) = Some (Raise IndexError).
Proof.
  intros Hinit Hpos Hne Hne1.
  apply init_default_inv in Hinit as (Hlen & arrays & Hones & ->).
  injection Hlen as Hl _. simpl in Hones. bind_inv Hones. bind_inv Hones.
  injection Hones as <-. rename v into a.
  apply np_ones_inv in Hv as [Hd Hf].
  unfold __evaluate, zip3. cbn [best_params best_trial_params graphs truth sectors
    metrics zip zip_with evaluate_graphs].
  assert (np_unique a = [1]) as Hu.
  { unfold np_unique. rewrite Hf. pose proof (product_positive t Hpos) as Hp.
    destruct (foldr Nat.mul 1%nat (Z.to_nat <$> t)) as [|n]; [lia|]. apply unique_of_ones. }
  rewrite Hu. cbn [remove_if_present Z.eqb evaluate_sectors].
  by rewrite (take_sector_shape g t a 1 Hd Hl Hpos Hne Hne1).
Qed.

Lemma evaluate_default_sectors_witness :
  ∃ self,
    __init__ [graph0] [truth0] "v_measure" [("n_hits", n_hits)] None "" = Ok self
    ∧ Forall (fun v => 0 < v) truth0
    ∧ __evaluate self one_cluster (Some study0) = Some (Raise IndexError).
Proof.
  assert (Forall (fun v => 0 < v) truth0) as Hpos by (repeat constructor).
  eexists. split; [reflexivity|]. split; [exact Hpos|].
  apply (evaluate_default_sectors graph0 truth0 [] [] "v_measure" ""
           [("n_hits", n_hits)] _ one_cluster [("eps", (1 # 2)%Q)] eq_refl Hpos);
    discriminate.
Defined.

(** X19: the values that the loop of [__evaluate] gathers for a metric
    that returns a float, before any mean is taken: with sector arrays
    that fit their graphs and metrics of pairwise different names, the
    loop returns, and the list it holds under the name of the metric has
    one value for each pair of a graph and one of its sectors other than
    the background, in the order of the loop: the metric evaluated on the
    truth labels of the sector and on the labels that the algorithm gives
    to the hits of the sector.  Without such a pair the loop gathers
    nothing at all. *)
Theorem evaluate_graphs_float_metric (self : ClusterHyperParamScanner)
    (algorithm : list (list Q) → list Z)
    (name : string) (f : list Z → list Z → metric_value) :
  Forall sectors_fit (zip3 self) →
  NoDup (metrics self).*1 →
  (name, f) ∈ metrics self → contains_dot name = false → float_valued f →
  ∃ metric_values,
    evaluate_graphs algorithm (metrics self) (zip3 self) [] = Some (Ok metric_values)
    ∧ (sector_samples algorithm (zip3 self) = [] → metric_values = [])
    ∧ (sector_samples algorithm (zip3 self) ≠ [] →
       dict_get name metric_values
       = Some (float_value f <$> sector_samples algorithm (zip3 self))).
Proof.
  intros Hfit Hnd Hin Hdot Hf.
  rewrite (evaluate_graphs_samples algorithm (metrics self) (zip3 self) [] Hfit).
  eexists. split; [reflexivity|].
  destruct (sector_samples algorithm (zip3 self)) as [|s samples] eqn:Hs.
  - split; done.
  - split; [done|]. intros _.
    by rewrite (record_samples_float (metrics self) samples [] s name f Hnd Hin Hdot Hf).
Qed.

Lemma evaluate_graphs_float_metric_witness :
  sector_samples (one_cluster [("eps", (1 # 2)%Q)]) (zip3 scanner_eval)
  = [([1; 2], [0; 0]); ([5], [0]); ([5], [0])]
  ∧ ∃ metric_values,
      evaluate_graphs (one_cluster [("eps", (1 # 2)%Q)]) (metrics scanner_eval)
        (zip3 scanner_eval) [] = Some (Ok metric_values)
      ∧ dict_get "n_hits" metric_values = Some [2%Q; 1%Q; 1%Q].
Proof.
  split; [reflexivity|].
  destruct (evaluate_graphs_float_metric scanner_eval (one_cluster [("eps", (1 # 2)%Q)])
              "n_hits" n_hits) as (mv & Hev & _ & Hget).
  - repeat constructor.
  - repeat constructor; simpl; rewrite ?elem_of_cons, ?elem_of_nil; intros H;
      repeat destruct H as [H|H]; done.
  - apply list_elem_of_here.
  - reflexivity.
  - intros t l. by eexists.
  - exists mv. split; [exact Hev|]. apply Hget. discriminate.
Defined.

(** X23: with sector arrays that fit their graphs, what [__evaluate]
    returns is made of the pairs of truth and predicted labels of the
    sectors alone, and no such pair is empty: the clustering algorithm is
    only called on sectors with at least one hit, and every metric gets as
    many truth labels as the algorithm was given hits. *)
Theorem evaluate_never_empty (self : ClusterHyperParamScanner)
    (algorithm : cluster_params → list (list Q) → list Z) (p : cluster_params) :
  Forall sectors_fit (zip3 self) →
  __evaluate self algorithm (Some (mkStudy (Some p)))
  = Some (Ok ((fun kv => (kv.1, np_nanmean kv.2))
                <$> List.filter (fun kv => negb (Nat.eqb (length kv.2) 0))
                      (fold_left (record_sample (metrics self))
                         (sector_samples (algorithm p) (zip3 self)) [])))
  ∧ ∀ sample, sample ∈ sector_samples (algorithm p) (zip3 self) →
      sample.1 ≠ []
      ∧ ∃ sector_graph,
          sample.2 = algorithm p sector_graph
          ∧ sector_graph ≠ []
          ∧ length sector_graph = length sample.1.
Proof.
  intros Hfit. split.
  { unfold __evaluate. cbn [best_params best_trial_params].
    by rewrite (evaluate_graphs_samples (algorithm p) (metrics self) (zip3 self) [] Hfit). }
  intros sample Hin. unfold sector_samples in Hin.
  apply list_elem_of_bind in Hin as ([[g t] a] & Hin & Hb).
  apply list_elem_of_bind in Hin as (sector & Hin & Hsector).
  apply list_elem_of_singleton in Hin as ->. cbn [fst snd] in *.
  rewrite Forall_forall in Hfit. destruct (Hfit _ Hb) as (_ & Hflat & Ht).
  cbn [fst snd] in Hflat, Ht.
  pose proof (sector_has_hits a sector Hsector) as Hpos.
  assert (length (select t ((fun s => s =? sector) <$> flat a))
          = popcount ((fun s => s =? sector) <$> flat a)) as Hlt.
  { apply length_select. rewrite length_fmap. lia. }
  assert (length (select g ((fun s => s =? sector) <$> flat a))
          = popcount ((fun s => s =? sector) <$> flat a)) as Hlg.
  { apply length_select. rewrite length_fmap. lia. }
  split.
  - intros Hnil. rewrite Hnil in Hlt. simpl in Hlt. lia.
  - eexists. split; [reflexivity|]. split; [|lia].
    intros Hnil. rewrite Hnil in Hlg. simpl in Hlg. lia.
Qed.

Lemma evaluate_never_empty_witness :
  Forall sectors_fit (zip3 scanner_eval)
  ∧ ([5], [0]) ∈ sector_samples (one_cluster [("eps", (1 # 2)%Q)]) (zip3 scanner_eval)
  ∧ ∃ sector_graph,
      [0] = one_cluster [("eps", (1 # 2)%Q)] sector_graph
      ∧ sector_graph ≠ []
      ∧ length sector_graph = 1%nat.
Proof.
  assert (Forall sectors_fit (zip3 scanner_eval)) as Hfit by (repeat constructor).
  assert (([5], [0]) ∈ sector_samples (one_cluster [("eps", (1 # 2)%Q)]) (zip3 scanner_eval))
    as Hin by (apply list_elem_of_further, list_elem_of_here).
  split; [exact Hfit|]. split; [exact Hin|].
  exact (proj2 (proj2 (evaluate_never_empty scanner_eval one_cluster [("eps", (1 # 2)%Q)] Hfit)
                  ([5], [0]) Hin)).
Defined.
